(** * The deploy worker of rise-server (deployer/deployer/deployer.go)

    A shallow embedding of [deployer.Work] and of the collaborators it
    drives: the relational store (gorm), the object store (S3 behind
    [filetransfer.FileTransfer]), the broadcast exchange (pubsub) and the
    analytics sink.  Every call that leaves the process is recorded in a
    log, in the manner of the test double [fake.S3] with its [UploadCalls]
    and [DownloadCalls], and may fail: a fault oracle decides, call by
    call, whether the collaborator answers or returns an error. *)

From Stdlib Require Import ZArith NArith Ascii String List Lia DecimalString.
From stdpp Require Import base option list strings gmap.

Local Open Scope Z_scope.

(** ** Values of the Go runtime *)

(** [time.Time] as nanoseconds since the epoch, [time.Duration] as int64
    nanoseconds. *)
Definition Time := Z.

Definition maxInt64 : Z := 2 ^ 63 - 1.
Definition minInt64 : Z := - 2 ^ 63.

(** [t.Sub(u)]: the difference, saturated to the range of a Duration. *)
Definition Time_Sub (t u : Time) : Z :=
  Z.max minInt64 (Z.min maxInt64 (t - u)).

Definition time_Second : Z := 1000000000.

(** [int(x)] for a 64-bit [uint] x: the same bits read as two's complement. *)
Definition int_of_uint (x : N) : Z :=
  let z := Z.of_N x mod 2 ^ 64 in
  if z <? 2 ^ 63 then z else z - 2 ^ 64.

Definition strconv_Itoa (z : Z) : string := NilZero.string_of_int (Z.to_int z).

(** The verb [%d] of [fmt.Sprintf] on an unsigned identifier. *)
Definition fmt_d (n : N) : string := NilZero.string_of_uint (N.to_uint n).

(** The value a JSON text denotes; [json.Marshal] is modelled up to the
    bytes of its output. *)
#[local] Unset Elimination Schemes.
Inductive JSON :=
| JString (s : string)
| JBool (b : bool)
| JArray (elems : list JSON)
| JObject (fields : list (string * JSON)).
#[local] Set Elimination Schemes.

(** ** strings, path, path/filepath *)

Definition slash : ascii := "/"%char.
Definition dot : ascii := "."%char.
Definition semicolon : ascii := ";"%char.

(** The elements of a path between its slashes. *)
Fixpoint split_slash (s : string) : list string :=
  match s with
  | EmptyString => [EmptyString]
  | String c rest =>
      if Ascii.eqb c slash then EmptyString :: split_slash rest
      else match split_slash rest with
           | [] => [String c EmptyString]
           | e :: es => String c e :: es
           end
  end.

(** One element of [path.Clean]'s scan; [out] holds the elements written so
    far, last one first.  A ".." removes the element before it when that is a
    real one ([out.w > dotdot] in the source), is kept in a path that is not
    rooted, and is dropped at the root. *)
Definition clean_step (rooted : bool) (out : list string) (e : string) : list string :=
  if String.eqb e "" then out
  else if String.eqb e "." then out
  else if String.eqb e ".." then
    match out with
    | top :: below => if String.eqb top ".." then e :: out else below
    | [] => if rooted then out else [e]
    end
  else e :: out.

Fixpoint join_slash (es : list string) : string :=
  match es with
  | [] => ""
  | [e] => e
  | e :: rest => e +:+ "/" +:+ join_slash rest
  end.

(** [path.Clean]: the shortest path equivalent to its argument by purely
    lexical processing. *)
Definition path_Clean (p : string) : string :=
  match p with
  | EmptyString => "."
  | String c _ =>
      let rooted := Ascii.eqb c slash in
      let out := rev (fold_left (clean_step rooted) (split_slash p) []) in
      if rooted then "/" +:+ join_slash out
      else match out with
           | [] => "."
           | _ => join_slash out
           end
  end.

Fixpoint has_slash (s : string) : bool :=
  match s with
  | EmptyString => false
  | String c rest => Ascii.eqb c slash || has_slash rest
  end.

(** [filepath.Ext]: the suffix beginning at the final dot of the final
    element of the path; empty if there is no dot. *)
Fixpoint filepath_Ext (p : string) : string :=
  match p with
  | EmptyString => ""
  | String c rest =>
      match filepath_Ext rest with
      | EmptyString => if Ascii.eqb c dot && negb (has_slash rest) then p else ""
      | e => e
      end
  end.

(** [if i := strings.Index(contentType, ";"); i != -1 { contentType = contentType[:i] }] *)
Fixpoint strip_params (contentType : string) : string :=
  match contentType with
  | EmptyString => ""
  | String c rest => if Ascii.eqb c semicolon then "" else String c (strip_params rest)
  end.

(** ** The records of the relational store *)

Module deployment.

Inductive DeploymentState :=
| StatePendingUpload
| StateUploaded
| StatePendingBuild
| StatePendingDeploy
| StateDeployed
| StateFailed.

Record Deployment := {
  ID : N;
  ProjectID : N;
  UserID : N;
  Prefix : string;
  Version : Z;
  State : DeploymentState;
  CreatedAt : Time;
  DeployedAt : option Time
}.

Definition State_eqb (a b : DeploymentState) : bool :=
  match a, b with
  | StatePendingUpload, StatePendingUpload
  | StateUploaded, StateUploaded
  | StatePendingBuild, StatePendingBuild
  | StatePendingDeploy, StatePendingDeploy
  | StateDeployed, StateDeployed
  | StateFailed, StateFailed => true
  | _, _ => false
  end.

(** Modelled from the spec: the method [PrefixID] of the deployment model,
    which is not among the sources.  The PrefixID combines the prefix and
    the identifier, [<prefix>-<id>], as in the storage layout
    [deployments/<prefix>-<id>/...]. *)
Definition PrefixID (d : Deployment) : string :=
  Prefix d +:+ "-" +:+ fmt_d (ID d).

End deployment.

Module project.

Record Project := {
  ID : N;
  Name : string;
  UserID : N;
  ActiveDeploymentID : option N;
  LockedAt : option Time;
  ForceHTTPS : bool;
  SkipBuild : bool;
  DefaultDomainEnabled : bool
}.

End project.

Module domain.

Record Domain := {
  ID : N;
  ProjectID : N;
  Name : string
}.

End domain.

Module user.

Record User := {
  ID : N;
  Email : string;
  Name : string;
  Organization : string
}.

End user.

Module messages.

(** The Deploy job, [{"deployment_id": .., "skip_webroot_upload": ..,
    "skip_invalidation": .., "use_raw_bundle": ..}]. *)
Record DeployJobData := {
  DeploymentID : N;
  SkipWebrootUpload : bool;
  SkipInvalidation : bool;
  UseRawBundle : bool
}.

Record V1InvalidationMessageData := {
  Domains : list string
}.

End messages.

Import deployment messages.

(** ** The world outside the worker *)

Inductive Service := Database | ObjectStore | FileSystem | Broker | Analytics.

Inductive error :=
| ErrProjectLocked                 (* deployer.ErrProjectLocked *)
| errUnexpectedState               (* deployer.errUnexpectedState *)
| ErrSyntax (msg : string)         (* json.Unmarshal rejects the payload *)
| RecordNotFound                   (* gorm.RecordNotFound *)
| NoSuchKey                        (* the object store has no such object *)
| ErrGzipHeader                    (* gzip.NewReader: not a gzip stream *)
| ErrTarHeader (msg : string)      (* tar.Reader.Next: damaged archive *)
| ErrService (s : Service) (msg : string).

(** What [tar.Reader.Next] yields: an entry with its content, or an error
    other than [io.EOF]; the end of the list is [io.EOF]. *)
Record TarHeader := {
  hdr_Name : string;
  hdr_IsDir : bool                 (* hdr.FileInfo().IsDir() *)
}.

Inductive TarItem :=
| TarEntry (hdr : TarHeader) (content : string)
| TarDamaged (msg : string).

Inductive Body :=
| Bytes (content : string)
| Document (v : JSON)              (* the bytes of json.Marshal v *)
| GzipTar (items : list TarItem).  (* a gzip stream of a tar archive *)

Record Object := {
  obj_body : Body;
  obj_contentType : string;
  obj_acl : string
}.

Record TrackProps := {
  projectName : string;
  deploymentId : N;
  deploymentPrefix : string;
  deploymentVersion : Z;
  timeTakenInSeconds : Z
}.

Record Message := {
  msg_exchange : string;
  msg_routeKey : string;
  msg_body : JSON
}.

(** The calls that leave the process, with their arguments. *)
Inductive Call :=
| DBOpen                                             (* dbconn.DB() *)
| DBFirstDeployment (id : N)
| DBFirstProject (id : N)
| DBFirstUser (id : N)
| DBDomainNames (project_id : N)
| TxBegin
| TxUpdateState (id : N) (st : DeploymentState)
| TxUpdateProject (id : N) (active_deployment_id : N)
| TxCommit
| TxRollback
| TempFile (pattern : string)
| S3Download (region bucket key : string)
| S3Upload (region bucket key : string) (body : Body) (contentType acl : string)
| MQPublish (m : Message)
| Track (userID event : string) (props : TrackProps).

Definition service (c : Call) : Service :=
  match c with
  | TempFile _ => FileSystem
  | S3Download _ _ _ | S3Upload _ _ _ _ _ _ => ObjectStore
  | MQPublish _ => Broker
  | Track _ _ _ => Analytics
  | _ => Database
  end.

(** An entry of the call log: the call and the error it returned, if any. *)
Record Logged := {
  call : Call;
  result : option error
}.

Record DB := {
  deployments : list Deployment;
  projects : list project.Project;
  domains : list domain.Domain;
  users : list user.User
}.

Record World := {
  db : DB;                                   (* the committed rows *)
  s3 : gmap (string * string * string) Object; (* region, bucket, key *)
  mq : list Message;                         (* broadcasts delivered, oldest first *)
  calls : list Logged;                       (* the call log, oldest first *)
  now : Time;                                (* the store's now() *)
  faults : nat -> Service -> option string   (* does the n-th call fail? *)
}.

Definition set_db (x : DB) (w : World) : World :=
  {| db := x; s3 := s3 w; mq := mq w; calls := calls w; now := now w; faults := faults w |}.

Definition set_s3 (x : gmap (string * string * string) Object) (w : World) : World :=
  {| db := db w; s3 := x; mq := mq w; calls := calls w; now := now w; faults := faults w |}.

Definition set_mq (x : list Message) (w : World) : World :=
  {| db := db w; s3 := s3 w; mq := x; calls := calls w; now := now w; faults := faults w |}.

Definition log (c : Call) (r : option error) (w : World) : World :=
  {| db := db w; s3 := s3 w; mq := mq w;
     calls := calls w ++ [{| call := c; result := r |}];
     now := now w; faults := faults w |}.

(** ** The monad of the worker: state, errors and panics *)

Inductive Outcome (A : Type) :=
| Ret (a : A)
| Err (e : error)
| Panic.

Arguments Ret {A} a.
Arguments Err {A} e.
Arguments Panic {A}.

Definition M (A : Type) : Type := World -> World * Outcome A.

Definition ret {A} (a : A) : M A := fun w => (w, Ret a).

Definition fail {A} (e : error) : M A := fun w => (w, Err e).

Definition panic {A} : M A := fun w => (w, Panic).

Definition bind {A B} (m : M A) (k : A -> M B) : M B := fun w =>
  match m w with
  | (w1, Ret a) => k a w1
  | (w1, Err e) => (w1, Err e)
  | (w1, Panic) => (w1, Panic)
  end.

Notation "'let*' x ':=' m 'in' k" := (bind m (fun x => k))
  (at level 10, x pattern, m at level 100, k at level 200).

(** [defer cleanup] in front of [body]: the cleanup runs when the body
    returns, whatever it returns, and its own result is dropped. *)
Definition defer {A B} (cleanup : M B) (body : M A) : M A := fun w =>
  let (w1, r) := body w in (fst (cleanup w1), r).

(** An error that is looked at and not returned: [if err := ...; err == nil]. *)
Definition try {A} (m : M A) : M (option A) := fun w =>
  match m w with
  | (w1, Ret a) => (w1, Ret (Some a))
  | (w1, Err _) => (w1, Ret None)
  | (w1, Panic) => (w1, Panic)
  end.

(** A call to a collaborator.  The oracle may make it fail, else [answer]
    is what the collaborator does and returns; either way the call is
    logged with the error it returned. *)
Definition invoke {A} (c : Call) (answer : World -> World * (error + A)) : M A := fun w =>
  match faults w (length (calls w)) (service c) with
  | Some msg => (log c (Some (ErrService (service c) msg)) w, Err (ErrService (service c) msg))
  | None =>
      match answer w with
      | (w1, inr a) => (log c None w1, Ret a)
      | (w1, inl e) => (log c (Some e) w1, Err e)
      end
  end.

(** ** Configuration of the process *)

(** Constants of packages that are not among the sources ([shared],
    [exchanges]), the process environment, and the MIME table that
    [mime.TypeByExtension] consults after [mimetypes.Register()]. *)
Record Env := {
  S3_BUCKET_REGION : string;
  S3_BUCKET_NAME : string;
  shared_DefaultDomain : string;
  exchanges_Edges : string;
  exchanges_RouteV1Invalidation : string;
  mime_TypeByExtension : string -> string
}.

Module s3client.

Definition BucketRegion (env : Env) : string :=
  if String.eqb (S3_BUCKET_REGION env) "" then "us-west-2" else S3_BUCKET_REGION env.

Definition BucketName (env : Env) : string :=
  if String.eqb (S3_BUCKET_NAME env) "" then "rise-development-usw2" else S3_BUCKET_NAME env.

End s3client.

(** The payload of a job as [json.Unmarshal] reads it: rejected, or the
    fields of a [DeployJobData]. *)
Inductive Payload :=
| Malformed (msg : string)
| Decoded (d : DeployJobData).

Definition json_Unmarshal (data : Payload) : M DeployJobData :=
  match data with
  | Malformed msg => fail (ErrSyntax msg)
  | Decoded d => ret d
  end.

(** ** The collaborators *)

(** *** gorm *)

Definition dbconn_DB : M unit :=
  invoke DBOpen (fun w => (w, inr tt)).

Definition first_deployment (rows : list Deployment) (id : N) : option Deployment :=
  List.find (fun r => N.eqb (deployment.ID r) id) rows.

Definition first_project (rows : list project.Project) (id : N) : option project.Project :=
  List.find (fun r => N.eqb (project.ID r) id) rows.

Definition first_user (rows : list user.User) (id : N) : option user.User :=
  List.find (fun r => N.eqb (user.ID r) id) rows.

Definition or_not_found {A} (w : World) (o : option A) : World * (error + A) :=
  match o with
  | Some r => (w, inr r)
  | None => (w, inl RecordNotFound)
  end.

Definition db_First_Deployment (id : N) : M Deployment :=
  invoke (DBFirstDeployment id) (fun w => or_not_found w (first_deployment (deployments (db w)) id)).

Definition db_First_Project (id : N) : M project.Project :=
  invoke (DBFirstProject id) (fun w => or_not_found w (first_project (projects (db w)) id)).

Definition db_First_User (id : N) : M user.User :=
  invoke (DBFirstUser id) (fun w => or_not_found w (first_user (users (db w)) id)).

(** [db.Begin()]: the transaction works on its own copy of the rows. *)
Definition db_Begin : M DB :=
  invoke TxBegin (fun w => (w, inr (db w))).

(** [tx.Commit()]: the rows of the transaction become the committed rows. *)
Definition tx_Commit (tx : DB) : M unit :=
  invoke TxCommit (fun w => (set_db tx w, inr tt)).

(** [tx.Rollback()]: the copy is dropped. *)
Definition tx_Rollback : M unit :=
  invoke TxRollback (fun w => (w, inr tt)).

Definition with_state (st : DeploymentState) (t : Time) (r : Deployment) : Deployment :=
  {| deployment.ID := deployment.ID r;
     deployment.ProjectID := deployment.ProjectID r;
     deployment.UserID := deployment.UserID r;
     deployment.Prefix := deployment.Prefix r;
     deployment.Version := deployment.Version r;
     deployment.State := st;
     deployment.CreatedAt := deployment.CreatedAt r;
     deployment.DeployedAt :=
       if State_eqb st StateDeployed then Some t else deployment.DeployedAt r |}.

Definition set_deployments (rows : list Deployment) (x : DB) : DB :=
  {| deployments := rows; projects := projects x; domains := domains x; users := users x |}.

Definition set_projects (rows : list project.Project) (x : DB) : DB :=
  {| deployments := deployments x; projects := rows; domains := domains x; users := users x |}.

(** Modelled from the spec: the method [UpdateState] of the deployment
    model, which is not among the sources.  On the rows of the given
    transaction it sets the state of the deployment and, when the state is
    deployed, sets deployed_at to now; the struct in memory is refreshed
    with the row ([Work] reads [depl.DeployedAt] afterwards). *)
Definition Deployment_UpdateState (tx : DB) (d : Deployment) (st : DeploymentState)
  : M (DB * Deployment) :=
  invoke (TxUpdateState (deployment.ID d) st) (fun w =>
    (w, inr (set_deployments
               (map (fun r => if N.eqb (deployment.ID r) (deployment.ID d)
                              then with_state st (now w) r else r)
                    (deployments tx)) tx,
             with_state st (now w) d))).

Definition with_active_deployment (id : N) (p : project.Project) : project.Project :=
  {| project.ID := project.ID p;
     project.Name := project.Name p;
     project.UserID := project.UserID p;
     project.ActiveDeploymentID := Some id;
     project.LockedAt := project.LockedAt p;
     project.ForceHTTPS := project.ForceHTTPS p;
     project.SkipBuild := project.SkipBuild p;
     project.DefaultDomainEnabled := project.DefaultDomainEnabled p |}.

(** [tx.Model(project.Project{}).Where("id = ?", id).Update("active_deployment_id", &deplID)] *)
Definition tx_Update_active_deployment_id (tx : DB) (id deplID : N) : M DB :=
  invoke (TxUpdateProject id deplID) (fun w =>
    (w, inr (set_projects
               (map (fun p => if N.eqb (project.ID p) id
                              then with_active_deployment deplID p else p)
                    (projects tx)) tx))).

(** *** filetransfer.FileTransfer, as the object store implements it *)

Definition S3_Upload (region bucket key : string) (body : Body) (contentType acl : string)
  : M unit :=
  invoke (S3Upload region bucket key body contentType acl) (fun w =>
    (set_s3 (<[(region, bucket, key) :=
               {| obj_body := body; obj_contentType := contentType; obj_acl := acl |}]> (s3 w)) w,
     inr tt)).

Definition S3_Download (region bucket key : string) : M Body :=
  invoke (S3Download region bucket key) (fun w =>
    match s3 w !! (region, bucket, key) with
    | Some o => (w, inr (obj_body o))
    | None => (w, inl NoSuchKey)
    end).

(** *** io/ioutil, compress/gzip *)

Definition ioutil_TempFile (pattern : string) : M unit :=
  invoke (TempFile pattern) (fun w => (w, inr tt)).

Definition gzip_NewReader (f : Body) : M (list TarItem) :=
  match f with
  | GzipTar items => ret items
  | _ => fail ErrGzipHeader
  end.

(** *** pubsub, common *)

(** Modelled from the spec: [pubsub.NewMessageWithJSON], which is not among
    the sources, constructs the broadcast message for an exchange and a
    routing key with the JSON of its data, here [{"domains": [...]}]. *)
Definition pubsub_NewMessageWithJSON (exchange routeKey : string)
    (data : V1InvalidationMessageData) : M Message :=
  ret {| msg_exchange := exchange;
         msg_routeKey := routeKey;
         msg_body := JObject [("domains", JArray (map JString (Domains data)))] |}.

(** Modelled from the spec: [Message.Publish], which is not among the
    sources, emits the message to its exchange. *)
Definition Message_Publish (m : Message) : M unit :=
  invoke (MQPublish m) (fun w => (set_mq (mq w ++ [m]) w, inr tt)).

(** Modelled from the spec: [common.Track], which is not among the sources,
    hands the event to the analytics sink. *)
Definition common_Track (userID event : string) (props : TrackProps) : M unit :=
  invoke (Track userID event props) (fun w => (w, inr tt)).

(** ** The worker *)

Section Deployer.

Context (env : Env).

Let BucketRegion := s3client.BucketRegion env.
Let BucketName := s3client.BucketName env.

(** [proj.DefaultDomainName()], which the tests compare with
    [proj.Name + "." + shared.DefaultDomain]. *)
Definition DefaultDomainName (p : project.Project) : string :=
  project.Name p +:+ "." +:+ shared_DefaultDomain env.

Definition explicit_domain_names (rows : list domain.Domain) (project_id : N) : list string :=
  map domain.Name (List.filter (fun r => N.eqb (domain.ProjectID r) project_id) rows).

(** Modelled from the spec: the method [DomainNames] of the project model,
    which is not among the sources.  It queries the names currently bound
    to the project: the default domain, then the explicit Domains. *)
Definition Project_DomainNames (p : project.Project) : M (list string) :=
  invoke (DBDomainNames (project.ID p)) (fun w =>
    (w, inr (DefaultDomainName p
             :: explicit_domain_names (domains (db w)) (project.ID p)))).

(** The loop over the archive: [for { hdr, err := tr.Next() ... }]. *)
Fixpoint upload_webroot (webroot : string) (tr : list TarItem) : M unit :=
  match tr with
  | [] => ret tt
  | TarDamaged msg :: _ => fail (ErrTarHeader msg)
  | TarEntry hdr content :: rest =>
      if hdr_IsDir hdr then upload_webroot webroot rest
      else
        let fileName := path_Clean (hdr_Name hdr) in
        let remotePath := webroot +:+ "/" +:+ fileName in
        let contentType :=
          strip_params (mime_TypeByExtension env (filepath_Ext fileName)) in
        let* _ := S3_Upload BucketRegion BucketName remotePath (Bytes content)
                    contentType "public-read" in
        upload_webroot webroot rest
  end.

(** [json.Marshal] of the struct with [prefix] and [force_https,omitempty]. *)
Definition meta_json (prefixID : string) (forceHTTPS : bool) : JSON :=
  JObject (("prefix", JString prefixID)
           :: if forceHTTPS then [("force_https", JBool true)] else []).

(** The loop over the domains: [for _, domain := range domainNames]. *)
Fixpoint upload_meta (metaJson : JSON) (domainNames : list string) : M unit :=
  match domainNames with
  | [] => ret tt
  | domain :: rest =>
      let* _ := S3_Upload BucketRegion BucketName ("domains/" +:+ domain +:+ "/meta.json")
                  (Document metaJson) "application/json" "public-read" in
      upload_meta metaJson rest
  end.

(** [Work].  The scratch file that [ioutil.TempFile] creates is closed and
    removed by a deferred function, and the gzip reader is closed by
    another: they touch nothing that the world records and have no
    counterpart here.  The deferred [tx.Rollback()] has one. *)
Definition Work (data : Payload) : M unit :=
  let* d := json_Unmarshal data in
  let* _ := dbconn_DB in
  let* depl := db_First_Deployment (DeploymentID d) in
  if State_eqb (State depl) StateUploaded || State_eqb (State depl) StatePendingUpload
  then fail errUnexpectedState
  else
  let prefixID := PrefixID depl in
  let* proj := db_First_Project (deployment.ProjectID depl) in
  let* _ :=
    if negb (SkipWebrootUpload d) then
      if State_eqb (State depl) StateDeployed then fail errUnexpectedState
      else
      let bundlePath :=
        if UseRawBundle d
        then "deployments/" +:+ prefixID +:+ "/raw-bundle.tar.gz"
        else "deployments/" +:+ prefixID +:+ "/optimized-bundle.tar.gz" in
      let tmpFileName := prefixID +:+ "-optimized-bundle.tar.gz" in
      let* _ := ioutil_TempFile tmpFileName in
      let* f := S3_Download BucketRegion BucketName bundlePath in
      let* tr := gzip_NewReader f in
      let webroot := "deployments/" +:+ prefixID +:+ "/webroot" in
      upload_webroot webroot tr
    else ret tt in
  match project.LockedAt proj with
  | Some _ => fail ErrProjectLocked
  | None =>
  let metaJson := meta_json prefixID (project.ForceHTTPS proj) in
  let* domainNames := Project_DomainNames proj in
  let* _ := upload_meta metaJson domainNames in
  let* _ :=
    if negb (SkipInvalidation d) then
      let* m := pubsub_NewMessageWithJSON (exchanges_Edges env)
                  (exchanges_RouteV1Invalidation env)
                  {| Domains := domainNames |} in
      Message_Publish m
    else ret tt in
  let* tx := db_Begin in
  defer tx_Rollback (
    let* (tx, depl) := Deployment_UpdateState tx depl StateDeployed in
    let* tx := tx_Update_active_deployment_id tx (project.ID proj) (deployment.ID depl) in
    let* _ := tx_Commit tx in
    let* u := try (db_First_User (deployment.UserID depl)) in
    match u with
    | None => ret tt
    | Some u =>
        match DeployedAt depl with
        | None => panic
        | Some deployedAt =>
            let event := "Project Deployed" in
            let timeTaken := Time_Sub deployedAt (CreatedAt depl) in
            let props :=
              {| projectName := project.Name proj;
                 deploymentId := deployment.ID depl;
                 deploymentPrefix := Prefix depl;
                 deploymentVersion := Version depl;
                 timeTakenInSeconds := Z.quot timeTaken time_Second |} in
            let* _ := try (common_Track (strconv_Itoa (int_of_uint (user.ID u))) event props) in
            ret tt
        end
    end)
  end.

End Deployer.

(** ** Runs of the worker *)

Definition ok (c : Call) : Logged := {| call := c; result := None |}.
Definition failed (c : Call) (e : error) : Logged := {| call := c; result := Some e |}.

(** The world after a logged call: an upload that succeeded has stored its
    object, a publication that succeeded has delivered its message. *)
Definition after (w : World) (l : Logged) : World :=
  log (call l) (result l)
    match result l, call l with
    | None, S3Upload region bucket key body contentType acl =>
        set_s3 (<[(region, bucket, key) :=
                  {| obj_body := body; obj_contentType := contentType; obj_acl := acl |}]> (s3 w)) w
    | None, MQPublish m => set_mq (mq w ++ [m]) w
    | _, _ => w
    end.

Definition replay (tr : list Logged) (w : World) : World := fold_left after tr w.

(** The oracle's verdict on the next call. *)
Definition fault_at (w : World) (s : Service) : option string :=
  faults w (length (calls w)) s.

Definition trace_of (w w' : World) : list Logged := drop (length (calls w)) (calls w').

Definition unready (depl : Deployment) : bool :=
  State_eqb (State depl) StateUploaded || State_eqb (State depl) StatePendingUpload.

Section Runs.

Context (env : Env).

Let BucketRegion := s3client.BucketRegion env.
Let BucketName := s3client.BucketName env.

Definition bundlePath (d : DeployJobData) (depl : Deployment) : string :=
  if UseRawBundle d
  then "deployments/" +:+ PrefixID depl +:+ "/raw-bundle.tar.gz"
  else "deployments/" +:+ PrefixID depl +:+ "/optimized-bundle.tar.gz".

Definition webroot_of (depl : Deployment) : string :=
  "deployments/" +:+ PrefixID depl +:+ "/webroot".

Definition webroot_upload (webroot : string) (hdr : TarHeader) (content : string) : Call :=
  S3Upload BucketRegion BucketName (webroot +:+ "/" +:+ path_Clean (hdr_Name hdr))
    (Bytes content)
    (strip_params (mime_TypeByExtension env (filepath_Ext (path_Clean (hdr_Name hdr)))))
    "public-read".

Definition pointer_key (domain : string) : string := "domains/" +:+ domain +:+ "/meta.json".

Definition pointer_upload (metaJson : JSON) (domain : string) : Call :=
  S3Upload BucketRegion BucketName (pointer_key domain) (Document metaJson)
    "application/json" "public-read".

Definition bound_domain_names (x : DB) (p : project.Project) : list string :=
  DefaultDomainName env p :: explicit_domain_names (domains x) (project.ID p).

Definition invalidation (domainNames : list string) : Message :=
  {| msg_exchange := exchanges_Edges env;
     msg_routeKey := exchanges_RouteV1Invalidation env;
     msg_body := JObject [("domains", JArray (map JString domainNames))] |}.

(** The rows after the activation of [depl] for the project [proj]. *)
Definition activated (x : DB) (depl : Deployment) (proj : project.Project) (t : Time) : DB :=
  set_projects
    (map (fun p => if N.eqb (project.ID p) (project.ID proj)
                   then with_active_deployment (deployment.ID depl) p else p)
         (projects x))
    (set_deployments
       (map (fun r => if N.eqb (deployment.ID r) (deployment.ID depl)
                      then with_state StateDeployed t r else r)
            (deployments x)) x).

(** Loading the deployment and its project. *)
Inductive LoadRun (d : DeployJobData) (w : World)
  : list Logged -> Outcome (Deployment * project.Project) -> Prop :=
| load_open_fault msg :
    fault_at w Database = Some msg ->
    LoadRun d w [failed DBOpen (ErrService Database msg)] (Err (ErrService Database msg))
| load_deployment_fault msg :
    fault_at w Database = None ->
    fault_at (replay [ok DBOpen] w) Database = Some msg ->
    LoadRun d w [ok DBOpen; failed (DBFirstDeployment (DeploymentID d)) (ErrService Database msg)]
      (Err (ErrService Database msg))
| load_deployment_missing :
    first_deployment (deployments (db w)) (DeploymentID d) = None ->
    LoadRun d w [ok DBOpen; failed (DBFirstDeployment (DeploymentID d)) RecordNotFound]
      (Err RecordNotFound)
| load_unready depl :
    first_deployment (deployments (db w)) (DeploymentID d) = Some depl ->
    unready depl = true ->
    LoadRun d w [ok DBOpen; ok (DBFirstDeployment (DeploymentID d))] (Err errUnexpectedState)
| load_project_fault depl msg :
    first_deployment (deployments (db w)) (DeploymentID d) = Some depl ->
    unready depl = false ->
    fault_at (replay [ok DBOpen; ok (DBFirstDeployment (DeploymentID d))] w) Database = Some msg ->
    LoadRun d w [ok DBOpen; ok (DBFirstDeployment (DeploymentID d));
                 failed (DBFirstProject (deployment.ProjectID depl)) (ErrService Database msg)]
      (Err (ErrService Database msg))
| load_project_missing depl :
    first_deployment (deployments (db w)) (DeploymentID d) = Some depl ->
    unready depl = false ->
    first_project (projects (db w)) (deployment.ProjectID depl) = None ->
    LoadRun d w [ok DBOpen; ok (DBFirstDeployment (DeploymentID d));
                 failed (DBFirstProject (deployment.ProjectID depl)) RecordNotFound]
      (Err RecordNotFound)
| load_ok depl proj :
    fault_at w Database = None ->
    fault_at (replay [ok DBOpen] w) Database = None ->
    fault_at (replay [ok DBOpen; ok (DBFirstDeployment (DeploymentID d))] w) Database = None ->
    first_deployment (deployments (db w)) (DeploymentID d) = Some depl ->
    unready depl = false ->
    first_project (projects (db w)) (deployment.ProjectID depl) = Some proj ->
    LoadRun d w [ok DBOpen; ok (DBFirstDeployment (DeploymentID d));
                 ok (DBFirstProject (deployment.ProjectID depl))]
      (Ret (depl, proj)).


(** The loop over the archive. *)
Inductive UploadLoop (webroot : string)
  : list TarItem -> World -> list Logged -> Outcome unit -> Prop :=
| uploads_eof w :
    UploadLoop webroot [] w [] (Ret tt)
| uploads_damaged msg rest w :
    UploadLoop webroot (TarDamaged msg :: rest) w [] (Err (ErrTarHeader msg))
| uploads_dir hdr content rest w tr r :
    hdr_IsDir hdr = true ->
    UploadLoop webroot rest w tr r ->
    UploadLoop webroot (TarEntry hdr content :: rest) w tr r
| uploads_fault hdr content rest w msg :
    hdr_IsDir hdr = false ->
    fault_at w ObjectStore = Some msg ->
    UploadLoop webroot (TarEntry hdr content :: rest) w
      [failed (webroot_upload webroot hdr content) (ErrService ObjectStore msg)]
      (Err (ErrService ObjectStore msg))
| uploads_file hdr content rest w tr r :
    hdr_IsDir hdr = false ->
    fault_at w ObjectStore = None ->
    UploadLoop webroot rest (after w (ok (webroot_upload webroot hdr content))) tr r ->
    UploadLoop webroot (TarEntry hdr content :: rest) w
      (ok (webroot_upload webroot hdr content) :: tr) r.

Definition tmpFileName (depl : Deployment) : string :=
  PrefixID depl +:+ "-optimized-bundle.tar.gz".

Definition download (d : DeployJobData) (depl : Deployment) : Call :=
  S3Download BucketRegion BucketName (bundlePath d depl).

Definition bundle_at (d : DeployJobData) (depl : Deployment) (w : World) : option Object :=
  s3 w !! (BucketRegion, BucketName, bundlePath d depl).

(** The publication of the webroot. *)
Inductive WebrootRun (d : DeployJobData) (depl : Deployment) (w : World)
  : list Logged -> Outcome unit -> Prop :=
| webroot_skipped :
    SkipWebrootUpload d = true ->
    WebrootRun d depl w [] (Ret tt)
| webroot_deployed :
    SkipWebrootUpload d = false ->
    State depl = StateDeployed ->
    WebrootRun d depl w [] (Err errUnexpectedState)
| webroot_tempfile_fault msg :
    SkipWebrootUpload d = false ->
    State depl <> StateDeployed ->
    fault_at w FileSystem = Some msg ->
    WebrootRun d depl w [failed (TempFile (tmpFileName depl)) (ErrService FileSystem msg)]
      (Err (ErrService FileSystem msg))
| webroot_download_fault msg :
    SkipWebrootUpload d = false ->
    State depl <> StateDeployed ->
    fault_at (replay [ok (TempFile (tmpFileName depl))] w) ObjectStore = Some msg ->
    WebrootRun d depl w
      [ok (TempFile (tmpFileName depl));
       failed (download d depl) (ErrService ObjectStore msg)]
      (Err (ErrService ObjectStore msg))
| webroot_bundle_missing :
    SkipWebrootUpload d = false ->
    State depl <> StateDeployed ->
    bundle_at d depl w = None ->
    WebrootRun d depl w
      [ok (TempFile (tmpFileName depl)); failed (download d depl) NoSuchKey]
      (Err NoSuchKey)
| webroot_not_gzip o :
    SkipWebrootUpload d = false ->
    State depl <> StateDeployed ->
    bundle_at d depl w = Some o ->
    (forall items, obj_body o <> GzipTar items) ->
    WebrootRun d depl w
      [ok (TempFile (tmpFileName depl)); ok (download d depl)]
      (Err ErrGzipHeader)
| webroot_unpacked o items tr r :
    SkipWebrootUpload d = false ->
    State depl <> StateDeployed ->
    fault_at w FileSystem = None ->
    fault_at (replay [ok (TempFile (tmpFileName depl))] w) ObjectStore = None ->
    bundle_at d depl w = Some o ->
    obj_body o = GzipTar items ->
    UploadLoop (webroot_of depl) items
      (replay [ok (TempFile (tmpFileName depl)); ok (download d depl)] w) tr r ->
    WebrootRun d depl w
      (ok (TempFile (tmpFileName depl)) :: ok (download d depl) :: tr) r.

(** The loop over the domain names. *)
Inductive PointerLoop (metaJson : JSON)
  : list string -> World -> list Logged -> Outcome unit -> Prop :=
| pointers_done w :
    PointerLoop metaJson [] w [] (Ret tt)
| pointers_fault domain rest w msg :
    fault_at w ObjectStore = Some msg ->
    PointerLoop metaJson (domain :: rest) w
      [failed (pointer_upload metaJson domain) (ErrService ObjectStore msg)]
      (Err (ErrService ObjectStore msg))
| pointers_next domain rest w tr r :
    fault_at w ObjectStore = None ->
    PointerLoop metaJson rest (after w (ok (pointer_upload metaJson domain))) tr r ->
    PointerLoop metaJson (domain :: rest) w (ok (pointer_upload metaJson domain) :: tr) r.

Definition pointer_of (depl : Deployment) (proj : project.Project) : JSON :=
  meta_json (PrefixID depl) (project.ForceHTTPS proj).

(** The publication of the pointer documents. *)
Inductive MetaRun (depl : Deployment) (proj : project.Project) (w : World)
  : list Logged -> Outcome (list string) -> Prop :=
| meta_names_fault msg :
    fault_at w Database = Some msg ->
    MetaRun depl proj w
      [failed (DBDomainNames (project.ID proj)) (ErrService Database msg)]
      (Err (ErrService Database msg))
| meta_uploads_failed tr e :
    fault_at w Database = None ->
    PointerLoop (pointer_of depl proj) (bound_domain_names (db w) proj)
      (replay [ok (DBDomainNames (project.ID proj))] w) tr (Err e) ->
    MetaRun depl proj w (ok (DBDomainNames (project.ID proj)) :: tr) (Err e)
| meta_ok tr :
    fault_at w Database = None ->
    PointerLoop (pointer_of depl proj) (bound_domain_names (db w) proj)
      (replay [ok (DBDomainNames (project.ID proj))] w) tr (Ret tt) ->
    MetaRun depl proj w (ok (DBDomainNames (project.ID proj)) :: tr)
      (Ret (bound_domain_names (db w) proj)).

(** The invalidation broadcast. *)
Inductive InvalidationRun (d : DeployJobData) (domainNames : list string) (w : World)
  : list Logged -> Outcome unit -> Prop :=
| invalidation_skipped :
    SkipInvalidation d = true ->
    InvalidationRun d domainNames w [] (Ret tt)
| invalidation_fault msg :
    SkipInvalidation d = false ->
    fault_at w Broker = Some msg ->
    InvalidationRun d domainNames w
      [failed (MQPublish (invalidation domainNames)) (ErrService Broker msg)]
      (Err (ErrService Broker msg))
| invalidation_sent :
    SkipInvalidation d = false ->
    fault_at w Broker = None ->
    InvalidationRun d domainNames w [ok (MQPublish (invalidation domainNames))] (Ret tt).

Definition after_commit (l : Logged) : Prop :=
  match call l with
  | DBFirstUser _ | Track _ _ _ | TxRollback => True
  | _ => False
  end.

(** The transaction and what follows it; the flag tells whether the
    transaction was committed. *)
Inductive FinishRun (depl : Deployment) (proj : project.Project) (w : World)
  : list Logged -> bool -> Outcome unit -> Prop :=
| finish_begin_fault msg :
    fault_at w Database = Some msg ->
    FinishRun depl proj w [failed TxBegin (ErrService Database msg)] false
      (Err (ErrService Database msg))
| finish_update_state_fault msg rb :
    call rb = TxRollback ->
    fault_at (replay [ok TxBegin] w) Database = Some msg ->
    FinishRun depl proj w
      [ok TxBegin;
       failed (TxUpdateState (deployment.ID depl) StateDeployed) (ErrService Database msg);
       rb] false
      (Err (ErrService Database msg))
| finish_update_project_fault msg rb :
    call rb = TxRollback ->
    fault_at (replay [ok TxBegin; ok (TxUpdateState (deployment.ID depl) StateDeployed)] w)
      Database = Some msg ->
    FinishRun depl proj w
      [ok TxBegin;
       ok (TxUpdateState (deployment.ID depl) StateDeployed);
       failed (TxUpdateProject (project.ID proj) (deployment.ID depl))
         (ErrService Database msg);
       rb] false
      (Err (ErrService Database msg))
| finish_commit_fault msg rb :
    call rb = TxRollback ->
    fault_at (replay [ok TxBegin; ok (TxUpdateState (deployment.ID depl) StateDeployed);
                      ok (TxUpdateProject (project.ID proj) (deployment.ID depl))] w)
      Database = Some msg ->
    FinishRun depl proj w
      [ok TxBegin;
       ok (TxUpdateState (deployment.ID depl) StateDeployed);
       ok (TxUpdateProject (project.ID proj) (deployment.ID depl));
       failed TxCommit (ErrService Database msg);
       rb] false
      (Err (ErrService Database msg))
| finish_committed tail :
    Forall after_commit tail ->
    FinishRun depl proj w
      ([ok TxBegin;
        ok (TxUpdateState (deployment.ID depl) StateDeployed);
        ok (TxUpdateProject (project.ID proj) (deployment.ID depl));
        ok TxCommit] ++ tail) true
      (Ret tt).

Definition commit (committed : bool) (depl : Deployment) (proj : project.Project)
    (w : World) : World :=
  if committed then set_db (activated (db w) depl proj (now w)) w else w.

(** A run of [Work] on a job: the world it leaves and what it returns. *)
Inductive WorkRun (d : DeployJobData) (w : World) : World -> Outcome unit -> Prop :=
| work_load_failed tr e :
    LoadRun d w tr (Err e) ->
    WorkRun d w (replay tr w) (Err e)
| work_webroot_failed depl proj tr1 tr2 e :
    LoadRun d w tr1 (Ret (depl, proj)) ->
    WebrootRun d depl (replay tr1 w) tr2 (Err e) ->
    WorkRun d w (replay (tr1 ++ tr2) w) (Err e)
| work_locked depl proj tr1 tr2 t :
    LoadRun d w tr1 (Ret (depl, proj)) ->
    WebrootRun d depl (replay tr1 w) tr2 (Ret tt) ->
    project.LockedAt proj = Some t ->
    WorkRun d w (replay (tr1 ++ tr2) w) (Err ErrProjectLocked)
| work_meta_failed depl proj tr1 tr2 tr3 e :
    LoadRun d w tr1 (Ret (depl, proj)) ->
    WebrootRun d depl (replay tr1 w) tr2 (Ret tt) ->
    project.LockedAt proj = None ->
    MetaRun depl proj (replay (tr1 ++ tr2) w) tr3 (Err e) ->
    WorkRun d w (replay (tr1 ++ tr2 ++ tr3) w) (Err e)
| work_invalidation_failed depl proj names tr1 tr2 tr3 tr4 e :
    LoadRun d w tr1 (Ret (depl, proj)) ->
    WebrootRun d depl (replay tr1 w) tr2 (Ret tt) ->
    project.LockedAt proj = None ->
    MetaRun depl proj (replay (tr1 ++ tr2) w) tr3 (Ret names) ->
    InvalidationRun d names (replay (tr1 ++ tr2 ++ tr3) w) tr4 (Err e) ->
    WorkRun d w (replay (tr1 ++ tr2 ++ tr3 ++ tr4) w) (Err e)
| work_finished depl proj names tr1 tr2 tr3 tr4 tr5 committed r :
    LoadRun d w tr1 (Ret (depl, proj)) ->
    WebrootRun d depl (replay tr1 w) tr2 (Ret tt) ->
    project.LockedAt proj = None ->
    MetaRun depl proj (replay (tr1 ++ tr2) w) tr3 (Ret names) ->
    InvalidationRun d names (replay (tr1 ++ tr2 ++ tr3) w) tr4 (Ret tt) ->
    FinishRun depl proj (replay (tr1 ++ tr2 ++ tr3 ++ tr4) w) tr5 committed r ->
    WorkRun d w
      (replay tr5 (commit committed depl proj (replay (tr1 ++ tr2 ++ tr3 ++ tr4) w))) r.


(** The parts of [Work], in the order in which it runs them. *)
Definition load (d : DeployJobData) : M (Deployment * project.Project) :=
  let* _ := dbconn_DB in
  let* depl := db_First_Deployment (DeploymentID d) in
  if unready depl then fail errUnexpectedState
  else
    let* proj := db_First_Project (deployment.ProjectID depl) in
    ret (depl, proj).

Definition publish_webroot (d : DeployJobData) (depl : Deployment) : M unit :=
  if negb (SkipWebrootUpload d) then
    if State_eqb (State depl) StateDeployed then fail errUnexpectedState
    else
      let* _ := ioutil_TempFile (tmpFileName depl) in
      let* f := S3_Download BucketRegion BucketName (bundlePath d depl) in
      let* tr := gzip_NewReader f in
      upload_webroot env (webroot_of depl) tr
  else ret tt.

Definition publish_meta (depl : Deployment) (proj : project.Project) : M (list string) :=
  let* domainNames := Project_DomainNames env proj in
  let* _ := upload_meta env (pointer_of depl proj) domainNames in
  ret domainNames.

Definition invalidate (d : DeployJobData) (domainNames : list string) : M unit :=
  if negb (SkipInvalidation d) then
    let* m := pubsub_NewMessageWithJSON (exchanges_Edges env)
                (exchanges_RouteV1Invalidation env) {| Domains := domainNames |} in
    Message_Publish m
  else ret tt.

Definition track (depl : Deployment) (proj : project.Project) : M unit :=
  let* u := try (db_First_User (deployment.UserID depl)) in
  match u with
  | None => ret tt
  | Some u =>
      match DeployedAt depl with
      | None => panic
      | Some deployedAt =>
          let* _ := try (common_Track (strconv_Itoa (int_of_uint (user.ID u)))
                           "Project Deployed"
                           {| projectName := project.Name proj;
                              deploymentId := deployment.ID depl;
                              deploymentPrefix := Prefix depl;
                              deploymentVersion := Version depl;
                              timeTakenInSeconds :=
                                Z.quot (Time_Sub deployedAt (CreatedAt depl)) time_Second |}) in
          ret tt
      end
  end.

Definition finish (depl : Deployment) (proj : project.Project) : M unit :=
  let* tx := db_Begin in
  defer tx_Rollback (
    let* (tx, depl) := Deployment_UpdateState tx depl StateDeployed in
    let* tx := tx_Update_active_deployment_id tx (project.ID proj) (deployment.ID depl) in
    let* _ := tx_Commit tx in
    track depl proj).

Definition phases (d : DeployJobData) : M unit :=
  let* (depl, proj) := load d in
  let* _ := publish_webroot d depl in
  match project.LockedAt proj with
  | Some _ => fail ErrProjectLocked
  | None =>
      let* domainNames := publish_meta depl proj in
      let* _ := invalidate d domainNames in
      finish depl proj
  end.

End Runs.

(** ** What a job leaves behind *)

Definition world_after (env : Env) (d : DeployJobData) (w : World) : World :=
  fst (Work env (Decoded d) w).

Definition returned (env : Env) (d : DeployJobData) (w : World) : Outcome unit :=
  snd (Work env (Decoded d) w).

(** The calls of the run of a job, in order. *)
Definition trace (env : Env) (d : DeployJobData) (w : World) : list Logged :=
  trace_of w (world_after env d w).

Definition database_up (w : World) : Prop := forall n, faults w n Database = None.

(** The deployment and the project that [Work] loads for the job. *)
Definition loaded (d : DeployJobData) (w : World)
    (depl : Deployment) (proj : project.Project) : Prop :=
  first_deployment (deployments (db w)) (DeploymentID d) = Some depl
  /\ unready depl = false
  /\ first_project (projects (db w)) (deployment.ProjectID depl) = Some proj.

(** *** The calls of a run *)

Section Calls.

Context (env : Env) (d : DeployJobData) (w : World).

Definition WebrootCall (depl : Deployment) (c : Call) : Prop :=
  c = TempFile (tmpFileName depl)
  \/ c = download env d depl
  \/ exists hdr content, c = webroot_upload env (webroot_of depl) hdr content.

Definition FinishCall (c : Call) : Prop :=
  match c with
  | TxBegin | TxUpdateState _ _ | TxUpdateProject _ _ | TxCommit | TxRollback
  | DBFirstUser _ | Track _ _ _ => True
  | _ => False
  end.

(** The calls [Work] can make for the job [d] from the world [w], each
    with what must hold for it to be made. *)
Inductive WorkCall : Call -> Prop :=
| call_open :
    WorkCall DBOpen
| call_first_deployment :
    WorkCall (DBFirstDeployment (DeploymentID d))
| call_first_project depl :
    first_deployment (deployments (db w)) (DeploymentID d) = Some depl ->
    unready depl = false ->
    WorkCall (DBFirstProject (deployment.ProjectID depl))
| call_webroot depl proj c :
    loaded d w depl proj ->
    SkipWebrootUpload d = false ->
    State depl <> StateDeployed ->
    WebrootCall depl c ->
    WorkCall c
| call_domain_names depl proj :
    loaded d w depl proj ->
    project.LockedAt proj = None ->
    WorkCall (DBDomainNames (project.ID proj))
| call_pointer depl proj domain :
    loaded d w depl proj ->
    project.LockedAt proj = None ->
    domain ∈ bound_domain_names env (db w) proj ->
    WorkCall (pointer_upload env (pointer_of depl proj) domain)
| call_publish depl proj :
    loaded d w depl proj ->
    project.LockedAt proj = None ->
    SkipInvalidation d = false ->
    WorkCall (MQPublish (invalidation env (bound_domain_names env (db w) proj)))
| call_finish depl proj c :
    loaded d w depl proj ->
    project.LockedAt proj = None ->
    FinishCall c ->
    WorkCall c.

End Calls.

(** *** Kinds of calls, and what the calls have stored and delivered *)

Definition is_publish (c : Call) : bool :=
  match c with MQPublish _ => true | _ => false end.

Definition is_upload (c : Call) : bool :=
  match c with S3Upload _ _ _ _ _ _ => true | _ => false end.

Definition is_download (c : Call) : bool :=
  match c with S3Download _ _ _ => true | _ => false end.

(** What a logged call has stored, and where. *)
Definition stores (l : Logged) : option (string * string * string * Object) :=
  match result l, call l with
  | None, S3Upload region bucket key body contentType acl =>
      Some (region, bucket, key,
            {| obj_body := body; obj_contentType := contentType; obj_acl := acl |})
  | _, _ => None
  end.

(** The pointer document of a domain, as the object store holds it. *)
Definition pointer_at (env : Env) (w : World) (domain : string) : option Object :=
  s3 w !! (s3client.BucketRegion env, s3client.BucketName env, pointer_key domain).

Definition pointer_object (depl : Deployment) (proj : project.Project) : Object :=
  {| obj_body := Document (pointer_of depl proj);
     obj_contentType := "application/json";
     obj_acl := "public-read" |}.

(** *** Runs in which no collaborator fails *)

Definition reliable (w : World) : Prop := forall n s, faults w n s = None.

(** The regular files of an archive, in order: what is not a directory. *)
Definition regular_files (items : list TarItem) : list (TarHeader * string) :=
  flat_map (fun item =>
              match item with
              | TarEntry hdr content => if hdr_IsDir hdr then [] else [(hdr, content)]
              | TarDamaged _ => []
              end) items.

Definition intact (items : list TarItem) : Prop :=
  Forall (fun item => forall msg, item <> TarDamaged msg) items.

Definition webroot_uploads (env : Env) (depl : Deployment) (items : list TarItem)
  : list Logged :=
  map (fun f => ok (webroot_upload env (webroot_of depl) (fst f) (snd f)))
    (regular_files items).

Definition pointer_uploads (env : Env) (depl : Deployment) (proj : project.Project)
    (names : list string) : list Logged :=
  map (fun domain => ok (pointer_upload env (pointer_of depl proj) domain)) names.

Definition load_calls (d : DeployJobData) (depl : Deployment) : list Logged :=
  [ok DBOpen; ok (DBFirstDeployment (DeploymentID d));
   ok (DBFirstProject (deployment.ProjectID depl))].

Definition bundle_calls (env : Env) (d : DeployJobData) (depl : Deployment) : list Logged :=
  [ok (TempFile (tmpFileName depl)); ok (download env d depl)].

Definition reads_deployment (c : Call) : bool :=
  match c with DBFirstDeployment _ => true | _ => false end.

(** The broadcasts that the calls of a run have delivered. *)
Definition published (tr : list Logged) : list Message :=
  flat_map (fun l => match result l, call l with
                     | None, MQPublish m => [m]
                     | _, _ => []
                     end) tr.

Definition tx_calls (depl : Deployment) (proj : project.Project) : list Logged :=
  [ok TxBegin;
   ok (TxUpdateState (deployment.ID depl) StateDeployed);
   ok (TxUpdateProject (project.ID proj) (deployment.ID depl));
   ok TxCommit].

Definition invalidation_calls (env : Env) (d : DeployJobData) (names : list string)
  : list Logged :=
  if SkipInvalidation d then [] else [ok (MQPublish (invalidation env names))].

(** ** Scenarios *)

Definition deployment42 (st : DeploymentState) : Deployment :=
  {| deployment.ID := 42;
     deployment.ProjectID := 7;
     deployment.UserID := 1;
     deployment.Prefix := "ab12";
     deployment.Version := 3;
     deployment.State := st;
     deployment.CreatedAt := 1000000000;
     deployment.DeployedAt := None |}.

Definition project_foo (lockedAt : option Time) : project.Project :=
  {| project.ID := 7;
     project.Name := "foo";
     project.UserID := 1;
     project.ActiveDeploymentID := None;
     project.LockedAt := lockedAt;
     project.ForceHTTPS := false;
     project.SkipBuild := false;
     project.DefaultDomainEnabled := true |}.

Definition index_html : TarItem :=
  TarEntry {| hdr_Name := "index.html"; hdr_IsDir := false |} "<html></html>".

Definition raw_bundle : Object :=
  {| obj_body := GzipTar [index_html];
     obj_contentType := "application/octet-stream";
     obj_acl := "private" |}.

Definition never : nat -> Service -> option string := fun _ _ => None.

(** Deployment 42 with prefix "ab12" of the project "foo", its raw bundle
    in the object store, and nothing logged or broadcast yet. *)
Definition scenario (env : Env) (st : DeploymentState) (lockedAt : option Time)
    (doms : list domain.Domain) (oracle : nat -> Service -> option string) : World :=
  {| db := {| deployments := [deployment42 st];
              projects := [project_foo lockedAt];
              domains := doms;
              users := [{| user.ID := 1; user.Email := "dev@example.com";
                           user.Name := "Dev"; user.Organization := "" |}] |};
     s3 := {[ (s3client.BucketRegion env, s3client.BucketName env,
               "deployments/ab12-42/raw-bundle.tar.gz") := raw_bundle ]};
     mq := [];
     calls := [];
     now := 5000000000;
     faults := oracle |}.

Definition jobA : DeployJobData :=
  {| DeploymentID := 42;
     SkipWebrootUpload := false;
     SkipInvalidation := false;
     UseRawBundle := true |}.

Definition scenarioA (env : Env) : World := scenario env StatePendingDeploy None [] never.

(** An environment for the examples: the default bucket, the default
    domain suffix of the API ([proj.Name + ".rise.cloud"]). *)
Definition local_env : Env :=
  {| S3_BUCKET_REGION := "";
     S3_BUCKET_NAME := "";
     shared_DefaultDomain := "rise.cloud";
     exchanges_Edges := "edges";
     exchanges_RouteV1Invalidation := "v1.invalidation";
     mime_TypeByExtension :=
       fun ext => if String.eqb ext ".html" then "text/html; charset=utf-8" else "" |}.

(** Scenario B: as scenario A, with the project locked. *)
Definition scenarioB : World := scenario local_env StatePendingDeploy (Some 4000000000) [] never.

(** Scenario C: the deployment is still in state uploaded. *)
Definition scenarioC : World := scenario local_env StateUploaded None [] never.

(** The deployment is already deployed. *)
Definition scenario_deployed : World := scenario local_env StateDeployed None [] never.

Definition two_domains : list domain.Domain :=
  [{| domain.ID := 1; domain.ProjectID := 7; domain.Name := "www.foo.com" |};
   {| domain.ID := 2; domain.ProjectID := 8; domain.Name := "bar.org" |};
   {| domain.ID := 3; domain.ProjectID := 7; domain.Name := "foo.org" |}].

(** The project has two explicit domains besides its default domain. *)
Definition scenario_domains : World :=
  scenario local_env StatePendingDeploy None two_domains never.



Definition job_skipping : DeployJobData :=
  {| DeploymentID := 42;
     SkipWebrootUpload := true;
     SkipInvalidation := true;
     UseRawBundle := false |}.

(** ** The claims on the state check and on the lock, as stated *)

(** The files of a webroot are stored under [deployments/], the pointer
    documents under [domains/]. *)
Definition is_webroot_upload (c : Call) : bool :=
  match c with
  | S3Upload _ _ key _ _ _ => String.prefix "deployments/" key
  | _ => false
  end.

Definition is_pointer_upload (c : Call) : bool :=
  match c with
  | S3Upload _ _ key _ _ _ => String.prefix "domains/" key
  | _ => false
  end.

(** Claim C4 as the spec states it, in what it says of the pointer
    documents: between the upload of a file of the webroot and a later
    upload of a pointer document, the run reads the Deployment again. *)
Definition rereads_state_before_pointers (tr : list Logged) : Prop :=
  forall pre l mid l' post,
    tr = pre ++ l :: mid ++ l' :: post ->
    is_webroot_upload (call l) = true ->
    is_pointer_upload (call l') = true ->
    Exists (fun x => reads_deployment (call x) = true) mid.





(** * Further models: the start of the process, the API models, the middleware *)

(** ** What a run loads and uploads *)

(** The job cannot be loaded: its payload does not decode, or it names a
    deployment that the store does not hold, or one whose project the
    store does not hold. *)
Definition unloadable (data : Payload) (w : World) : Prop :=
  match data with
  | Malformed _ => True
  | Decoded d =>
      first_deployment (deployments (db w)) (DeploymentID d) = None
      \/ exists depl,
           first_deployment (deployments (db w)) (DeploymentID d) = Some depl
           /\ unready depl = false
           /\ first_project (projects (db w)) (deployment.ProjectID depl) = None
  end.

Fixpoint has_semicolon (s : string) : bool :=
  match s with
  | EmptyString => false
  | String c rest => Ascii.eqb c semicolon || has_semicolon rest
  end.

(** The uploads of a run: a regular file of the bundle that the run has
    downloaded, or the pointer document of a domain bound to the project. *)
Definition upload_of_the_job (env : Env) (d : DeployJobData) (w : World) (c : Call) : Prop :=
  exists depl proj,
    loaded d w depl proj
    /\ ((SkipWebrootUpload d = false
         /\ State depl <> StateDeployed
         /\ exists o items hdr content,
              bundle_at env d depl w = Some o
              /\ obj_body o = GzipTar items
              /\ TarEntry hdr content ∈ items
              /\ hdr_IsDir hdr = false
              /\ c = S3Upload (s3client.BucketRegion env) (s3client.BucketName env)
                       ("deployments/" +:+ PrefixID depl +:+ "/webroot/"
                        +:+ path_Clean (hdr_Name hdr))
                       (Bytes content)
                       (strip_params
                          (mime_TypeByExtension env (filepath_Ext (path_Clean (hdr_Name hdr)))))
                       "public-read")
        \/ (project.LockedAt proj = None
            /\ exists domain,
                 domain ∈ bound_domain_names env (db w) proj
                 /\ c = S3Upload (s3client.BucketRegion env) (s3client.BucketName env)
                          ("domains/" +:+ domain +:+ "/meta.json")
                          (Document (meta_json (PrefixID depl) (project.ForceHTTPS proj)))
                          "application/json" "public-read")).

(** ** The order of the calls *)

(** The place of a call in the pipeline of [Work]: loading, fetching the
    bundle, the files of the webroot, the domain names, the pointer
    documents, the broadcast, the transaction, and what follows it. *)
Definition phase (c : Call) : nat :=
  match c with
  | DBOpen | DBFirstDeployment _ | DBFirstProject _ => 0
  | TempFile _ | S3Download _ _ _ => 1
  | S3Upload _ _ key _ _ _ => if String.prefix "domains/" key then 4 else 2
  | DBDomainNames _ => 3
  | MQPublish _ => 5
  | TxBegin | TxUpdateState _ _ | TxUpdateProject _ _ | TxCommit => 6
  | DBFirstUser _ | Track _ _ _ | TxRollback => 7
  end%nat.

Definition in_order (tr : list Logged) : Prop :=
  forall i j l l',
    (i < j)%nat -> tr !! i = Some l -> tr !! j = Some l' ->
    (phase (call l) <= phase (call l'))%nat.

Definition between (a b : nat) (tr : list Logged) : Prop :=
  Forall (fun l => (a <= phase (call l) <= b)%nat) tr.

(** ** The shape of a cleaned path and of an extension *)

(** An element that [path.Clean] keeps as it is: not empty, not ".", not
    "..", and without a slash. *)
Definition plain (e : string) : Prop :=
  e <> "" /\ e <> "." /\ e <> ".." /\ has_slash e = false.

(** What [path.Clean] writes for the elements it keeps. *)
Definition render (rooted : bool) (es : list string) : string :=
  if rooted then "/" +:+ join_slash es
  else match es with
       | [] => "."
       | _ => join_slash es
       end.

Definition is_rooted (p : string) : bool :=
  match p with
  | String c _ => Ascii.eqb c slash
  | EmptyString => false
  end.

(** The invariant of the scan: the elements written so far, last one
    first, are plain ones over ".." ones, and a rooted path has no "..". *)
Definition scanned (rooted : bool) (out : list string) : Prop :=
  exists names dots,
    out = names ++ dots
    /\ Forall plain names
    /\ Forall (fun e => e = "..") dots
    /\ (rooted = true -> dots = []).

Fixpoint has_dot (s : string) : bool :=
  match s with
  | EmptyString => false
  | String c rest => Ascii.eqb c dot || has_dot rest
  end.

(** The last element of a path: what follows its last slash. *)
Fixpoint last_element (p : string) : string :=
  match p with
  | EmptyString => ""
  | String c rest =>
      if has_slash rest then last_element rest
      else if Ascii.eqb c slash then rest else p
  end.

(** ** The start of the process (deployer.init)  *)

Module os.

(** [os.Getenv]: the value of the variable, empty when it is not set. *)
Definition Getenv (environ : gmap string string) (key : string) : string :=
  default "" (environ !! key).

Definition Setenv (environ : gmap string string) (key value : string) : gmap string string :=
  <[key := value]> environ.

End os.

(** How [init] leaves the process: [log.Fatal] ends it, else the package
    is initialised with the environment as [init] has left it. *)
Inductive Startup :=
| Fatal (msg : string)
| Started (environ : gmap string string).

(** [init] of package deployer; [mimetypes.Register()], its last
    statement, fills the MIME table and reads no variable. *)
Definition init (environ : gmap string string) : Startup :=
  let riseEnv := os.Getenv environ "RISE_ENV" in
  let '(riseEnv, environ) :=
    if String.eqb riseEnv ""
    then ("development", os.Setenv environ "RISE_ENV" "development")
    else (riseEnv, environ) in
  if negb (String.eqb riseEnv "test")
     && (String.eqb (os.Getenv environ "AWS_ACCESS_KEY_ID") ""
         || String.eqb (os.Getenv environ "AWS_SECRET_ACCESS_KEY") "")
  then Fatal "AWS_ACCESS_KEY_ID and AWS_SECRET_ACCESS_KEY environment variables are required!"
  else Started environ.

(** ** regexp: the patterns of package user *)

Module regexp.

(** The syntax of a pattern in the terms of [regexp/syntax]. *)
Inductive Regexp :=
| NoMatch
| EmptyMatch
| CharClass (class : ascii -> bool)
| Concat (r1 r2 : Regexp)
| Alternate (r1 r2 : Regexp)
| Star (r : Regexp)
| Plus (r : Regexp).

(** Does the pattern match the empty string? *)
Fixpoint nullable (r : Regexp) : bool :=
  match r with
  | NoMatch => false
  | EmptyMatch => true
  | CharClass _ => false
  | Concat r1 r2 => nullable r1 && nullable r2
  | Alternate r1 r2 => nullable r1 || nullable r2
  | Star _ => true
  | Plus r => nullable r
  end.

(** What is left of the pattern after the character [c]. *)
Fixpoint deriv (c : ascii) (r : Regexp) : Regexp :=
  match r with
  | NoMatch => NoMatch
  | EmptyMatch => NoMatch
  | CharClass class => if class c then EmptyMatch else NoMatch
  | Concat r1 r2 =>
      Alternate (Concat (deriv c r1) r2) (if nullable r1 then deriv c r2 else NoMatch)
  | Alternate r1 r2 => Alternate (deriv c r1) (deriv c r2)
  | Star r => Concat (deriv c r) (Star r)
  | Plus r => Concat (deriv c r) (Star r)
  end.

(** [MatchString] for a pattern between [\A] and [\z]: the pattern matches
    the string from its first to its last character. *)
Fixpoint MatchString (r : Regexp) (s : string) : bool :=
  match s with
  | EmptyString => nullable r
  | String c rest => MatchString (deriv c r) rest
  end.

End regexp.

(** [\s] of a Go pattern: [\t\n\f\r ]. *)
Definition is_space (c : ascii) : bool :=
  match N_of_ascii c with
  | 9%N | 10%N | 12%N | 13%N | 32%N => true
  | _ => false
  end.

(** The class [[^@\s]]. *)
Definition not_at_or_space (c : ascii) : bool :=
  negb (Ascii.eqb c "@"%char || is_space c).

Definition is_char (x c : ascii) : bool := Ascii.eqb c x.

(** ** Package user (models/user) *)

Module usermodel.

(** [emailRe]: [\A[^@\s]+@([^@\s]+\.)+[^@\s]+\z].  A string is matched
    byte by byte: the class holds every byte of a character outside
    ASCII, and what separates the classes are characters of ASCII. *)
Definition emailRe : regexp.Regexp :=
  regexp.Concat (regexp.Plus (regexp.CharClass not_at_or_space))
    (regexp.Concat (regexp.CharClass (is_char "@"))
       (regexp.Concat
          (regexp.Plus
             (regexp.Concat (regexp.Plus (regexp.CharClass not_at_or_space))
                (regexp.CharClass (is_char "."))))
          (regexp.Plus (regexp.CharClass not_at_or_space)))).

(** The struct [User] with the fields of [gorm.Model]; Password is no
    column ([sql:"-"]). *)
Record User := {
  ID : N;
  CreatedAt : Time;
  UpdatedAt : Time;
  DeletedAt : option Time;
  Email : string;
  Password : string;
  Name : string;
  Organization : string
}.

(** [AsJSON]: the struct that is converted to JSON. *)
Definition AsJSON (u : User) : JSON :=
  JObject [("email", JString (Email u));
           ("name", JString (Name u));
           ("organization", JString (Organization u))].

(** The map that [Validate] fills. *)
Definition validation_errors (u : User) : gmap string string :=
  let errors : gmap string string := ∅ in
  let errors :=
    if String.eqb (Password u) "" then <["password" := "is required"]> errors
    else if (String.length (Password u) <? 6)%nat
    then <["password" := "is too short (min. 6 characters)"]> errors
    else if (72 <? String.length (Password u))%nat
    then <["password" := "is too long (max. 72 characters)"]> errors
    else errors in
  if String.eqb (Email u) "" then <["email" := "is required"]> errors
  else if (String.length (Email u) <? 5)%nat || negb (regexp.MatchString emailRe (Email u))
  then <["email" := "is invalid"]> errors
  else errors.

(** [Validate]: the map of field to error, nil when the user is valid. *)
Definition Validate (u : User) : option (gmap string string) :=
  let errors := validation_errors u in
  if (size errors =? 0)%nat then None else Some errors.

End usermodel.

(** Every character of the string is neither an at sign nor white space. *)
Fixpoint atoms (s : string) : bool :=
  match s with
  | EmptyString => true
  | String c rest => not_at_or_space c && atoms rest
  end.

(** An address that [emailRe] matches: a local part, an at sign, and a
    domain with a dot inside; no part is empty or holds an at sign or
    white space. *)
Definition address (s : string) : Prop :=
  exists l x y,
    s = l +:+ "@" +:+ x +:+ "." +:+ y
    /\ l <> "" /\ x <> "" /\ y <> ""
    /\ atoms l = true /\ atoms x = true /\ atoms y = true.

(** The strings that a pattern denotes. *)
Inductive lang : regexp.Regexp -> string -> Prop :=
| lang_empty : lang regexp.EmptyMatch ""
| lang_class class c : class c = true -> lang (regexp.CharClass class) (String c "")
| lang_concat r1 r2 s1 s2 :
    lang r1 s1 -> lang r2 s2 -> lang (regexp.Concat r1 r2) (s1 +:+ s2)
| lang_alt_l r1 r2 s : lang r1 s -> lang (regexp.Alternate r1 r2) s
| lang_alt_r r1 r2 s : lang r2 s -> lang (regexp.Alternate r1 r2) s
| lang_star_nil r : lang (regexp.Star r) ""
| lang_star_cons r s1 s2 :
    lang r s1 -> lang (regexp.Star r) s2 -> lang (regexp.Star r) (s1 +:+ s2)
| lang_plus r s1 s2 :
    lang r s1 -> lang (regexp.Star r) s2 -> lang (regexp.Plus r) (s1 +:+ s2).

(** ** encoding/base64, the standard encoding with padding *)

Module base64.

Definition encodeStd : string :=
  "ABCDEFGHIJKLMNOPQRSTUVWXYZabcdefghijklmnopqrstuvwxyz0123456789+/".

Definition StdPadding : ascii := "="%char.

(** A byte as a number, and [byte(v)]: the low eight bits of a number. *)
Definition uint (c : ascii) : Z := Z.of_N (N_of_ascii c).

Definition byte (v : Z) : ascii := ascii_of_N (Z.to_N (Z.land v 255)).

(** [enc.encode[v]] *)
Definition encode (v : Z) : ascii :=
  match String.get (Z.to_nat v) encodeStd with
  | Some c => c
  | None => StdPadding
  end.

Fixpoint index_from (i : Z) (c : ascii) (alphabet : string) : option Z :=
  match alphabet with
  | EmptyString => None
  | String a rest => if Ascii.eqb a c then Some i else index_from (i + 1) c rest
  end.

(** [enc.decodeMap[c]], [None] where the map holds 0xFF. *)
Definition decodeMap (c : ascii) : option Z := index_from 0 c encodeStd.

(** [EncodeToString]: three bytes give four characters; one or two bytes
    left over give two or three characters and padding. *)
Fixpoint EncodeToString (src : string) : string :=
  match src with
  | EmptyString => ""
  | String a EmptyString =>
      let val := Z.shiftl (uint a) 16 in
      String (encode (Z.land (Z.shiftr val 18) 63))
        (String (encode (Z.land (Z.shiftr val 12) 63))
           (String StdPadding (String StdPadding "")))
  | String a (String b EmptyString) =>
      let val := Z.lor (Z.shiftl (uint a) 16) (Z.shiftl (uint b) 8) in
      String (encode (Z.land (Z.shiftr val 18) 63))
        (String (encode (Z.land (Z.shiftr val 12) 63))
           (String (encode (Z.land (Z.shiftr val 6) 63))
              (String StdPadding "")))
  | String a (String b (String c rest)) =>
      let val := Z.lor (Z.lor (Z.shiftl (uint a) 16) (Z.shiftl (uint b) 8)) (uint c) in
      String (encode (Z.land (Z.shiftr val 18) 63))
        (String (encode (Z.land (Z.shiftr val 12) 63))
           (String (encode (Z.land (Z.shiftr val 6) 63))
              (String (encode (Z.land val 63)) (EncodeToString rest))))
  end.

(** Four characters of the alphabet give three bytes. *)
Definition quantum (c0 c1 c2 c3 : ascii) : option string :=
  match decodeMap c0, decodeMap c1, decodeMap c2, decodeMap c3 with
  | Some v0, Some v1, Some v2, Some v3 =>
      let val := Z.lor (Z.lor (Z.lor (Z.shiftl v0 18) (Z.shiftl v1 12)) (Z.shiftl v2 6)) v3 in
      Some (String (byte (Z.shiftr val 16))
              (String (byte (Z.shiftr val 8)) (String (byte val) "")))
  | _, _, _, _ => None
  end.

(** The last four characters may end in padding. *)
Definition last_quantum (c0 c1 c2 c3 : ascii) : option string :=
  if Ascii.eqb c3 StdPadding then
    if Ascii.eqb c2 StdPadding then
      match decodeMap c0, decodeMap c1 with
      | Some v0, Some v1 =>
          let val := Z.lor (Z.shiftl v0 18) (Z.shiftl v1 12) in
          Some (String (byte (Z.shiftr val 16)) "")
      | _, _ => None
      end
    else
      match decodeMap c0, decodeMap c1, decodeMap c2 with
      | Some v0, Some v1, Some v2 =>
          let val := Z.lor (Z.lor (Z.shiftl v0 18) (Z.shiftl v1 12)) (Z.shiftl v2 6) in
          Some (String (byte (Z.shiftr val 16)) (String (byte (Z.shiftr val 8)) ""))
      | _, _, _ => None
      end
  else quantum c0 c1 c2 c3.

(** Decoding; [None] stands for [CorruptInputError]. *)
Fixpoint Decode (s : string) : option string :=
  match s with
  | EmptyString => Some ""
  | String c0 (String c1 (String c2 (String c3 rest))) =>
      match rest with
      | EmptyString => last_quantum c0 c1 c2 c3
      | _ =>
          match quantum c0 c1 c2 c3, Decode rest with
          | Some q, Some bytes => Some (q +:+ bytes)
          | _, _ => None
          end
      end
  | _ => None
  end.

(** The reader of [NewDecoder] drops carriage returns and line feeds. *)
Fixpoint newlineFilter (s : string) : string :=
  match s with
  | EmptyString => ""
  | String c rest =>
      if Ascii.eqb c "013"%char || Ascii.eqb c "010"%char then newlineFilter rest
      else String c (newlineFilter rest)
  end.

(** The first [n] quanta of a text and what follows them; a text that
    ends before is taken whole. *)
Fixpoint split_quanta (n : nat) (s : string) : string * string :=
  match n with
  | O => ("", s)
  | S n' =>
      match s with
      | String c0 (String c1 (String c2 (String c3 rest))) =>
          let (chunk, rest) := split_quanta n' rest in
          (String c0 (String c1 (String c2 (String c3 chunk))), rest)
      | _ => (s, "")
      end
  end.

(** The decoder of [NewDecoder] gets the text in chunks of whole quanta
    and decodes each chunk by itself, so that padding may end a chunk and
    not only the text.  How large the chunks are depends on the buffers of
    the readers: [chunks] gives the number of quanta of each chunk, less
    one; what is left after the last of them is one chunk. *)
Fixpoint decode_chunks (chunks : list nat) (s : string) : option string :=
  match chunks with
  | [] => Decode s
  | n :: chunks' =>
      match split_quanta (S n) s with
      | (_, EmptyString) => Decode s
      | (chunk, rest) =>
          match Decode chunk, decode_chunks chunks' rest with
          | Some bytes, Some more => Some (bytes +:+ more)
          | _, _ => None
          end
      end
  end.

(** [ioutil.ReadAll(base64.NewDecoder(base64.StdEncoding, strings.NewReader(data)))],
    the stream being read in the given chunks. *)
Definition ReadAll_NewDecoder (chunks : list nat) (data : string) : option string :=
  decode_chunks chunks (newlineFilter data).

End base64.

(** ** Package acmecert (apiserver/models/acmecert) *)

Module acmecert.

(** The struct [AcmeCert]; of [gorm.Model] the identifier. *)
Record AcmeCert := {
  ID : N;
  DomainID : N;
  LetsencryptKey : string;
  PrivateKey : string;
  Cert : string;
  CertURI : string;
  HTTPChallengePath : string;
  HTTPChallengeResource : string
}.

(** What [ssh.ParseRawPrivateKey] returns: an RSA key or a key of another
    kind. *)
Inductive ParsedKey (K : Type) :=
| RSAKey (k : K)
| OtherKey.

Arguments RSAKey {K} k.
Arguments OtherKey {K}.

(** The errors of the package: those of the libraries passed on, the one
    [fmt.Errorf] wraps, the base64 decoder's, and [errors.New("private key
    is not an RSA key")]. *)
Inductive Error (E : Type) :=
| Cause (e : E)
| EncryptingData (cause : E)
| CorruptInput
| NotAnRSAKey.

Arguments Cause {E} e.
Arguments EncryptingData {E} cause.
Arguments CorruptInput {E}.
Arguments NotAnRSAKey {E}.

Section Package.

(** The libraries that are not among the sources: [aesencrypter],
    [rsa.GenerateKey], the PEM form of a PKCS1 key and its parser, and the
    update of gorm.  [rand.Reader], the random source of the process, is
    passed along: generating a key and encrypting take its state and
    return the next one.  [reader_chunks] tells in which chunks the
    base64 decoder gets a text from [ioutil.ReadAll]. *)
Context {E K Store Rand : Type}.
Context (aesencrypter_Encrypt : Rand -> string -> string -> Rand * (E + string)).
Context (aesencrypter_Decrypt : string -> string -> E + string).
Context (reader_chunks : string -> list nat).
Context (rsa_GenerateKey : Rand -> Rand * (E + K)).
Context (pem_EncodeToMemory : K -> string).
Context (ssh_ParseRawPrivateKey : string -> E + ParsedKey K).
Context (db_Update_cert : Store -> N -> string -> Store * option E).

Definition encryptBase64 (rand : Rand) (data aesKey : string)
  : Rand * (Error E + string) :=
  let (rand, r) := aesencrypter_Encrypt rand data aesKey in
  match r with
  | inl err => (rand, inl (EncryptingData err))
  | inr cipherText => (rand, inr (base64.EncodeToString cipherText))
  end.

Definition decryptBase64 (data aesKey : string) : Error E + string :=
  match base64.ReadAll_NewDecoder (reader_chunks data) data with
  | None => inl CorruptInput
  | Some cipherText =>
      match aesencrypter_Decrypt cipherText aesKey with
      | inl err => inl (Cause err)
      | inr decrypted => inr decrypted
      end
  end.

Definition encryptPrivateKey (rand : Rand) (privKey : K) (aesKey : string)
  : Rand * (Error E + string) :=
  encryptBase64 rand (pem_EncodeToMemory privKey) aesKey.

Definition decryptPrivateKey (privKey aesKey : string) : Error E + K :=
  match decryptBase64 privKey aesKey with
  | inl err => inl err
  | inr decrypted =>
      match ssh_ParseRawPrivateKey decrypted with
      | inl err => inl (Cause err)
      | inr (RSAKey rpk) => inr rpk
      | inr OtherKey => inl NotAnRSAKey
      end
  end.

Definition New (rand : Rand) (domainID : N) (aesKey : string)
  : Rand * (Error E + AcmeCert) :=
  let (rand, r) := rsa_GenerateKey rand in
  match r with
  | inl err => (rand, inl (Cause err))
  | inr leKey =>
      let (rand, r) := encryptPrivateKey rand leKey aesKey in
      match r with
      | inl err => (rand, inl err)
      | inr letsencryptKey =>
          let (rand, r) := rsa_GenerateKey rand in
          match r with
          | inl err => (rand, inl (Cause err))
          | inr privKey =>
              let (rand, r) := encryptPrivateKey rand privKey aesKey in
              match r with
              | inl err => (rand, inl err)
              | inr privateKey =>
                  (rand,
                   inr {| ID := 0; DomainID := domainID;
                          LetsencryptKey := letsencryptKey; PrivateKey := privateKey;
                          Cert := ""; CertURI := "";
                          HTTPChallengePath := ""; HTTPChallengeResource := "" |})
              end
          end
      end
  end.

Definition IsValid (c : AcmeCert) : bool :=
  negb (N.eqb (DomainID c) 0) && negb (String.eqb (LetsencryptKey c) "")
  && negb (String.eqb (PrivateKey c) "") && negb (String.eqb (Cert c) "").

Definition with_Cert (b : string) (c : AcmeCert) : AcmeCert :=
  {| ID := ID c; DomainID := DomainID c;
     LetsencryptKey := LetsencryptKey c; PrivateKey := PrivateKey c;
     Cert := b; CertURI := CertURI c;
     HTTPChallengePath := HTTPChallengePath c;
     HTTPChallengeResource := HTTPChallengeResource c |}.

(** [SaveCert]: the struct after the call, the random source and the store
    after it, and the error returned. *)
Definition SaveCert (c : AcmeCert) (rand : Rand) (db : Store) (certBundlePEM aesKey : string)
  : AcmeCert * Rand * Store * option (Error E) :=
  let (rand, r) := encryptBase64 rand certBundlePEM aesKey in
  match r with
  | inl err => (c, rand, db, Some err)
  | inr b =>
      let c := with_Cert b c in
      let (db, err) := db_Update_cert db (ID c) b in
      (c, rand, db, option_map Cause err)
  end.

Definition DecryptedLetsencryptKey (c : AcmeCert) (aesKey : string) : Error E + K :=
  decryptPrivateKey (LetsencryptKey c) aesKey.

Definition DecryptedPrivateKey (c : AcmeCert) (aesKey : string) : Error E + K :=
  decryptPrivateKey (PrivateKey c) aesKey.

End Package.

End acmecert.

(** A cipher for the examples: it numbers its outputs with the state of
    the random source, which counts the calls. *)
Definition toy_Encrypt (rand : nat) (data aesKey : string) : nat * (string + string) :=
  if String.eqb aesKey "" then (rand, inl "empty key")
  else (S rand, inr (String (ascii_of_nat rand) data)).

Definition toy_Decrypt (cipherText aesKey : string) : string + string :=
  match cipherText with
  | String _ data => inr data
  | EmptyString => inl "short input"
  end.

(** The keys of the examples are texts; the random source yields the
    texts "key0", "key1", ... *)
Definition toy_GenerateKey (rand : nat) : nat * (string + string) :=
  (S rand, inr ("key" +:+ NilZero.string_of_uint (Nat.to_uint rand))).

Definition toy_Parse (pem : string) : string + acmecert.ParsedKey string :=
  inr (acmecert.RSAKey pem).

(** The store of the examples: the certificates saved, by identifier. *)
Definition toy_Update_cert (db : list (N * string)) (id : N) (b : string)
  : list (N * string) * option string :=
  ((id, b) :: db, None).

(** ** gorm: [Where(...).First(out)] *)

Module gorm.

(** The row with the least primary key ([ORDER BY id LIMIT 1]). *)
Fixpoint least {A} (id : A -> N) (rows : list A) : option A :=
  match rows with
  | [] => None
  | r :: rest =>
      match least id rest with
      | Some r' => if N.leb (id r) (id r') then Some r else Some r'
      | None => Some r
      end
  end.

(** What a query returns: an error of the connection, or an answer. *)
Inductive Result (E A : Type) :=
| QueryError (err : E)
| RecordNotFound
| Found (row : A).

Arguments QueryError {E A} err.
Arguments RecordNotFound {E A}.
Arguments Found {E A} row.

(** [db.Where(cond).First(out)] on a table, given as the rows that are not
    deleted, or on a connection that fails. *)
Definition Where_First {E A} (db : E + list A) (id : A -> N) (cond : A -> bool)
  : Result E A :=
  match db with
  | inl err => QueryError err
  | inr rows =>
      match least id (List.filter cond rows) with
      | Some r => Found r
      | None => RecordNotFound
      end
  end.

End gorm.

(** ** Package oauthclient (apiserver/models/oauthclient) *)

Module oauthclient.

Record OauthClient := {
  ID : N;
  ClientID : string;
  ClientSecret : string;
  Email : string;
  Name : string;
  Organization : string
}.

(** [Authenticate]: the client and the error that it returns. *)
Definition Authenticate {E} (db : E + list OauthClient) (clientID clientSecret : string)
  : option OauthClient * option E :=
  match gorm.Where_First db ID
          (fun c => String.eqb (ClientID c) clientID
                    && String.eqb (ClientSecret c) clientSecret) with
  | gorm.QueryError err => (None, Some err)
  | gorm.RecordNotFound => (None, None)
  | gorm.Found c => (Some c, None)
  end.

End oauthclient.

(** ** gin, as the middleware uses it *)

Module gin.

(** A request in the chain of its handlers: the parameters of the path,
    the values that handlers have set, the responses written, and whether
    the chain was aborted. *)
Record Context (V : Type) := {
  Params : string -> string;
  Keys : gmap string V;
  Written : list (Z * JSON);
  Aborted : bool
}.

Arguments Params {V} c.
Arguments Keys {V} c.
Arguments Written {V} c.
Arguments Aborted {V} c.

Definition Param {V} (c : Context V) (key : string) : string := Params c key.

Definition Set_ {V} (c : Context V) (key : string) (value : V) : Context V :=
  {| Params := Params c; Keys := <[key := value]> (Keys c);
     Written := Written c; Aborted := Aborted c |}.

Definition JSON_ {V} (c : Context V) (code : Z) (obj : JSON) : Context V :=
  {| Params := Params c; Keys := Keys c;
     Written := Written c ++ [(code, obj)]; Aborted := Aborted c |}.

Definition Abort {V} (c : Context V) : Context V :=
  {| Params := Params c; Keys := Keys c; Written := Written c; Aborted := true |}.

End gin.

Definition http_StatusNotFound : Z := 404.

(** ** Package middleware (apiserver/middleware) *)

Module middleware.

Section RequireProject.

(** What the middleware calls and is not among the sources: the values
    of a context with the current user in it, the controllers' helpers,
    the connection and the finder of the project model; [next] is the
    rest of the chain, which [c.Next()] runs. *)
Context {E V Store : Type}.
Context (controllers_CurrentUser : gin.Context V -> option user.User).
Context (controllers_InternalServerError : gin.Context V -> option E -> gin.Context V).
Context (controllers_CurrentProjectKey : string).
Context (project_value : project.Project -> V).
Context (dbconn_DB : E + Store).
Context (project_FindByName : Store -> string -> E + option project.Project).
Context (next : gin.Context V -> gin.Context V).

Definition not_found (c : gin.Context V) : gin.Context V :=
  gin.Abort
    (gin.JSON_ c http_StatusNotFound
       (JObject [("error", JString "not_found");
                 ("error_description", JString "project could not be found")])).

Definition RequireProject (c : gin.Context V) : gin.Context V :=
  match controllers_CurrentUser c with
  | None => gin.Abort (controllers_InternalServerError c None)
  | Some u =>
      match dbconn_DB with
      | inl err => gin.Abort (controllers_InternalServerError c (Some err))
      | inr db =>
          let name := gin.Param c "project_name" in
          match project_FindByName db name with
          | inl err => gin.Abort (controllers_InternalServerError c (Some err))
          | inr None => not_found c
          | inr (Some proj) =>
              if negb (N.eqb (project.UserID proj) (user.ID u)) then not_found c
              else next (gin.Set_ c controllers_CurrentProjectKey (project_value proj))
          end
      end
  end.

End RequireProject.

End middleware.

(** The project of the given name is there and belongs to the current
    user of the request. *)
Definition owns {E V Store : Type} (CurrentUser : gin.Context V -> option user.User)
    (DB : E + Store) (FindByName : Store -> string -> E + option project.Project)
    (c : gin.Context V) (proj : project.Project) : Prop :=
  exists u db,
    CurrentUser c = Some u /\ DB = inr db
    /\ FindByName db (gin.Param c "project_name") = inr (Some proj)
    /\ project.UserID proj = user.ID u.

(** ** The worker whose job carries the prefix and the domains

    A second version of package deployer among the sources: its [Work]
    reads no store, the job tells it the prefix of the deployment and the
    domains; the job has the fields that [Work] reads, and the bucket is
    the one of the environment. *)

Module deployer_v0.

(** The Deploy job of that version, with the fields that [Work] reads. *)
Record DeployJobData := {
  DeploymentID : N;
  DeploymentPrefix : string;
  Domains : list string
}.

Inductive Payload :=
| Malformed (msg : string)
| Decoded (d : DeployJobData).

Definition json_Unmarshal (data : Payload) : M DeployJobData :=
  match data with
  | Malformed msg => fail (ErrSyntax msg)
  | Decoded d => ret d
  end.

(** [fmt.Sprintf("%s-%d", d.DeploymentPrefix, d.DeploymentID)] *)
Definition prefix_of (d : DeployJobData) : string :=
  DeploymentPrefix d +:+ "-" +:+ fmt_d (DeploymentID d).

Section Worker.

Context (env : Env).

(** [pubsub.NewMessageWithJSON], which is not among the sources: the
    message, or nil with an error.  [Work] drops the error and calls
    [m.Publish()] on what it got; on nil that call dereferences a nil
    pointer. *)
Context (NewMessageWithJSON : string -> string -> messages.V1InvalidationMessageData -> option Message).

Let BucketRegion := s3client.BucketRegion env.
Let BucketName := s3client.BucketName env.

Definition Work (data : Payload) : M unit :=
  let* d := json_Unmarshal data in
  let prefix := prefix_of d in
  let rawBundle := "deployments/" +:+ prefix +:+ "/raw-bundle.tar.gz" in
  let tmpFileName := prefix +:+ "-raw-bundle.tar.gz" in
  let* _ := ioutil_TempFile tmpFileName in
  let* f := S3_Download BucketRegion BucketName rawBundle in
  let* tr := gzip_NewReader f in
  let webroot := "deployments/" +:+ prefix +:+ "/webroot" in
  let* _ := upload_webroot env webroot tr in
  let metaJson := JObject [("prefix", JString prefix)] in
  let* _ := upload_meta env metaJson (Domains d) in
  let m := NewMessageWithJSON (exchanges_Edges env)
             (exchanges_RouteV1Invalidation env)
             {| messages.Domains := Domains d |} in
  match m with
  | Some m => Message_Publish m
  | None => panic
  end.

End Worker.

(** Modelled from the spec: [pubsub.NewMessageWithJSON] when it does not
    fail, which constructs the message as [pubsub_NewMessageWithJSON]
    above does. *)
Definition message_built (exchange routeKey : string) (data : messages.V1InvalidationMessageData)
  : option Message :=
  Some {| msg_exchange := exchange;
          msg_routeKey := routeKey;
          msg_body := JObject [("domains", JArray (map JString (messages.Domains data)))] |}.

End deployer_v0.

(** The job of that version for a deployment and the domains of its
    project. *)
Definition job_v0 (depl : Deployment) (domainNames : list string)
  : deployer_v0.DeployJobData :=
  {| deployer_v0.DeploymentID := deployment.ID depl;
     deployer_v0.DeploymentPrefix := Prefix depl;
     deployer_v0.Domains := domainNames |}.

(** What the calls of a run have stored, in order. *)
Definition stored (tr : list Logged) : list (string * string * string * Object) :=
  omap stores tr.

(** The keys and the pointer document of that version. *)
Definition v0_webroot (d : deployer_v0.DeployJobData) : string :=
  "deployments/" +:+ deployer_v0.prefix_of d +:+ "/webroot".

Definition v0_bundle (d : deployer_v0.DeployJobData) : string :=
  "deployments/" +:+ deployer_v0.prefix_of d +:+ "/raw-bundle.tar.gz".

Definition v0_pointer (d : deployer_v0.DeployJobData) : JSON :=
  JObject [("prefix", JString (deployer_v0.prefix_of d))].

(** What [Work] of that version asks [pubsub.NewMessageWithJSON] for. *)
Definition v0_message (env : Env)
    (newMessage : string -> string -> messages.V1InvalidationMessageData -> option Message)
    (d : deployer_v0.DeployJobData) : option Message :=
  newMessage (exchanges_Edges env) (exchanges_RouteV1Invalidation env)
    {| messages.Domains := deployer_v0.Domains d |}.

(** The calls that a run of that version makes before it publishes. *)
Definition v0_uploads (env : Env) (d : deployer_v0.DeployJobData) (items : list TarItem)
  : list Logged :=
  [ok (TempFile (deployer_v0.prefix_of d +:+ "-raw-bundle.tar.gz"));
   ok (S3Download (s3client.BucketRegion env) (s3client.BucketName env) (v0_bundle d))]
  ++ map (fun f => ok (webroot_upload env (v0_webroot d) (fst f) (snd f)))
       (regular_files items)
  ++ map (fun domain => ok (pointer_upload env (v0_pointer d) domain))
       (deployer_v0.Domains d).

(** The calls that a run of that version can make. *)
Definition V0Call (env : Env)
    (newMessage : string -> string -> messages.V1InvalidationMessageData -> option Message)
    (d : deployer_v0.DeployJobData) (c : Call) : Prop :=
  c = TempFile (deployer_v0.prefix_of d +:+ "-raw-bundle.tar.gz")
  \/ c = S3Download (s3client.BucketRegion env) (s3client.BucketName env) (v0_bundle d)
  \/ (exists hdr content, c = webroot_upload env (v0_webroot d) hdr content)
  \/ (exists domain, domain ∈ deployer_v0.Domains d
                     /\ c = pointer_upload env (v0_pointer d) domain)
  \/ (exists m, v0_message env newMessage d = Some m /\ c = MQPublish m).

(** ** More scenarios *)

(** A job for a deployment that the store does not hold. *)
Definition job_unknown : DeployJobData :=
  {| DeploymentID := 41;
     SkipWebrootUpload := false;
     SkipInvalidation := false;
     UseRawBundle := true |}.

(** An archive that breaks off after its first file. *)
Definition damaged_bundle : Object :=
  {| obj_body := GzipTar [index_html; TarDamaged "unexpected EOF"];
     obj_contentType := "application/octet-stream";
     obj_acl := "private" |}.

(** Scenario A with the damaged archive as the raw bundle. *)
Definition scenario_damaged : World :=
  {| db := db (scenarioA local_env);
     s3 := {[ (s3client.BucketRegion local_env, s3client.BucketName local_env,
               "deployments/ab12-42/raw-bundle.tar.gz") := damaged_bundle ]};
     mq := [];
     calls := [];
     now := 5000000000;
     faults := never |}.

(** The environment of a deployer in production with its credentials. *)
Definition production_environ : gmap string string :=
  {[ "RISE_ENV" := "production";
     "AWS_ACCESS_KEY_ID" := "AKIAEXAMPLE";
     "AWS_SECRET_ACCESS_KEY" := "secret" ]}.

(** A user without a password and with an address that lacks its domain. *)
Definition user_incomplete : usermodel.User :=
  {| usermodel.ID := 1; usermodel.CreatedAt := 0; usermodel.UpdatedAt := 0;
     usermodel.DeletedAt := None;
     usermodel.Email := "dev@example"; usermodel.Password := "";
     usermodel.Name := "Dev"; usermodel.Organization := "" |}.

(** A request for the project "foo" by the user 1, who owns it; the
    values of the context are projects, the store holds [project_foo]. *)
Definition request_foo : gin.Context project.Project :=
  {| gin.Params := fun key => if String.eqb key "project_name" then "foo" else "";
     gin.Keys := ∅;
     gin.Written := [];
     gin.Aborted := false |}.

Definition toy_CurrentUser (c : gin.Context project.Project) : option user.User :=
  Some {| user.ID := 1; user.Email := "dev@example.com";
          user.Name := "Dev"; user.Organization := "" |}.

Definition toy_InternalServerError (c : gin.Context project.Project) (err : option string)
  : gin.Context project.Project :=
  gin.JSON_ c 500 (JObject [("error", JString "internal_server_error")]).

Definition toy_FindByName (db : list project.Project) (name : string)
  : string + option project.Project :=
  inr (List.find (fun p => String.eqb (project.Name p) name) db).

(** The decoder of the examples gets every text in chunks of one
    quantum. *)
Definition toy_chunks (data : string) : list nat :=
  repeat 0%nat (String.length data).

(** ** Lemmas on runs *)

Lemma replay_app tr1 tr2 w : replay (tr1 ++ tr2) w = replay tr2 (replay tr1 w).
Proof. apply fold_left_app. Qed.

Lemma replay_snoc tr l w : replay (tr ++ [l]) w = after (replay tr w) l.
Proof. now rewrite replay_app. Qed.

Lemma calls_after w l : calls (after w l) = calls w ++ [l].
Proof. destruct l as [c [e|]]; destruct c; reflexivity. Qed.

Lemma calls_replay tr w : calls (replay tr w) = calls w ++ tr.
Proof.
  revert w. induction tr as [|l tr IH]; intros w; simpl.
  - now rewrite app_nil_r.
  - rewrite IH, calls_after, <- app_assoc. reflexivity.
Qed.

Lemma db_replay tr w : db (replay tr w) = db w.
Proof.
  revert w. induction tr as [|l tr IH]; intros w; simpl; [reflexivity|].
  rewrite IH. destruct l as [c [e|]]; destruct c; reflexivity.
Qed.

Lemma db_after w l : db (after w l) = db w.
Proof. destruct l as [c [e|]]; destruct c; reflexivity. Qed.

Lemma now_replay tr w : now (replay tr w) = now w.
Proof.
  revert w. induction tr as [|l tr IH]; intros w; simpl; [reflexivity|].
  rewrite IH. destruct l as [c [e|]]; destruct c; reflexivity.
Qed.

Lemma faults_replay tr w : faults (replay tr w) = faults w.
Proof.
  revert w. induction tr as [|l tr IH]; intros w; simpl; [reflexivity|].
  rewrite IH. destruct l as [c [e|]]; destruct c; reflexivity.
Qed.

Lemma faults_after w l : faults (after w l) = faults w.
Proof. destruct l as [c [e|]]; destruct c; reflexivity. Qed.

Lemma trace_of_replay tr w : trace_of w (replay tr w) = tr.
Proof. unfold trace_of. rewrite calls_replay. apply drop_app_length. Qed.

Lemma State_eqb_eq a b : State_eqb a b = true <-> a = b.
Proof. destruct a, b; simpl; split; congruence. Qed.

Lemma State_eqb_neq a b : State_eqb a b = false <-> a <> b.
Proof. destruct a, b; simpl; split; congruence. Qed.

Section RunLemmas.

Context (env : Env).

Ltac oracle :=
  match goal with
  | |- context [match faults ?w ?n ?s with _ => _ end] =>
      let F := fresh "F" in destruct (faults w n s) as [msg|] eqn:F; simpl
  end.

Ltac finish_with c := eexists; split; [|eapply c; eassumption]; reflexivity.

Lemma load_run d w :
  exists tr, fst (load d w) = replay tr w /\ LoadRun d w tr (snd (load d w)).
Proof.
  unfold load, bind, dbconn_DB, db_First_Deployment, db_First_Project, invoke,
    or_not_found, ret, fail. simpl.
  oracle; [finish_with load_open_fault|].
  oracle; [finish_with load_deployment_fault|].
  destruct (first_deployment _ _) as [depl|] eqn:Hd; simpl;
    [|finish_with load_deployment_missing].
  destruct (unready depl) eqn:Hu; simpl; [finish_with load_unready|].
  oracle; [finish_with load_project_fault|].
  destruct (first_project _ _) as [proj|] eqn:Hp; simpl;
    [|finish_with load_project_missing].
  finish_with load_ok.
Qed.

Lemma upload_webroot_run webroot items w :
  exists tr,
    fst (upload_webroot env webroot items w) = replay tr w
    /\ UploadLoop env webroot items w tr (snd (upload_webroot env webroot items w)).
Proof.
  revert w. induction items as [|[hdr content|msg] rest IH]; intros w; simpl.
  - exists []. split; [reflexivity|constructor].
  - destruct (hdr_IsDir hdr) eqn:Hdir.
    + destruct (IH w) as (tr & E & R). exists tr. split; [exact E|].
      now apply uploads_dir.
    + unfold bind, S3_Upload, invoke. simpl. oracle.
      * eexists. split; [|eapply uploads_fault; eassumption]. reflexivity.
      * match goal with |- context [upload_webroot env webroot rest ?w1] =>
          destruct (IH w1) as (tr & E & R);
          destruct (upload_webroot env webroot rest w1) as [w2 r] eqn:Hrun
        end.
        simpl in E, R. subst w2.
        exists (ok (webroot_upload env webroot hdr content) :: tr).
        destruct r; simpl; (split; [reflexivity | now apply uploads_file]).
  - exists []. split; [reflexivity|constructor].
Qed.


Lemma upload_meta_run metaJson names w :
  exists tr,
    fst (upload_meta env metaJson names w) = replay tr w
    /\ PointerLoop env metaJson names w tr (snd (upload_meta env metaJson names w)).
Proof.
  revert w. induction names as [|domain rest IH]; intros w; simpl.
  - exists []. split; [reflexivity|constructor].
  - unfold bind, S3_Upload, invoke. simpl. oracle.
    + eexists. split; [|eapply pointers_fault; eassumption]. reflexivity.
    + match goal with |- context [upload_meta env metaJson rest ?w1] =>
        destruct (IH w1) as (tr & E & R);
        destruct (upload_meta env metaJson rest w1) as [w2 r] eqn:Hrun
      end.
      simpl in E, R. subst w2.
      exists (ok (pointer_upload env metaJson domain) :: tr).
      destruct r; simpl; (split; [reflexivity | now apply pointers_next]).
Qed.

#[local] Arguments upload_meta : simpl never.
#[local] Arguments upload_webroot : simpl never.

Lemma publish_webroot_run d depl w :
  exists tr,
    fst (publish_webroot env d depl w) = replay tr w
    /\ WebrootRun env d depl w tr (snd (publish_webroot env d depl w)).
Proof.
  unfold publish_webroot.
  destruct (SkipWebrootUpload d) eqn:Hskip; simpl;
    [exists []; split; [reflexivity|now constructor]|].
  destruct (State_eqb (State depl) StateDeployed) eqn:Hst.
  { apply State_eqb_eq in Hst. exists []. split; [reflexivity|now constructor]. }
  apply State_eqb_neq in Hst.
  unfold bind, ioutil_TempFile, S3_Download, invoke. simpl.
  oracle; [finish_with webroot_tempfile_fault|].
  oracle; [finish_with webroot_download_fault|].
  destruct (s3 w !! _) as [o|] eqn:Hobj; simpl;
    [|finish_with webroot_bundle_missing].
  destruct (obj_body o) as [content|v|items] eqn:Hbody; simpl.
  - eexists; split; [|eapply webroot_not_gzip; try eassumption]; [reflexivity|].
    intros items. rewrite Hbody. discriminate.
  - eexists; split; [|eapply webroot_not_gzip; try eassumption]; [reflexivity|].
    intros items. rewrite Hbody. discriminate.
  - match goal with |- context [upload_webroot env ?wr items ?w1] =>
      destruct (upload_webroot_run wr items w1) as (tr & E & R);
      destruct (upload_webroot env wr items w1) as [w2 r] eqn:Hrun
    end.
    simpl in E, R. subst w2.
    exists (ok (TempFile (tmpFileName depl)) :: ok (download env d depl) :: tr).
    split; [reflexivity|]. simpl. eapply webroot_unpacked; eassumption.
Qed.

Lemma publish_meta_run depl proj w :
  exists tr,
    fst (publish_meta env depl proj w) = replay tr w
    /\ MetaRun env depl proj w tr (snd (publish_meta env depl proj w)).
Proof.
  unfold publish_meta, bind, Project_DomainNames, invoke. simpl.
  oracle; [finish_with meta_names_fault|].
  match goal with |- context [upload_meta env ?mj ?names ?w1] =>
    destruct (upload_meta_run mj names w1) as (tr & E & R);
    destruct (upload_meta env mj names w1) as [w2 r] eqn:Hrun
  end.
  simpl in E, R. subst w2.
  exists (ok (DBDomainNames (project.ID proj)) :: tr).
  destruct r as [[]|e|]; simpl.
  - split; [reflexivity|]. now apply meta_ok.
  - split; [reflexivity|]. now apply meta_uploads_failed.
  - exfalso. clear -R. remember Panic as r eqn:Hr. induction R; congruence.
Qed.

Lemma invalidate_run d names w :
  exists tr,
    fst (invalidate env d names w) = replay tr w
    /\ InvalidationRun env d names w tr (snd (invalidate env d names w)).
Proof.
  unfold invalidate.
  destruct (SkipInvalidation d) eqn:Hskip; simpl;
    [exists []; split; [reflexivity|now constructor]|].
  unfold bind, pubsub_NewMessageWithJSON, Message_Publish, invoke, ret. simpl.
  oracle.
  - eexists; split; [|eapply invalidation_fault; eassumption]. reflexivity.
  - eexists; split; [|eapply invalidation_sent; eassumption]. reflexivity.
Qed.


Lemma tx_Rollback_after w :
  exists rb, call rb = TxRollback /\ fst (tx_Rollback w) = after w rb.
Proof.
  unfold tx_Rollback, invoke. simpl. oracle.
  - eexists (failed TxRollback _). split; reflexivity.
  - exists (ok TxRollback). split; reflexivity.
Qed.

Lemma track_run depl proj t w :
  DeployedAt depl = Some t ->
  exists tail,
    Forall after_commit tail
    /\ track depl proj w = (replay tail w, Ret tt).
Proof.
  intros Ht. unfold track, bind, try, db_First_User, common_Track, invoke, or_not_found, ret.
  simpl. oracle.
  { eexists [failed (DBFirstUser _) _]. split; [|reflexivity].
    repeat constructor. }
  destruct (first_user _ _) as [u|]; simpl.
  2:{ eexists [failed (DBFirstUser _) _]. split; [|reflexivity].
      repeat constructor. }
  rewrite Ht. simpl. oracle.
  - eexists [ok (DBFirstUser _); failed (Track _ _ _) _]. split; [|reflexivity].
    repeat constructor.
  - eexists [ok (DBFirstUser _); ok (Track _ _ _)]. split; [|reflexivity].
    repeat constructor.
Qed.

Lemma finish_run depl proj w :
  exists tr committed,
    fst (finish depl proj w) = replay tr (commit committed depl proj w)
    /\ FinishRun depl proj w tr committed (snd (finish depl proj w)).
Proof.
  destruct (finish depl proj w) as [w' r'] eqn:Hrun. simpl. revert Hrun.
  unfold finish, bind at 1, db_Begin. unfold invoke at 1. simpl.
  oracle.
  { intros [= <- <-]. exists [failed TxBegin (ErrService Database msg)], false.
    split; [reflexivity|now constructor]. }
  unfold defer.
  match goal with |- context [let (_, _) := ?body ?w0 in _] =>
    destruct (body w0) as [w1 r] eqn:Hbody
  end.
  destruct (tx_Rollback_after w1) as (rb & Hrb & ->). simpl.
  intros [= <- <-]. revert Hbody.
  unfold bind, Deployment_UpdateState, tx_Update_active_deployment_id, tx_Commit, invoke.
  simpl. oracle.
  { intros [= <- <-].
    exists ([ok TxBegin;
             failed (TxUpdateState (deployment.ID depl) StateDeployed)
               (ErrService Database msg)] ++ [rb]), false.
    split; [now rewrite replay_snoc|]. now apply finish_update_state_fault. }
  oracle.
  { intros [= <- <-].
    exists ([ok TxBegin; ok (TxUpdateState (deployment.ID depl) StateDeployed);
             failed (TxUpdateProject (project.ID proj) (deployment.ID depl))
               (ErrService Database msg)] ++ [rb]), false.
    split; [now rewrite replay_snoc|]. now apply finish_update_project_fault. }
  oracle.
  { intros [= <- <-].
    exists ([ok TxBegin; ok (TxUpdateState (deployment.ID depl) StateDeployed);
             ok (TxUpdateProject (project.ID proj) (deployment.ID depl));
             failed TxCommit (ErrService Database msg)] ++ [rb]), false.
    split; [now rewrite replay_snoc|]. now apply finish_commit_fault. }
  match goal with |- context [track ?depl1 proj ?w2] =>
    destruct (track_run depl1 proj (now w) w2 eq_refl) as (tail & Htail & ->)
  end.
  intros [= <- <-].
  exists ([ok TxBegin; ok (TxUpdateState (deployment.ID depl) StateDeployed);
           ok (TxUpdateProject (project.ID proj) (deployment.ID depl)); ok TxCommit]
          ++ tail ++ [rb]), true.
  split.
  - rewrite !replay_app. reflexivity.
  - simpl. apply finish_committed. apply Forall_app. split; [exact Htail|].
    constructor; [|constructor]. unfold after_commit. now rewrite Hrb.
Qed.


Lemma UploadLoop_no_panic webroot items w tr : ~ UploadLoop env webroot items w tr Panic.
Proof. intros R. remember Panic as r eqn:Hr. induction R; congruence. Qed.

Lemma WebrootRun_no_panic d depl w tr : ~ WebrootRun env d depl w tr Panic.
Proof. intros R. inversion R; subst. eapply UploadLoop_no_panic; eassumption. Qed.

Lemma Work_phases d w : Work env (Decoded d) w = phases env d w.
Proof.
  unfold Work, phases, load, publish_webroot, publish_meta, invalidate, finish, track,
    unready, pointer_of, tmpFileName, bundlePath, webroot_of, bind, json_Unmarshal, ret, fail.
  destruct (dbconn_DB w) as [w1 [[]|e|]]; try reflexivity.
  destruct (db_First_Deployment (DeploymentID d) w1) as [w2 [depl|e|]]; try reflexivity.
  destruct (State_eqb (State depl) StateUploaded || State_eqb (State depl) StatePendingUpload);
    try reflexivity.
  destruct (db_First_Project (deployment.ProjectID depl) w2) as [w3 [proj|e|]];
    try reflexivity.
  match goal with |- (let (_, _) := ?m in _) = (let (_, _) := ?m' in _) =>
    change m' with m; destruct m as [w4 [[]|e|]]; try reflexivity
  end.
  destruct (project.LockedAt proj); try reflexivity.
  destruct (Project_DomainNames env proj w4) as [w5 [names|e|]]; try reflexivity.
  destruct (upload_meta env _ names w5) as [w6 [[]|e|]]; reflexivity.
Qed.

(** Every run of [Work] on a decoded job is one of the runs of [WorkRun]. *)
Lemma Work_run d w :
  WorkRun env d w (fst (Work env (Decoded d) w)) (snd (Work env (Decoded d) w)).
Proof.
  rewrite Work_phases. unfold phases, bind.
  destruct (load_run d w) as (tr1 & E1 & R1).
  destruct (load d w) as [w1 r1]. simpl in E1, R1. subst w1.
  destruct r1 as [[depl proj]|e|]; simpl;
    [|now apply work_load_failed|inversion R1].
  destruct (publish_webroot_run d depl (replay tr1 w)) as (tr2 & E2 & R2).
  destruct (publish_webroot env d depl (replay tr1 w)) as [w2 r2]. simpl in E2, R2. subst w2.
  rewrite <- replay_app in *.
  destruct r2 as [[]|e|]; simpl;
    [|eapply work_webroot_failed; eassumption
     |exfalso; eapply WebrootRun_no_panic; eassumption].
  destruct (project.LockedAt proj) as [t|] eqn:Hlock;
    [eapply work_locked; eassumption|].
  destruct (publish_meta_run depl proj (replay (tr1 ++ tr2) w)) as (tr3 & E3 & R3).
  destruct (publish_meta env depl proj (replay (tr1 ++ tr2) w)) as [w3 r3].
  simpl in E3, R3. subst w3. rewrite <- replay_app, <- app_assoc in *.
  destruct r3 as [names|e|]; simpl;
    [|eapply work_meta_failed; eassumption|inversion R3].
  destruct (invalidate_run d names (replay (tr1 ++ tr2 ++ tr3) w)) as (tr4 & E4 & R4).
  destruct (invalidate env d names (replay (tr1 ++ tr2 ++ tr3) w)) as [w4 r4].
  simpl in E4, R4. subst w4. rewrite <- replay_app, <- !app_assoc in *.
  destruct r4 as [[]|e|]; simpl;
    [|eapply work_invalidation_failed; eassumption|inversion R4].
  destruct (finish_run depl proj (replay (tr1 ++ tr2 ++ tr3 ++ tr4) w))
    as (tr5 & committed & E5 & R5).
  destruct (finish depl proj (replay (tr1 ++ tr2 ++ tr3 ++ tr4) w)) as [w5 r5].
  simpl in E5, R5. subst w5.
  eapply work_finished; eassumption.
Qed.

(** [Work] does not panic: [depl.DeployedAt] is set when it is read. *)
Lemma Work_never_panics d w : snd (Work env (Decoded d) w) <> Panic.
Proof.
  intros Hp. pose proof (Work_run d w) as R. rewrite Hp in R.
  inversion R; subst.
  match goal with F : FinishRun _ _ _ _ _ Panic |- _ => inversion F end.
Qed.

End RunLemmas.

(** *** The library functions on examples *)

Example path_Clean_examples :
  map path_Clean ["index.html"; "./index.html"; "css//site.css"; "a/b/../c"; "/../a";
                  "../../a/.."; ""; "a/.."]
  = ["index.html"; "index.html"; "css/site.css"; "a/c"; "/a"; "../.."; "."; "."].
Proof. reflexivity. Qed.

Example filepath_Ext_examples :
  map filepath_Ext ["index.html"; "a.b/c"; "a.b/c.d.e"; "Makefile"; "a."]
  = [".html"; ""; ".e"; ""; "."].
Proof. reflexivity. Qed.

Example strip_params_example : strip_params "text/html; charset=utf-8" = "text/html".
Proof. reflexivity. Qed.

Example PrefixID_example :
  PrefixID {| deployment.ID := 42; deployment.ProjectID := 7; deployment.UserID := 1;
              Prefix := "ab12"; Version := 1; State := StatePendingDeploy;
              CreatedAt := 0; DeployedAt := None |} = "ab12-42".
Proof. reflexivity. Qed.

Example int_of_uint_examples :
  map int_of_uint [0; 7; 2 ^ 63; 2 ^ 64 - 1]%N = [0; 7; - 2 ^ 63; -1].
Proof. reflexivity. Qed.

(** ** Lemmas on what a job leaves behind *)

(** *** The rows *)

Lemma first_deployment_id rows id depl :
  first_deployment rows id = Some depl -> deployment.ID depl = id.
Proof.
  intros H. apply find_some in H. destruct H as [_ H]. now apply N.eqb_eq in H.
Qed.

Lemma first_project_id rows id proj :
  first_project rows id = Some proj -> project.ID proj = id.
Proof.
  intros H. apply find_some in H. destruct H as [_ H]. now apply N.eqb_eq in H.
Qed.

Lemma first_deployment_map f rows id :
  (forall r, deployment.ID (f r) = deployment.ID r) ->
  first_deployment (map f rows) id = option_map f (first_deployment rows id).
Proof.
  intros Hf. unfold first_deployment. induction rows as [|r rows IH]; simpl; [reflexivity|].
  rewrite Hf. destruct (N.eqb (deployment.ID r) id); [reflexivity|exact IH].
Qed.

Lemma first_project_map f rows id :
  (forall r, project.ID (f r) = project.ID r) ->
  first_project (map f rows) id = option_map f (first_project rows id).
Proof.
  intros Hf. unfold first_project. induction rows as [|r rows IH]; simpl; [reflexivity|].
  rewrite Hf. destruct (N.eqb (project.ID r) id); [reflexivity|exact IH].
Qed.

Lemma first_deployment_activated x depl proj t :
  first_deployment (deployments x) (deployment.ID depl) = Some depl ->
  first_deployment (deployments (activated x depl proj t)) (deployment.ID depl)
  = Some (with_state StateDeployed t depl).
Proof.
  intros H. unfold activated. simpl. rewrite first_deployment_map.
  - rewrite H. simpl. now rewrite N.eqb_refl.
  - intros r. now destruct (N.eqb _ _).
Qed.

Lemma first_project_activated x depl proj t :
  first_project (projects x) (project.ID proj) = Some proj ->
  first_project (projects (activated x depl proj t)) (project.ID proj)
  = Some (with_active_deployment (deployment.ID depl) proj).
Proof.
  intros H. unfold activated. simpl. rewrite first_project_map.
  - rewrite H. simpl. now rewrite N.eqb_refl.
  - intros r. now destruct (N.eqb _ _).
Qed.

Lemma LoadRun_loaded d w tr depl proj :
  LoadRun d w tr (Ret (depl, proj)) ->
  tr = [ok DBOpen; ok (DBFirstDeployment (DeploymentID d));
        ok (DBFirstProject (deployment.ProjectID depl))]
  /\ first_deployment (deployments (db w)) (DeploymentID d) = Some depl
  /\ unready depl = false
  /\ first_project (projects (db w)) (deployment.ProjectID depl) = Some proj.
Proof. intros R. inversion R; subst. auto. Qed.

Lemma trace_of_finished committed depl proj tr tr5 w :
  trace_of w (replay tr5 (commit committed depl proj (replay tr w))) = tr ++ tr5.
Proof.
  unfold trace_of. rewrite calls_replay.
  assert (calls (commit committed depl proj (replay tr w)) = calls (replay tr w)) as ->
    by now destruct committed.
  now rewrite calls_replay, <- app_assoc, drop_app_length.
Qed.

Ltac run_cases env d w :=
  let R := fresh "R" in
  pose proof (Work_run env d w) as R;
  unfold trace, world_after, returned in *;
  destruct (Work env (Decoded d) w) as [w' r];
  cbn [fst snd] in R |- *; inversion R; subst; clear R;
  rewrite ?trace_of_replay, ?trace_of_finished.

Ltac use_loaded :=
  match goal with
  | H : LoadRun _ _ _ (Ret _) |- _ =>
      apply LoadRun_loaded in H; destruct H as (-> & Hdepl & Hready & Hproj)
  end.

(** The rows after a run: those of the activation, or those before. *)
Lemma Work_rows env d w :
  (returned env d w = Ret tt
   /\ exists depl proj,
        loaded d w depl proj
        /\ db (world_after env d w) = activated (db w) depl proj (now w))
  \/ (returned env d w <> Ret tt /\ db (world_after env d w) = db w).
Proof.
  run_cases env d w; try (right; split; [discriminate|apply db_replay]).
  use_loaded.
  match goal with H : FinishRun _ _ _ _ _ _ |- _ => inversion H; subst end;
    try (right; split; [discriminate|]; unfold commit; now rewrite !db_replay).
  left. split; [reflexivity|]. exists depl, proj. split; [now repeat split|].
  rewrite db_replay. unfold commit. simpl db. now rewrite db_replay, now_replay.
Qed.

(** Claim C1.  A run of [Work] that succeeds has committed, together, the
    state deployed and a deployed_at for the deployment and the
    deployment's id as the project's active_deployment_id; a run that does
    not succeed has committed nothing, so that the project's
    active_deployment_id, like every other row, is as it was. *)
Theorem activation_is_atomic env d w :
  (returned env d w = Ret tt
   /\ exists depl proj,
        first_deployment (deployments (db w)) (DeploymentID d) = Some depl
        /\ first_project (projects (db w)) (deployment.ProjectID depl) = Some proj
        /\ db (world_after env d w) = activated (db w) depl proj (now w)
        /\ exists depl' proj',
             first_deployment (deployments (db (world_after env d w))) (DeploymentID d)
               = Some depl'
             /\ State depl' = StateDeployed
             /\ DeployedAt depl' = Some (now w)
             /\ first_project (projects (db (world_after env d w))) (deployment.ProjectID depl)
                = Some proj'
             /\ project.ActiveDeploymentID proj' = Some (DeploymentID d))
  \/ (returned env d w <> Ret tt /\ db (world_after env d w) = db w).
Proof.
  destruct (Work_rows env d w) as [(Hr & depl & proj & (Hdepl & _ & Hproj) & Hdb)|H];
    [left|now right].
  split; [exact Hr|]. exists depl, proj.
  pose proof (first_deployment_id _ _ _ Hdepl) as Hid.
  pose proof (first_project_id _ _ _ Hproj) as Hpid.
  repeat split; try assumption.
  exists (with_state StateDeployed (now w) depl), (with_active_deployment (deployment.ID depl) proj).
  rewrite Hdb. rewrite <- Hid in Hdepl |- *. rewrite <- Hpid in Hproj |- *.
  rewrite first_deployment_activated, first_project_activated by assumption.
  repeat split; reflexivity.
Qed.

Lemma unready_states depl :
  unready depl = true <-> State depl = StateUploaded \/ State depl = StatePendingUpload.
Proof.
  unfold unready. rewrite orb_true_iff, !State_eqb_eq. reflexivity.
Qed.

(** A fault recorded for a service that never fails is absurd. *)
Ltac no_fault :=
  match goal with
  | Hup : forall n, faults ?w n ?s = None, F : fault_at _ ?s = Some _ |- _ =>
      unfold fault_at in F;
      repeat (rewrite faults_replay in F || rewrite faults_after in F);
      rewrite Hup in F; discriminate F
  end.

(** Claim C2.  When the deployment of the job is in state uploaded or
    pending_upload, [Work] returns an error, which is the unexpected-state
    error whenever the database answers; it has called nothing but the
    database, to open it and to read the deployment: no object is
    uploaded, no pointer document written, no broadcast published, and no
    row changed. *)
Theorem unready_deployment_is_refused env d w depl :
  first_deployment (deployments (db w)) (DeploymentID d) = Some depl ->
  State depl = StateUploaded \/ State depl = StatePendingUpload ->
  (exists e, returned env d w = Err e)
  /\ (database_up w -> returned env d w = Err errUnexpectedState)
  /\ Forall (fun l => call l = DBOpen \/ call l = DBFirstDeployment (DeploymentID d))
       (trace env d w)
  /\ s3 (world_after env d w) = s3 w
  /\ mq (world_after env d w) = mq w
  /\ db (world_after env d w) = db w.
Proof.
  intros Hd Hs. apply unready_states in Hs. unfold database_up.
  run_cases env d w; try (use_loaded; congruence).
  match goal with H : LoadRun _ _ _ _ |- _ => inversion H; subst end;
    try congruence;
    (split; [eexists; reflexivity|]);
    (split; [intros Hup; try no_fault; reflexivity|]);
    (split; [repeat constructor; simpl; auto|]);
    repeat split; reflexivity.
Qed.

(** Claim C3.  When the deployment of the job is already deployed and the
    webroot upload is not skipped, [Work] returns an error, which is the
    unexpected-state error whenever the database answers and holds the
    project; it has called nothing but the database, so that no file is
    uploaded and the object store is as it was. *)
Theorem deployed_is_not_uploaded_again env d w depl :
  first_deployment (deployments (db w)) (DeploymentID d) = Some depl ->
  State depl = StateDeployed ->
  SkipWebrootUpload d = false ->
  (exists e, returned env d w = Err e)
  /\ (database_up w ->
      is_Some (first_project (projects (db w)) (deployment.ProjectID depl)) ->
      returned env d w = Err errUnexpectedState)
  /\ Forall (fun l => service (call l) = Database) (trace env d w)
  /\ s3 (world_after env d w) = s3 w.
Proof.
  intros Hd Hs Hskip. unfold database_up.
  assert (Hnot : unready depl = false) by (unfold unready; now rewrite Hs).
  run_cases env d w; try use_loaded;
    try match goal with H : WebrootRun _ _ _ _ _ _ |- _ =>
      inversion H; subst; congruence end.
  - match goal with H : LoadRun _ _ _ _ |- _ => inversion H; subst end;
      try congruence;
      (split; [eexists; reflexivity|]);
      (split; [intros Hup [proj Hp]; try no_fault; try congruence|]);
      (split; [repeat constructor|]); reflexivity.
  - split; [eexists; reflexivity|].
    match goal with H : WebrootRun _ _ _ _ _ _ |- _ => inversion H; subst; try congruence end.
    split; [reflexivity|]. split; [repeat constructor|reflexivity].
Qed.

(** *** The calls *)

Section CallLemmas.

Context (env : Env).

Lemma LoadRun_calls d w tr r :
  LoadRun d w tr r -> Forall (fun l => WorkCall env d w (call l)) tr.
Proof.
  intros R. inversion R; subst; repeat first [apply List.Forall_nil | apply List.Forall_cons];
    simpl; first [apply call_open | apply call_first_deployment | now apply call_first_project].
Qed.

Lemma UploadLoop_calls webroot items w tr r :
  UploadLoop env webroot items w tr r ->
  Forall (fun l => exists hdr content, call l = webroot_upload env webroot hdr content) tr.
Proof.
  induction 1; repeat first [apply List.Forall_nil | apply List.Forall_cons]; simpl; eauto.
Qed.

Lemma WebrootRun_calls d depl w tr r :
  WebrootRun env d depl w tr r ->
  tr = []
  \/ (SkipWebrootUpload d = false /\ State depl <> StateDeployed
      /\ Forall (fun l => WebrootCall env d depl (call l)) tr).
Proof.
  intros R. inversion R; subst; auto; right;
    (split; [assumption|]); (split; [assumption|]);
    repeat first [apply List.Forall_nil | apply List.Forall_cons];
    unfold WebrootCall; simpl; auto.
  match goal with H : UploadLoop _ _ _ _ _ _ |- _ => apply UploadLoop_calls in H end.
  eapply Forall_impl; [eassumption|]. simpl. auto.
Qed.

Lemma PointerLoop_calls metaJson names w tr r :
  PointerLoop env metaJson names w tr r ->
  Forall (fun l => exists domain, domain ∈ names /\ call l = pointer_upload env metaJson domain) tr.
Proof.
  induction 1; repeat first [apply List.Forall_nil | apply List.Forall_cons]; simpl.
  - exists domain. split; [left|reflexivity].
  - exists domain. split; [left|reflexivity].
  - eapply Forall_impl; [eassumption|]. simpl. intros l (dom & Hin & Hl).
    exists dom. split; [now right|assumption].
Qed.

Lemma MetaRun_calls depl proj w tr r :
  MetaRun env depl proj w tr r ->
  Forall (fun l => call l = DBDomainNames (project.ID proj)
                   \/ exists domain, domain ∈ bound_domain_names env (db w) proj
                        /\ call l = pointer_upload env (pointer_of depl proj) domain) tr.
Proof.
  intros R. inversion R; subst; apply List.Forall_cons; simpl; auto.
  all: match goal with H : PointerLoop _ _ _ _ _ _ |- _ => apply PointerLoop_calls in H end.
  all: eapply Forall_impl; [eassumption|]; simpl; auto.
Qed.

Lemma MetaRun_names depl proj w tr names :
  MetaRun env depl proj w tr (Ret names) -> names = bound_domain_names env (db w) proj.
Proof. intros R. now inversion R. Qed.

Lemma InvalidationRun_calls d names w tr r :
  InvalidationRun env d names w tr r ->
  tr = []
  \/ (SkipInvalidation d = false
      /\ Forall (fun l => call l = MQPublish (invalidation env names)) tr).
Proof.
  intros R. inversion R; subst; auto; right; (split; [assumption|]);
    repeat first [apply List.Forall_nil | apply List.Forall_cons]; reflexivity.
Qed.

Lemma FinishRun_calls depl proj w tr committed r :
  FinishRun depl proj w tr committed r -> Forall (fun l => FinishCall (call l)) tr.
Proof.
  intros R. inversion R; subst;
    repeat first [apply List.Forall_nil | apply List.Forall_cons]; simpl; try exact I;
    try match goal with H : call _ = TxRollback |- _ => rewrite H; exact I end.
  eapply Forall_impl; [eassumption|]. unfold after_commit, FinishCall.
  intros l. now destruct (call l).
Qed.

Lemma set_db_same w : set_db (db w) w = w.
Proof. now destruct w. Qed.

Lemma replay_set_db x tr w : replay tr (set_db x w) = set_db x (replay tr w).
Proof.
  revert w. induction tr as [|l tr IH]; intros w; [reflexivity|].
  simpl. rewrite <- IH. f_equal.
  destruct l as [c [e|]]; destruct c; reflexivity.
Qed.

Lemma replay_commit committed depl proj tr w :
  replay tr (commit committed depl proj w)
  = set_db (db (commit committed depl proj w)) (replay tr w).
Proof.
  destruct committed; unfold commit.
  - now rewrite replay_set_db.
  - now rewrite <- (db_replay tr w), set_db_same.
Qed.

(** The world a run leaves, given its calls: the rows are the committed
    ones, everything else follows from the calls. *)
Lemma Work_world d w :
  exists x, world_after env d w = set_db x (replay (trace env d w) w).
Proof.
  run_cases env d w;
    try match goal with |- exists x, ?W = set_db x ?W =>
          exists (db W); symmetry; apply set_db_same end.
  rewrite replay_commit, <- replay_app. eexists. reflexivity.
Qed.

Lemma Work_calls d w :
  Forall (fun l => WorkCall env d w (call l)) (trace env d w).
Proof.
  run_cases env d w.
  1: eapply LoadRun_calls; eassumption.
  all: match goal with H : LoadRun _ _ _ _ |- _ =>
         pose proof (LoadRun_calls _ _ _ _ H) as C1;
         apply LoadRun_loaded in H; destruct H as (-> & Hdepl & Hready & Hproj)
       end.
  all: assert (Hl : loaded d w depl proj) by (repeat split; assumption).
  all: repeat match goal with
         | H : WebrootRun _ _ _ _ _ _ |- _ => apply WebrootRun_calls in H
         | H : MetaRun _ _ _ _ _ (Ret _) |- _ =>
             pose proof (MetaRun_names _ _ _ _ _ H); apply MetaRun_calls in H
         | H : MetaRun _ _ _ _ _ _ |- _ => apply MetaRun_calls in H
         | H : InvalidationRun _ _ _ _ _ _ |- _ => apply InvalidationRun_calls in H
         | H : FinishRun _ _ _ _ _ _ |- _ => apply FinishRun_calls in H
         end.
  all: subst; rewrite ?db_replay in *.
  all: rewrite <- ?app_assoc.
  all: repeat (apply Forall_app; split); try exact C1.
  all: try match goal with
         | H : ?tr = [] \/ _ /\ _ /\ _ |- Forall _ ?tr =>
             destruct H as [->|(? & ? & H)]; [constructor|]
         | H : ?tr = [] \/ _ /\ _ |- Forall _ ?tr =>
             destruct H as [->|(? & H)]; [constructor|]
         end.
  all: try (eapply Forall_impl; [eassumption|]; simpl; intros l Hc).
  all: try (eapply call_webroot; eassumption).
  all: try (eapply call_finish; eassumption).
  all: try (destruct Hc as [->|(domain & Hin & ->)];
            [eapply call_domain_names|eapply call_pointer]; eassumption).
  all: try (rewrite Hc; eapply call_publish; eassumption).
Qed.

End CallLemmas.

(** *** The object store and the exchange *)

Lemma s3_after w l :
  s3 (after w l) = match stores l with
                   | Some (k, o) => <[k := o]> (s3 w)
                   | None => s3 w
                   end.
Proof. destruct l as [c [e|]]; destruct c; reflexivity. Qed.

Lemma mq_after_quiet w l : is_publish (call l) = false -> mq (after w l) = mq w.
Proof. destruct l as [c [e|]]; destruct c; simpl; congruence. Qed.

Lemma mq_replay_quiet tr w :
  Forall (fun l => is_publish (call l) = false) tr -> mq (replay tr w) = mq w.
Proof.
  revert w. induction tr as [|l tr IH]; intros w H; [reflexivity|].
  inversion H; subst. simpl. rewrite IH by assumption. now apply mq_after_quiet.
Qed.

Lemma s3_replay_untouched tr w k :
  Forall (fun l => forall o, stores l <> Some (k, o)) tr ->
  s3 (replay tr w) !! k = s3 w !! k.
Proof.
  revert w. induction tr as [|l tr IH]; intros w H; [reflexivity|].
  inversion H as [|? ? Hl Htr]; subst. simpl. rewrite IH by assumption.
  rewrite s3_after. destruct (stores l) as [[k' o]|]; [|reflexivity].
  apply lookup_insert_ne. intros ->. now apply (Hl o).
Qed.

Lemma s3_replay_stored tr w k o :
  Forall (fun l => forall o', stores l = Some (k, o') -> o' = o) tr ->
  Exists (fun l => stores l = Some (k, o)) tr ->
  s3 (replay tr w) !! k = Some o.
Proof.
  induction tr as [|l tr IH] using rev_ind; intros H E; [inversion E|].
  apply Forall_app in H. destruct H as [Htr Hl]. inversion Hl as [|? ? Hl' _]; subst.
  rewrite replay_snoc, s3_after.
  destruct (stores l) as [[k' o']|] eqn:Hs.
  - destruct (decide (k' = k)) as [->|Hne].
    + rewrite (Hl' o' eq_refl). apply lookup_insert_eq.
    + rewrite lookup_insert_ne by assumption. apply IH; [assumption|].
      apply Exists_app in E. destruct E as [E|E]; [assumption|].
      inversion E as [? ? Hs'|? ? E']; subst; [congruence|inversion E'].
  - apply IH; [assumption|].
    apply Exists_app in E. destruct E as [E|E]; [assumption|].
    inversion E as [? ? Hs'|? ? E']; subst; [congruence|inversion E'].
Qed.

Lemma append_length s t : String.length (s +:+ t) = (String.length s + String.length t)%nat.
Proof. induction s as [|c s IH]; simpl; [reflexivity|now rewrite IH]. Qed.

Lemma append_cancel_r s1 s2 t : s1 +:+ t = s2 +:+ t -> s1 = s2.
Proof.
  revert s2. induction s1 as [|c s1 IH]; intros [|c2 s2] H; simpl in H.
  - reflexivity.
  - apply (f_equal String.length) in H. simpl in H. rewrite !append_length in H. simpl in H. lia.
  - apply (f_equal String.length) in H. simpl in H. rewrite !append_length in H. simpl in H. lia.
  - injection H as -> H. f_equal. now apply IH.
Qed.

Lemma append_cancel_l p s1 s2 : p +:+ s1 = p +:+ s2 -> s1 = s2.
Proof. induction p as [|c p IH]; simpl; intros H; [exact H|]. injection H as H. auto. Qed.

Lemma pointer_key_inj a b : pointer_key a = pointer_key b -> a = b.
Proof.
  unfold pointer_key. intros H. apply append_cancel_l in H.
  now apply append_cancel_r in H.
Qed.

Lemma Work_mq env d w : mq (world_after env d w) = mq (replay (trace env d w) w).
Proof. destruct (Work_world env d w) as [x ->]. reflexivity. Qed.

Lemma Work_s3 env d w : s3 (world_after env d w) = s3 (replay (trace env d w) w).
Proof. destruct (Work_world env d w) as [x ->]. reflexivity. Qed.

(** Claim C9.  With skip_invalidation no call of the run publishes, and
    the broadcasts delivered are those delivered before.  With
    skip_webroot_upload the run downloads nothing, and whatever it uploads
    is the pointer document of a domain, under [domains/<domain>/meta.json]:
    no file of a webroot is uploaded. *)
Theorem skipped_steps_are_not_run env d w :
  (SkipInvalidation d = true ->
   Forall (fun l => is_publish (call l) = false) (trace env d w)
   /\ mq (world_after env d w) = mq w)
  /\ (SkipWebrootUpload d = true ->
      Forall (fun l => is_download (call l) = false
                       /\ (is_upload (call l) = true ->
                           exists metaJson domain,
                             call l = pointer_upload env metaJson domain))
        (trace env d w)).
Proof.
  split; intros Hskip.
  - assert (Forall (fun l => is_publish (call l) = false) (trace env d w)) as Hq.
    { eapply Forall_impl; [apply Work_calls|]. simpl. intros l Hc.
      destruct Hc as [| | | ? ? ? ? ? ? Hw| | | |? ? c ? ? Hf]; try reflexivity; try congruence.
      - destruct Hw as [->|[->|(? & ? & ->)]]; reflexivity.
      - now destruct c. }
    split; [exact Hq|]. rewrite Work_mq. now apply mq_replay_quiet.
  - eapply Forall_impl; [apply Work_calls|]. simpl. intros l Hc.
    destruct Hc as [| | | | | | |? ? c ? ? Hf]; try congruence;
      try (split; [reflexivity|]; simpl; try discriminate).
    + intros _. eauto.
    + destruct c; try contradiction; split; try reflexivity; discriminate.
Qed.

(** Whatever a run stores under the pointer key of a domain is the pointer
    document of the deployment, stored by the upload for that domain. *)
Lemma pointer_stores env d w depl proj l domain o :
  first_deployment (deployments (db w)) (DeploymentID d) = Some depl ->
  first_project (projects (db w)) (deployment.ProjectID depl) = Some proj ->
  WorkCall env d w (call l) ->
  stores l = Some (s3client.BucketRegion env, s3client.BucketName env, pointer_key domain, o) ->
  l = ok (pointer_upload env (pointer_of depl proj) domain) /\ o = pointer_object depl proj.
Proof.
  intros Hdepl Hproj Hc Hs. destruct l as [c [e|]]; [discriminate Hs|].
  unfold stores in Hs. simpl in Hs, Hc.
  destruct Hc as [| | |depl' proj' c _ _ _ Hw
                  | |depl' proj' domain' (Hd' & _ & Hp') _ _| |depl' proj' c _ _ Hf];
    try discriminate Hs.
  - destruct Hw as [->|[->|(hdr & content & ->)]]; discriminate Hs.
  - assert (depl' = depl) as -> by congruence.
    assert (proj' = proj) as -> by congruence.
    unfold pointer_upload in Hs.
    assert (Hkey : pointer_key domain' = pointer_key domain) by congruence.
    apply pointer_key_inj in Hkey. subst domain'.
    split; [reflexivity|]. unfold pointer_object. congruence.
  - destruct c; try contradiction; discriminate Hs.
Qed.


(** *** The broadcast *)

Lemma PointerLoop_done env metaJson names w tr :
  PointerLoop env metaJson names w tr (Ret tt) ->
  tr = map (fun domain => ok (pointer_upload env metaJson domain)) names.
Proof.
  intros R. remember (Ret tt) as r eqn:Hr. induction R; try discriminate; [reflexivity|].
  simpl. f_equal. auto.
Qed.











(** *** Runs without faults *)

Lemma UploadLoop_reliable env webroot items w tr r :
  (forall n, faults w n ObjectStore = None) ->
  intact items ->
  UploadLoop env webroot items w tr r ->
  r = Ret tt
  /\ tr = map (fun f => ok (webroot_upload env webroot (fst f) (snd f))) (regular_files items).
Proof.
  intros Hup Hin R. induction R; simpl.
  - auto.
  - inversion Hin as [|? ? Hd _]; subst. now destruct (Hd msg).
  - inversion Hin; subst. rewrite H. auto.
  - no_fault.
  - inversion Hin; subst. rewrite H. simpl.
    destruct IHR as [-> ->]; [now rewrite faults_after|assumption|]. auto.
Qed.

Lemma PointerLoop_reliable env metaJson names w tr r :
  (forall n, faults w n ObjectStore = None) ->
  PointerLoop env metaJson names w tr r ->
  r = Ret tt.
Proof.
  intros Hup R. induction R; [reflexivity|no_fault|].
  apply IHR. now rewrite faults_after.
Qed.

Ltac services Hrel :=
  pose proof (fun n => Hrel n Database) as Hdatabase;
  pose proof (fun n => Hrel n ObjectStore) as Hstore;
  pose proof (fun n => Hrel n FileSystem) as Hfiles;
  pose proof (fun n => Hrel n Broker) as Hbroker.

Lemma WebrootRun_reliable env d depl w0 tr w r o items :
  reliable w ->
  State depl <> StateDeployed ->
  SkipWebrootUpload d = false ->
  bundle_at env d depl w = Some o ->
  obj_body o = GzipTar items ->
  intact items ->
  s3 w0 = s3 w -> faults w0 = faults w ->
  WebrootRun env d depl w0 tr r ->
  r = Ret tt
  /\ tr = [ok (TempFile (tmpFileName depl)); ok (download env d depl)]
          ++ webroot_uploads env depl items.
Proof.
  intros Hrel Hst Hskip Hb Ho Hin Hs3 Hf R. unfold reliable in Hrel.
  rewrite <- Hf in Hrel. services Hrel.
  unfold bundle_at in Hb. rewrite <- Hs3 in Hb.
  inversion R; subst; try congruence; try no_fault.
  - unfold bundle_at in *. congruence.
  - unfold bundle_at in *. rewrite Hb in H1. injection H1 as <-. now destruct (H2 items).
  - unfold bundle_at in *. rewrite Hb in H3. injection H3 as <-.
    rewrite Ho in H4. injection H4 as <-.
    apply UploadLoop_reliable in H5; [|intros n; rewrite faults_replay; apply Hstore|assumption].
    destruct H5 as [-> ->]. split; reflexivity.
Qed.

Lemma webroot_uploads_quiet env depl items :
  Forall (fun l => is_publish (call l) = false) (webroot_uploads env depl items).
Proof. unfold webroot_uploads. apply Forall_forall. intros l Hl.
  apply list_elem_of_fmap in Hl. destruct Hl as (f & -> & _). reflexivity. Qed.

Lemma webroot_uploads_not_pointers env depl items domain :
  Forall (fun l => forall o,
            stores l <> Some (s3client.BucketRegion env, s3client.BucketName env,
                              pointer_key domain, o))
    (webroot_uploads env depl items).
Proof.
  unfold webroot_uploads. apply Forall_forall. intros l Hl.
  apply list_elem_of_fmap in Hl. destruct Hl as (f & -> & _).
  intros o Hs. discriminate Hs.
Qed.

(** The run on a locked project when nothing fails before the lock is
    checked. *)
Lemma locked_run env d w depl proj t o items :
  reliable w ->
  first_deployment (deployments (db w)) (DeploymentID d) = Some depl ->
  first_project (projects (db w)) (deployment.ProjectID depl) = Some proj ->
  State depl = StatePendingBuild \/ State depl = StatePendingDeploy
    \/ State depl = StateFailed ->
  project.LockedAt proj = Some t ->
  SkipWebrootUpload d = false ->
  bundle_at env d depl w = Some o ->
  obj_body o = GzipTar items ->
  intact items ->
  returned env d w = Err ErrProjectLocked
  /\ trace env d w
     = load_calls d depl ++ bundle_calls env d depl ++ webroot_uploads env depl items.
Proof.
  intros Hrel Hd Hp Hst Hlock Hskip Hb Ho Hin.
  assert (Hnot : unready depl = false /\ State depl <> StateDeployed).
  { unfold unready. destruct Hst as [-> | [-> | ->] ]; now split. }
  destruct Hnot as [Hnot Hnd].
  pose proof Hrel as Hrel'. unfold reliable in Hrel'. services Hrel'.
  run_cases env d w.
  1: match goal with H : LoadRun _ _ _ _ |- _ => inversion H; subst end;
     try no_fault; congruence.
  all: use_loaded.
  all: assert (depl0 = depl) as -> by congruence.
  all: assert (proj0 = proj) as -> by congruence.
  all: match goal with H : WebrootRun _ _ _ _ _ _ |- _ =>
         eapply WebrootRun_reliable in H; try eassumption; try reflexivity;
         destruct H as (Hret & ->)
       end.
  all: try discriminate Hret.
  all: try congruence.
  split; reflexivity.
Qed.

(** Claim C6.  On a locked project, with the webroot upload not skipped, a
    deployment that may be published and an archive that unpacks, and
    with no collaborator failing, [Work] loads the deployment and the
    project, downloads the bundle, uploads every regular file of the
    archive, and then returns [ErrProjectLocked]: there is no call after
    the webroot uploads, hence no pointer-document upload and no
    broadcast; the rows, the broadcasts delivered and the pointer document
    of every domain are as they were. *)
Theorem locked_project_aborts_after_webroot env d w depl proj t o items :
  reliable w ->
  first_deployment (deployments (db w)) (DeploymentID d) = Some depl ->
  first_project (projects (db w)) (deployment.ProjectID depl) = Some proj ->
  State depl = StatePendingBuild \/ State depl = StatePendingDeploy
    \/ State depl = StateFailed ->
  project.LockedAt proj = Some t ->
  SkipWebrootUpload d = false ->
  bundle_at env d depl w = Some o ->
  obj_body o = GzipTar items ->
  intact items ->
  returned env d w = Err ErrProjectLocked
  /\ trace env d w
     = load_calls d depl ++ bundle_calls env d depl ++ webroot_uploads env depl items
  /\ db (world_after env d w) = db w
  /\ mq (world_after env d w) = mq w
  /\ forall domain, pointer_at env (world_after env d w) domain = pointer_at env w domain.
Proof.
  intros Hrel Hd Hp Hst Hlock Hskip Hb Ho Hin.
  destruct (locked_run env d w depl proj t o items Hrel Hd Hp Hst Hlock Hskip Hb Ho Hin)
    as [Hr Htr].
  split; [exact Hr|]. split; [exact Htr|].
  split; [|split].
  - destruct (Work_rows env d w) as [(Hok & _)|(_ & Hdb)]; [congruence|exact Hdb].
  - rewrite Work_mq, Htr. apply mq_replay_quiet.
    repeat (apply Forall_app; split); try apply webroot_uploads_quiet;
      repeat first [apply List.Forall_nil | apply List.Forall_cons]; reflexivity.
  - intros domain. unfold pointer_at. rewrite Work_s3, Htr.
    apply s3_replay_untouched.
    repeat (apply Forall_app; split); try apply webroot_uploads_not_pointers;
      repeat first [apply List.Forall_nil | apply List.Forall_cons]; discriminate.
Qed.

(** *** Reads of the deployment, and the lock *)

Lemma WebrootRun_no_read env d depl w tr r :
  WebrootRun env d depl w tr r -> Forall (fun l => reads_deployment (call l) = false) tr.
Proof.
  intros R. apply WebrootRun_calls in R. destruct R as [->|(_ & _ & R)]; [constructor|].
  eapply Forall_impl; [exact R|]. simpl.
  intros l [->|[->|(? & ? & ->)]]; reflexivity.
Qed.

Lemma MetaRun_no_read env depl proj w tr r :
  MetaRun env depl proj w tr r -> Forall (fun l => reads_deployment (call l) = false) tr.
Proof.
  intros R. apply MetaRun_calls in R. eapply Forall_impl; [exact R|]. simpl.
  intros l [->|(? & _ & ->)]; reflexivity.
Qed.

Lemma InvalidationRun_no_read env d names w tr r :
  InvalidationRun env d names w tr r -> Forall (fun l => reads_deployment (call l) = false) tr.
Proof.
  intros R. apply InvalidationRun_calls in R. destruct R as [->|(_ & R)]; [constructor|].
  eapply Forall_impl; [exact R|]. simpl. now intros l ->.
Qed.

Lemma FinishRun_no_read depl proj w tr committed r :
  FinishRun depl proj w tr committed r -> Forall (fun l => reads_deployment (call l) = false) tr.
Proof.
  intros R. apply FinishRun_calls in R. eapply Forall_impl; [exact R|]. simpl.
  intros l. unfold FinishCall. now destruct (call l).
Qed.

(** After its second call a run does not read the deployment. *)
Lemma Work_reads_once env d w :
  Forall (fun l => reads_deployment (call l) = false) (drop 2 (trace env d w)).
Proof.
  run_cases env d w.
  1: match goal with H : LoadRun _ _ _ _ |- _ => inversion H; subst end; simpl;
     repeat first [apply List.Forall_nil | apply List.Forall_cons]; reflexivity.
  all: use_loaded; simpl; apply List.Forall_cons; [reflexivity|].
  all: repeat (apply Forall_app; split).
  all: solve [ eapply WebrootRun_no_read; eassumption
             | eapply MetaRun_no_read; eassumption
             | eapply InvalidationRun_no_read; eassumption
             | eapply FinishRun_no_read; eassumption ].
Qed.

(** Claim C4, as amended.  A run reads the Deployment from the store at its
    start, as its second call, and not again.  What it uploads it uploads
    for the deployment read there, whose state is then neither
    pending_upload nor uploaded: a file of the webroot only if that state
    is not deployed either, a pointer document whatever else that state
    is. *)
Theorem state_is_read_once_at_start env d w :
  Forall (fun l => reads_deployment (call l) = false) (drop 2 (trace env d w))
  /\ forall l,
       l ∈ trace env d w ->
       is_upload (call l) = true ->
       exists depl proj,
         first_deployment (deployments (db w)) (DeploymentID d) = Some depl
         /\ first_project (projects (db w)) (deployment.ProjectID depl) = Some proj
         /\ State depl <> StateUploaded
         /\ State depl <> StatePendingUpload
         /\ ((exists hdr content,
                call l = webroot_upload env (webroot_of depl) hdr content)
             /\ State depl <> StateDeployed
             \/ exists domain,
                  call l = pointer_upload env (pointer_of depl proj) domain).
Proof.
  split; [apply Work_reads_once|].
  intros l Hin Hup. pose proof (Work_calls env d w) as Hcalls.
  rewrite Forall_forall in Hcalls. specialize (Hcalls l Hin).
  assert (Hstates : forall depl, unready depl = false ->
            State depl <> StateUploaded /\ State depl <> StatePendingUpload).
  { intros depl Hu. unfold unready in Hu. apply orb_false_iff in Hu.
    destruct Hu as [Hu1 Hu2]. now apply State_eqb_neq in Hu1, Hu2. }
  destruct Hcalls as [| | |depl proj c (Hd & Hu & Hp) _ Hnd Hw
                      | |depl proj domain (Hd & Hu & Hp) _ _| |depl proj c _ _ Hf];
    try discriminate Hup.
  - destruct Hw as [->|[->|Hw]]; try discriminate Hup.
    destruct (Hstates depl Hu). exists depl, proj. repeat split; auto.
  - destruct (Hstates depl Hu). exists depl, proj. repeat split; eauto.
  - destruct c; try contradiction; discriminate Hup.
Qed.


(** *** Scenario A *)

Lemma mq_replay tr w : mq (replay tr w) = mq w ++ published tr.
Proof.
  revert w. induction tr as [|l tr IH]; intros w; simpl.
  - now rewrite app_nil_r.
  - rewrite IH. destruct l as [c [e|]]; destruct c; simpl; rewrite <- ?app_assoc; reflexivity.
Qed.

Lemma published_app tr1 tr2 : published (tr1 ++ tr2) = published tr1 ++ published tr2.
Proof. unfold published. apply flat_map_app. Qed.

Lemma after_commit_published tail : Forall after_commit tail -> published tail = [].
Proof.
  induction 1 as [|l tail Hl _ IH]; [reflexivity|]. simpl. rewrite IH.
  unfold after_commit in Hl. destruct l as [c [e|]]; destruct c; simpl in *;
    try contradiction; reflexivity.
Qed.

Lemma after_commit_stores tail k :
  Forall after_commit tail -> Forall (fun l => forall o, stores l <> Some (k, o)) tail.
Proof.
  intros H. eapply Forall_impl; [exact H|]. simpl. intros l Hl o.
  unfold after_commit in Hl. destruct l as [c [e|]]; destruct c; simpl in *;
    try contradiction; discriminate.
Qed.

(** The run of a job that publishes the webroot, on an unlocked project,
    when no collaborator fails. *)
Lemma Work_reliable env d w depl proj o items :
  reliable w ->
  first_deployment (deployments (db w)) (DeploymentID d) = Some depl ->
  first_project (projects (db w)) (deployment.ProjectID depl) = Some proj ->
  State depl = StatePendingBuild \/ State depl = StatePendingDeploy
    \/ State depl = StateFailed ->
  project.LockedAt proj = None ->
  SkipWebrootUpload d = false ->
  bundle_at env d depl w = Some o ->
  obj_body o = GzipTar items ->
  intact items ->
  returned env d w = Ret tt
  /\ exists tail,
       Forall after_commit tail
       /\ trace env d w
          = load_calls d depl ++ bundle_calls env d depl ++ webroot_uploads env depl items
            ++ [ok (DBDomainNames (project.ID proj))]
            ++ pointer_uploads env depl proj (bound_domain_names env (db w) proj)
            ++ invalidation_calls env d (bound_domain_names env (db w) proj)
            ++ tx_calls depl proj ++ tail.
Proof.
  intros Hrel Hd Hp Hst Hlock Hskip Hb Ho Hin.
  assert (Hnot : unready depl = false /\ State depl <> StateDeployed).
  { unfold unready. destruct Hst as [-> | [-> | ->] ]; now split. }
  destruct Hnot as [Hnot Hnd].
  pose proof Hrel as Hrel'. unfold reliable in Hrel'. services Hrel'.
  run_cases env d w.
  1: match goal with H : LoadRun _ _ _ _ |- _ => inversion H; subst end;
     try no_fault; congruence.
  all: use_loaded.
  all: assert (depl0 = depl) as -> by congruence.
  all: assert (proj0 = proj) as -> by congruence.
  all: match goal with H : WebrootRun _ _ _ _ _ _ |- _ =>
         eapply WebrootRun_reliable in H; try eassumption; try reflexivity;
         destruct H as (Hret & ->)
       end.
  all: try discriminate Hret.
  all: try congruence.
  all: match goal with H : MetaRun _ _ _ _ _ _ |- _ =>
         inversion H as [|? ? ? Hloop|? ? Hloop]; subst; try no_fault;
         try (apply PointerLoop_reliable in Hloop;
              [discriminate Hloop|intros n; rewrite !faults_replay; apply Hstore]);
         try (apply PointerLoop_done in Hloop; subst)
       end.
  all: repeat (rewrite db_replay in * || rewrite db_after in * ).
  all: match goal with H : InvalidationRun _ _ _ _ _ _ |- _ =>
         inversion H as [Hsk|? Hsk|Hsk]; subst; try no_fault end.
  all: match goal with H : FinishRun _ _ _ _ _ _ |- _ =>
         inversion H as [| | | |tail Htail]; subst; try no_fault end.
  all: split; [reflexivity|]; exists tail; split; [exact Htail|].
  all: unfold invalidation_calls, pointer_uploads, load_calls, bundle_calls, tx_calls;
       rewrite Hsk; rewrite <- ?app_assoc; reflexivity.
Qed.

Lemma scenarioA_run env :
  returned env jobA (scenarioA env) = Ret tt
  /\ exists tail,
       Forall after_commit tail
       /\ trace env jobA (scenarioA env)
          = [ok DBOpen; ok (DBFirstDeployment 42); ok (DBFirstProject 7);
             ok (TempFile "ab12-42-optimized-bundle.tar.gz");
             ok (S3Download (s3client.BucketRegion env) (s3client.BucketName env)
                   "deployments/ab12-42/raw-bundle.tar.gz");
             ok (S3Upload (s3client.BucketRegion env) (s3client.BucketName env)
                   "deployments/ab12-42/webroot/index.html" (Bytes "<html></html>")
                   (strip_params (mime_TypeByExtension env ".html")) "public-read");
             ok (DBDomainNames 7);
             ok (S3Upload (s3client.BucketRegion env) (s3client.BucketName env)
                   ("domains/" +:+ ("foo." +:+ shared_DefaultDomain env) +:+ "/meta.json")
                   (Document (JObject [("prefix", JString "ab12-42")]))
                   "application/json" "public-read");
             ok (MQPublish
                   {| msg_exchange := exchanges_Edges env;
                      msg_routeKey := exchanges_RouteV1Invalidation env;
                      msg_body := JObject [("domains",
                                    JArray [JString ("foo." +:+ shared_DefaultDomain env)])] |});
             ok TxBegin; ok (TxUpdateState 42 StateDeployed); ok (TxUpdateProject 7 42);
             ok TxCommit] ++ tail.
Proof.
  assert (Hrel : reliable (scenarioA env)) by (intros n s; reflexivity).
  assert (Hb : bundle_at env jobA (deployment42 StatePendingDeploy) (scenarioA env)
               = Some raw_bundle) by apply lookup_singleton_eq.
  assert (Hin : intact [index_html]) by (repeat constructor; discriminate).
  exact (Work_reliable env jobA (scenarioA env) (deployment42 StatePendingDeploy)
           (project_foo None) raw_bundle [index_html] Hrel eq_refl eq_refl
           (or_intror (or_introl eq_refl)) eq_refl eq_refl Hb eq_refl Hin).
Qed.

Lemma stored_elsewhere (tail : list Logged) k (o : Object) :
  Forall (fun l => forall o', stores l <> Some (k, o')) tail ->
  Forall (fun l => forall o', stores l = Some (k, o') -> o' = o) tail.
Proof.
  intros H. eapply Forall_impl; [exact H|]. simpl. intros l Hl o' Hs. now destruct (Hl o').
Qed.

(** Claim C7.  Scenario A: deployment 42 with prefix "ab12" of the unlocked
    project "foo" without explicit domains, its raw bundle holding the one
    regular file index.html.  The job succeeds; the object store then
    holds the file under deployments/ab12-42/webroot/index.html,
    public-read, and the pointer document [{"prefix":"ab12-42"}] under
    domains/<default domain of foo>/meta.json; one broadcast has been
    delivered, which lists that default domain and no other; and
    deployment 42 is deployed. *)
Theorem scenario_A_publishes env :
  returned env jobA (scenarioA env) = Ret tt
  /\ s3 (world_after env jobA (scenarioA env))
       !! (s3client.BucketRegion env, s3client.BucketName env,
           "deployments/ab12-42/webroot/index.html")
     = Some {| obj_body := Bytes "<html></html>";
               obj_contentType := strip_params (mime_TypeByExtension env ".html");
               obj_acl := "public-read" |}
  /\ DefaultDomainName env (project_foo None) = "foo." +:+ shared_DefaultDomain env
  /\ s3 (world_after env jobA (scenarioA env))
       !! (s3client.BucketRegion env, s3client.BucketName env,
           "domains/" +:+ DefaultDomainName env (project_foo None) +:+ "/meta.json")
     = Some {| obj_body := Document (JObject [("prefix", JString "ab12-42")]);
               obj_contentType := "application/json";
               obj_acl := "public-read" |}
  /\ mq (world_after env jobA (scenarioA env))
     = [{| msg_exchange := exchanges_Edges env;
           msg_routeKey := exchanges_RouteV1Invalidation env;
           msg_body := JObject [("domains",
                         JArray [JString (DefaultDomainName env (project_foo None))])] |}]
  /\ exists depl,
       first_deployment (deployments (db (world_after env jobA (scenarioA env)))) 42
       = Some depl
       /\ State depl = StateDeployed.
Proof.
  destruct (scenarioA_run env) as (Hr & tail & Htail & Htr).
  split; [exact Hr|]. split; [|split; [reflexivity|split; [|split]]].
  - rewrite Work_s3, Htr. apply s3_replay_stored.
    + apply Forall_app. split; [|apply stored_elsewhere, after_commit_stores, Htail].
      repeat first [apply List.Forall_nil | apply List.Forall_cons];
        intros o' Hs; first [discriminate Hs | cbn in Hs; congruence].
    + apply Exists_app. left. do 5 apply List.Exists_cons_tl.
      apply List.Exists_cons_hd. reflexivity.
  - rewrite Work_s3, Htr. apply s3_replay_stored.
    + apply Forall_app. split; [|apply stored_elsewhere, after_commit_stores, Htail].
      repeat first [apply List.Forall_nil | apply List.Forall_cons];
        intros o' Hs; first [discriminate Hs | cbn in Hs; congruence].
    + apply Exists_app. left. do 7 apply List.Exists_cons_tl.
      apply List.Exists_cons_hd. reflexivity.
  - rewrite Work_mq, mq_replay, Htr, published_app, (after_commit_published tail Htail).
    reflexivity.
  - destruct (Work_rows env jobA (scenarioA env))
      as [(_ & depl & proj & (Hd & _ & Hp) & Hdb)|(Hne & _)]; [|congruence].
    injection Hd as <-. injection Hp as <-. rewrite Hdb.
    eexists. split; reflexivity.
Qed.

(** Counterexample to claim C4 as stated: in scenario A the pointer document
    is uploaded after the file of the webroot with only the query of the
    domain names in between; the Deployment is not read again. *)
Lemma pointers_follow_webroot_without_reread :
  ~ rereads_state_before_pointers (trace local_env jobA (scenarioA local_env)).
Proof.
  intros H.
  specialize (H (take 5 (trace local_env jobA (scenarioA local_env)))
                (nth 5 (trace local_env jobA (scenarioA local_env)) (ok DBOpen))
                [ok (DBDomainNames 7)]
                (nth 7 (trace local_env jobA (scenarioA local_env)) (ok DBOpen))
                (drop 8 (trace local_env jobA (scenarioA local_env)))).
  assert (E : Exists (fun x => reads_deployment (call x) = true) [ok (DBDomainNames 7)]).
  { apply H; vm_compute; reflexivity. }
  inversion E as [? ? Hx|? ? Hx]; subst; [discriminate Hx|inversion Hx].
Qed.



(** *** The theorems at concrete inputs *)

(** Scenario A, in the example environment: the job succeeds and the rows
    are those of the activation. *)
Lemma activation_is_atomic_witness :
  returned local_env jobA (scenarioA local_env) = Ret tt
  /\ db (world_after local_env jobA (scenarioA local_env))
     = activated (db (scenarioA local_env)) (deployment42 StatePendingDeploy)
         (project_foo None) 5000000000.
Proof.
  destruct (activation_is_atomic local_env jobA (scenarioA local_env))
    as [(Hr & depl & proj & Hd & Hp & Hdb & _)|(Hne & _)].
  - injection Hd as <-. injection Hp as <-. split; [exact Hr|exact Hdb].
  - exfalso. apply Hne. vm_compute. reflexivity.
Defined.

(** Scenario C: the deployment is in state uploaded, the job is refused
    with the unexpected-state error and nothing has changed. *)
Lemma unready_deployment_is_refused_witness :
  returned local_env jobA scenarioC = Err errUnexpectedState
  /\ s3 (world_after local_env jobA scenarioC) = s3 scenarioC
  /\ mq (world_after local_env jobA scenarioC) = mq scenarioC
  /\ db (world_after local_env jobA scenarioC) = db scenarioC.
Proof.
  destruct (unready_deployment_is_refused local_env jobA scenarioC
              (deployment42 StateUploaded) eq_refl (or_introl eq_refl))
    as (_ & Hup & _ & Hs3 & Hmq & Hdb).
  split; [|split; [exact Hs3|split; [exact Hmq|exact Hdb]]].
  apply Hup. intros n. reflexivity.
Defined.

(** The deployment is deployed already and the job does not skip the
    webroot: it is refused with the unexpected-state error. *)
Lemma deployed_is_not_uploaded_again_witness :
  returned local_env jobA scenario_deployed = Err errUnexpectedState
  /\ s3 (world_after local_env jobA scenario_deployed) = s3 scenario_deployed.
Proof.
  destruct (deployed_is_not_uploaded_again local_env jobA scenario_deployed
              (deployment42 StateDeployed) eq_refl eq_refl eq_refl)
    as (_ & Hup & _ & Hs3).
  split; [|exact Hs3]. apply Hup.
  - intros n. reflexivity.
  - eexists. reflexivity.
Defined.

(** Scenario A: the pointer document is uploaded for deployment 42, read
    at the start in state pending_deploy. *)
Lemma state_is_read_once_at_start_witness :
  exists depl,
    first_deployment (deployments (db (scenarioA local_env))) 42 = Some depl
    /\ State depl <> StateUploaded
    /\ State depl <> StatePendingUpload.
Proof.
  destruct (state_is_read_once_at_start local_env jobA (scenarioA local_env)) as [_ H].
  destruct (H (ok (pointer_upload local_env
                     (pointer_of (deployment42 StatePendingDeploy) (project_foo None))
                     "foo.rise.cloud")))
    as (depl & proj & Hd & _ & Hs1 & Hs2 & _).
  - apply (list_elem_of_lookup_2 _ 7). vm_compute. reflexivity.
  - reflexivity.
  - exists depl. split; [exact Hd|split; [exact Hs1|exact Hs2]].
Defined.


(** Scenario B: the run uploads index.html and then returns
    [ErrProjectLocked]. *)
Lemma locked_project_aborts_after_webroot_witness :
  returned local_env jobA scenarioB = Err ErrProjectLocked
  /\ trace local_env jobA scenarioB
     = load_calls jobA (deployment42 StatePendingDeploy)
       ++ bundle_calls local_env jobA (deployment42 StatePendingDeploy)
       ++ webroot_uploads local_env (deployment42 StatePendingDeploy) [index_html]
  /\ db (world_after local_env jobA scenarioB) = db scenarioB
  /\ mq (world_after local_env jobA scenarioB) = mq scenarioB.
Proof.
  assert (Hrel : reliable scenarioB) by (intros n s; reflexivity).
  assert (Hin : intact [index_html]) by (repeat constructor; discriminate).
  destruct (locked_project_aborts_after_webroot local_env jobA scenarioB
              (deployment42 StatePendingDeploy) (project_foo (Some 4000000000))
              4000000000 raw_bundle [index_html] Hrel eq_refl eq_refl
              (or_intror (or_introl eq_refl)) eq_refl eq_refl eq_refl eq_refl Hin)
    as (Hr & Htr & Hdb & Hmq & _).
  split; [exact Hr|split; [exact Htr|split; [exact Hdb|exact Hmq]]].
Defined.


(** A job that skips both steps: nothing is broadcast, nothing is
    downloaded, and the three uploads are pointer documents. *)
Lemma skipped_steps_are_not_run_witness :
  mq (world_after local_env job_skipping scenario_domains) = []
  /\ Forall (fun l => is_download (call l) = false
                      /\ (is_upload (call l) = true ->
                          exists metaJson domain,
                            call l = pointer_upload local_env metaJson domain))
       (trace local_env job_skipping scenario_domains).
Proof.
  destruct (skipped_steps_are_not_run local_env job_skipping scenario_domains) as [H1 H2].
  destruct (H1 eq_refl) as [_ Hmq]. split; [exact Hmq|exact (H2 eq_refl)].
Defined.


(** * Further properties *)

Lemma LoadRun_database d w tr r :
  LoadRun d w tr r -> Forall (fun l => service (call l) = Database) tr.
Proof.
  intros R. inversion R; subst;
    repeat first [apply List.Forall_nil | apply List.Forall_cons]; reflexivity.
Qed.

Lemma database_calls_store_nothing tr w :
  Forall (fun l => service (call l) = Database) tr ->
  s3 (replay tr w) = s3 w /\ mq (replay tr w) = mq w.
Proof.
  revert w. induction tr as [|l tr IH]; intros w H; [split; reflexivity|].
  inversion H as [|? ? Hl Htr]; subst. simpl.
  destruct (IH (after w l) Htr) as [-> ->].
  destruct l as [c [e|]]; destruct c; simpl in *; try discriminate; split; reflexivity.
Qed.

(** A job that cannot be loaded - a payload that does not decode, a
    deployment that the store does not hold, or one whose project it does
    not hold - makes [Work] return an error (the decoder's, or
    [RecordNotFound], when the database answers) after calls to the
    database only: nothing is stored, broadcast or changed. *)
Theorem unloadable_job_is_refused env data w :
  unloadable data w ->
  (exists e, snd (Work env data w) = Err e)
  /\ (database_up w ->
      snd (Work env data w)
      = Err match data with Malformed msg => ErrSyntax msg | Decoded _ => RecordNotFound end)
  /\ Forall (fun l => service (call l) = Database) (trace_of w (fst (Work env data w)))
  /\ s3 (fst (Work env data w)) = s3 w
  /\ mq (fst (Work env data w)) = mq w
  /\ db (fst (Work env data w)) = db w.
Proof.
  destruct data as [msg|d]; simpl.
  { intros _. split; [eexists; reflexivity|]. split; [reflexivity|].
    unfold trace_of. simpl. rewrite drop_all. repeat split; constructor. }
  intros Hm. unfold database_up.
  pose proof (Work_run env d w) as R.
  destruct (Work env (Decoded d) w) as [w' r]; cbn [fst snd] in R |- *.
  inversion R; subst; clear R; rewrite ?trace_of_replay;
    try (use_loaded; destruct Hm as [Hm|(depl' & Hd' & _ & Hp')]; congruence).
  match goal with H : LoadRun _ _ _ _ |- _ =>
    pose proof (LoadRun_database _ _ _ _ H) as Hdb end.
  destruct (database_calls_store_nothing tr w Hdb) as [Hs3 Hmq].
  split; [eexists; reflexivity|].
  split; [|split; [exact Hdb|split; [exact Hs3|split; [exact Hmq|apply db_replay]]]].
  intros Hup.
  match goal with H : LoadRun _ _ _ _ |- _ => inversion H; subst end;
    try no_fault; try reflexivity;
    destruct Hm as [Hm|(depl' & Hd' & Hu' & Hp')]; congruence.
Qed.

(* ---- uploads ---- *)

Lemma UploadLoop_entries env webroot items w tr r :
  UploadLoop env webroot items w tr r ->
  Forall (fun l => exists hdr content,
            TarEntry hdr content ∈ items /\ hdr_IsDir hdr = false
            /\ call l = webroot_upload env webroot hdr content) tr.
Proof.
  induction 1; repeat first [apply List.Forall_nil | apply List.Forall_cons]; simpl.
  - eapply Forall_impl; [eassumption|]. simpl. intros l (h & c & Hin & Hd & Hc).
    exists h, c. split; [now right|auto].
  - exists hdr, content. split; [left|auto].
  - exists hdr, content. split; [left|auto].
  - eapply Forall_impl; [eassumption|]. simpl. intros l (h & c & Hin & Hd & Hc).
    exists h, c. split; [now right|auto].
Qed.

(** A call of the publication of the webroot that uploads carries a
    regular file of the bundle that the run has downloaded. *)
Lemma WebrootRun_entries env d depl w tr r :
  WebrootRun env d depl w tr r ->
  Forall (fun l => is_upload (call l) = true ->
            SkipWebrootUpload d = false
            /\ exists o items hdr content,
                 bundle_at env d depl w = Some o
                 /\ obj_body o = GzipTar items
                 /\ TarEntry hdr content ∈ items
                 /\ hdr_IsDir hdr = false
                 /\ call l = webroot_upload env (webroot_of depl) hdr content) tr.
Proof.
  intros R. inversion R; subst;
    repeat first [apply List.Forall_nil | apply List.Forall_cons]; simpl; try discriminate.
  match goal with H : UploadLoop _ _ _ _ _ _ |- _ => apply UploadLoop_entries in H end.
  eapply Forall_impl; [eassumption|]. simpl. intros l (h & c & Hin & Hd & Hc) _.
  split; [assumption|]. exists o, items, h, c. auto.
Qed.

Lemma BucketRegion_nonempty env : s3client.BucketRegion env <> "".
Proof.
  unfold s3client.BucketRegion.
  destruct (String.eqb (S3_BUCKET_REGION env) "") eqn:E; [discriminate|].
  now apply String.eqb_neq in E.
Qed.

Lemma BucketName_nonempty env : s3client.BucketName env <> "".
Proof.
  unfold s3client.BucketName.
  destruct (String.eqb (S3_BUCKET_NAME env) "") eqn:E; [discriminate|].
  now apply String.eqb_neq in E.
Qed.

Lemma append_assoc (a b c : string) : (a +:+ b) +:+ c = a +:+ (b +:+ c).
Proof.
  induction a as [|x a IH]; [reflexivity|].
  change (String x ((a +:+ b) +:+ c) = String x (a +:+ (b +:+ c))). now rewrite IH.
Qed.

Lemma Work_uploads env d w l :
  l ∈ trace env d w ->
  is_upload (call l) = true ->
  upload_of_the_job env d w (call l).
Proof.
  intros Hin Hup. unfold upload_of_the_job. revert Hin.
  run_cases env d w; intros Hin;
    repeat match goal with
      | H : _ ∈ _ ++ _ |- _ => apply elem_of_app in H; destruct H as [H|H]
      end.
  all: try (exfalso;
            match goal with H : LoadRun _ _ ?t _, Hl : ?x ∈ ?t |- _ =>
              apply LoadRun_database in H; rewrite Forall_forall in H;
              specialize (H x Hl); destruct (call x); discriminate
            end).
  all: use_loaded.
  all: try (exfalso;
            match goal with H : InvalidationRun _ _ _ _ ?t _, Hl : ?x ∈ ?t |- _ =>
              apply InvalidationRun_calls in H; destruct H as [->|(_ & H)];
              [now apply elem_of_nil in Hl|];
              rewrite Forall_forall in H; specialize (H x Hl); rewrite H in Hup;
              discriminate Hup
            end).
  all: try (exfalso;
            match goal with H : FinishRun _ _ _ ?t _ _, Hl : ?x ∈ ?t |- _ =>
              apply FinishRun_calls in H; rewrite Forall_forall in H;
              specialize (H x Hl); destruct (call x); try discriminate Hup; contradiction
            end).
  all: exists depl, proj; (split; [now repeat split|]).
  all: try match goal with H : WebrootRun _ _ _ _ ?t _, Hl : ?x ∈ ?t |- _ =>
         pose proof (WebrootRun_calls _ _ _ _ _ _ H) as Hst;
         apply WebrootRun_entries in H; rewrite Forall_forall in H;
         destruct (H x Hl Hup) as (Hskip & o & items & hdr & content & Hb & Ho & Hi & Hd & Hc);
         destruct Hst as [->|(_ & Hst & _)]; [now apply elem_of_nil in Hl|];
         left; split; [exact Hskip|]; split; [exact Hst|];
         exists o, items, hdr, content; repeat (split; [assumption|]);
         rewrite Hc; unfold webroot_upload, webroot_of;
         now rewrite !append_assoc
       end.
  all: match goal with H : MetaRun _ _ _ _ ?t _, Hl : ?x ∈ ?t |- _ =>
         apply MetaRun_calls in H; rewrite Forall_forall in H;
         destruct (H x Hl) as [Hc|(domain & Hdom & Hc)];
         [rewrite Hc in Hup; discriminate Hup|];
         rewrite db_replay in Hdom;
         right; split; [assumption|]; exists domain; split; [exact Hdom|exact Hc]
       end.
Qed.

(* ---- the frame of the object store ---- *)

(** What a call of a run stores, it stores in the bucket of the process,
    under the webroot of the deployment or as a pointer document. *)
Lemma Work_stores env d w depl l k o :
  first_deployment (deployments (db w)) (DeploymentID d) = Some depl ->
  WorkCall env d w (call l) ->
  stores l = Some (k, o) ->
  exists key,
    k = (s3client.BucketRegion env, s3client.BucketName env, key)
    /\ ((exists name, key = "deployments/" +:+ PrefixID depl +:+ "/webroot/" +:+ name)
        \/ exists domain, key = "domains/" +:+ domain +:+ "/meta.json").
Proof.
  intros Hdepl Hc Hs. destruct l as [c [e|]]; [discriminate Hs|].
  unfold stores in Hs. simpl in Hs, Hc.
  destruct Hc as [| | |depl' proj' c (Hd' & _ & _) _ _ Hw
                  | |depl' proj' domain' _ _ _| |depl' proj' c _ _ Hf];
    try discriminate Hs.
  - assert (depl' = depl) as -> by congruence.
    destruct Hw as [->|[->|(hdr & content & ->)]]; try discriminate Hs.
    unfold webroot_upload, webroot_of in Hs. injection Hs as <- _.
    eexists. split; [reflexivity|]. left. exists (path_Clean (hdr_Name hdr)).
    now rewrite !append_assoc.
  - unfold pointer_upload in Hs. injection Hs as <- _.
    eexists. split; [reflexivity|]. right. now exists domain'.
  - destruct c; try contradiction; discriminate Hs.
Qed.

(** A run leaves every object as it was whose key is neither under the
    webroot of the deployment nor the pointer document of a domain; in
    particular both bundles of the deployment. *)
Theorem bundles_and_other_objects_are_kept env d w depl :
  first_deployment (deployments (db w)) (DeploymentID d) = Some depl ->
  (forall region bucket key,
     (region, bucket) <> (s3client.BucketRegion env, s3client.BucketName env)
     \/ ((forall name, key <> "deployments/" +:+ PrefixID depl +:+ "/webroot/" +:+ name)
         /\ (forall domain, key <> "domains/" +:+ domain +:+ "/meta.json")) ->
     s3 (world_after env d w) !! (region, bucket, key) = s3 w !! (region, bucket, key))
  /\ (forall bundle,
        bundle = "raw-bundle.tar.gz" \/ bundle = "optimized-bundle.tar.gz" ->
        s3 (world_after env d w)
          !! (s3client.BucketRegion env, s3client.BucketName env,
              "deployments/" +:+ PrefixID depl +:+ "/" +:+ bundle)
        = s3 w !! (s3client.BucketRegion env, s3client.BucketName env,
                   "deployments/" +:+ PrefixID depl +:+ "/" +:+ bundle)).
Proof.
  intros Hdepl.
  assert (Hframe : forall region bucket key,
     (region, bucket) <> (s3client.BucketRegion env, s3client.BucketName env)
     \/ ((forall name, key <> "deployments/" +:+ PrefixID depl +:+ "/webroot/" +:+ name)
         /\ (forall domain, key <> "domains/" +:+ domain +:+ "/meta.json")) ->
     s3 (world_after env d w) !! (region, bucket, key) = s3 w !! (region, bucket, key)).
  { intros region bucket key Hk. rewrite Work_s3. apply s3_replay_untouched.
    eapply Forall_impl; [apply Work_calls|]. simpl. intros l Hc o Hs.
    destruct (Work_stores env d w depl l _ o Hdepl Hc Hs) as (key' & Hk' & Hshape).
    injection Hk' as -> -> ->.
    destruct Hk as [Hk|[Hw Hp]]; [now apply Hk|].
    destruct Hshape as [(name & Hn)|(domain & Hn)]; [now apply (Hw name)|now apply (Hp domain)]. }
  split; [exact Hframe|].
  intros bundle Hb. apply Hframe. right. split.
  - intros name Hn. apply append_cancel_l in Hn. apply append_cancel_l in Hn.
    destruct Hb as [-> | ->]; discriminate Hn.
  - intros domain Hn. discriminate Hn.
Qed.

(* ---- content types ---- *)

Lemma strip_params_no_semicolon s : has_semicolon (strip_params s) = false.
Proof.
  induction s as [|c s IH]; [reflexivity|]. simpl.
  destruct (Ascii.eqb c semicolon) eqn:E; [reflexivity|]. simpl. now rewrite E.
Qed.

Lemma strip_params_prefix s :
  s = strip_params s \/ exists params, s = strip_params s +:+ ";" +:+ params.
Proof.
  induction s as [|c s IH]; [now left|]. simpl.
  destruct (Ascii.eqb c semicolon) eqn:E.
  - apply Ascii.eqb_eq in E. subst c. right. now exists s.
  - destruct IH as [IH|(params & IH)].
    + left. now rewrite <- IH.
    + right. exists params. change (String c s = String c (strip_params s +:+ ";" +:+ params)).
      now rewrite <- IH.
Qed.

(** Every upload of a run goes to the configured bucket, whose region and
    name are never empty, and is either a regular file of the bundle that
    the run downloads, stored under the webroot of the deployment at its
    cleaned name, with the media type of its extension and readable by
    all, or the pointer document of a domain bound to the project. *)
Theorem uploaded_files_come_from_the_bundle env d w l :
  l ∈ trace env d w ->
  is_upload (call l) = true ->
  s3client.BucketRegion env <> "" /\ s3client.BucketName env <> ""
  /\ exists depl proj,
       loaded d w depl proj
       /\ ((SkipWebrootUpload d = false
            /\ State depl <> StateDeployed
            /\ exists o items hdr content,
                 bundle_at env d depl w = Some o
                 /\ obj_body o = GzipTar items
                 /\ TarEntry hdr content ∈ items
                 /\ hdr_IsDir hdr = false
                 /\ call l
                    = S3Upload (s3client.BucketRegion env) (s3client.BucketName env)
                        ("deployments/" +:+ PrefixID depl +:+ "/webroot/"
                         +:+ path_Clean (hdr_Name hdr))
                        (Bytes content)
                        (strip_params
                           (mime_TypeByExtension env (filepath_Ext (path_Clean (hdr_Name hdr)))))
                        "public-read")
           \/ (project.LockedAt proj = None
               /\ exists domain,
                    domain ∈ bound_domain_names env (db w) proj
                    /\ call l
                       = S3Upload (s3client.BucketRegion env) (s3client.BucketName env)
                           ("domains/" +:+ domain +:+ "/meta.json")
                           (Document (meta_json (PrefixID depl) (project.ForceHTTPS proj)))
                           "application/json" "public-read")).
Proof.
  intros Hin Hup.
  split; [apply BucketRegion_nonempty|]. split; [apply BucketName_nonempty|].
  exact (Work_uploads env d w l Hin Hup).
Qed.

(** The content type of an upload holds no semicolon: it is
    application/json, or what the MIME table gives for the extension of
    the stored name, cut before its parameters. *)
Theorem content_type_has_no_parameters env d w l region bucket key body contentType acl :
  l ∈ trace env d w ->
  call l = S3Upload region bucket key body contentType acl ->
  has_semicolon contentType = false
  /\ (contentType = "application/json"
      \/ exists prefixID name,
           key = "deployments/" +:+ prefixID +:+ "/webroot/" +:+ name
           /\ (mime_TypeByExtension env (filepath_Ext name) = contentType
               \/ exists params,
                    mime_TypeByExtension env (filepath_Ext name)
                    = contentType +:+ ";" +:+ params)).
Proof.
  intros Hin Hc.
  assert (Hup : is_upload (call l) = true) by now rewrite Hc.
  destruct (Work_uploads env d w l Hin Hup)
    as (depl & proj & _ & [(_ & _ & o & items & hdr & content & _ & _ & _ & _ & Hl)
                          |(_ & domain & _ & Hl)]);
    rewrite Hc in Hl; injection Hl as -> -> -> -> -> ->.
  - split; [apply strip_params_no_semicolon|]. right.
    exists (PrefixID depl), (path_Clean (hdr_Name hdr)). split; [reflexivity|].
    destruct (strip_params_prefix
                (mime_TypeByExtension env (filepath_Ext (path_Clean (hdr_Name hdr)))))
      as [H|(params & H)]; [left|right; exists params]; now rewrite <- H.
  - split; [reflexivity|now left].
Qed.

(* ---- the analytics ---- *)

Lemma LoadRun_not_finish d w tr r :
  LoadRun d w tr r -> Forall (fun l => ~ FinishCall (call l)) tr.
Proof.
  intros R. inversion R; subst;
    repeat first [apply List.Forall_nil | apply List.Forall_cons]; simpl; auto.
Qed.

Lemma WebrootRun_not_finish env d depl w tr r :
  WebrootRun env d depl w tr r -> Forall (fun l => ~ FinishCall (call l)) tr.
Proof.
  intros R. apply WebrootRun_calls in R. destruct R as [->|(_ & _ & R)]; [constructor|].
  eapply Forall_impl; [exact R|]. simpl.
  intros l [->|[->|(? & ? & ->)]]; simpl; auto.
Qed.

Lemma MetaRun_not_finish env depl proj w tr r :
  MetaRun env depl proj w tr r -> Forall (fun l => ~ FinishCall (call l)) tr.
Proof.
  intros R. apply MetaRun_calls in R. eapply Forall_impl; [exact R|]. simpl.
  intros l [->|(? & _ & ->)]; simpl; auto.
Qed.

Lemma InvalidationRun_not_finish env d names w tr r :
  InvalidationRun env d names w tr r -> Forall (fun l => ~ FinishCall (call l)) tr.
Proof.
  intros R. apply InvalidationRun_calls in R. destruct R as [->|(_ & R)]; [constructor|].
  eapply Forall_impl; [exact R|]. simpl. intros l ->. simpl. auto.
Qed.

(** The calls of a run before its transaction are not calls of the
    transaction or of the analytics. *)
Ltac before_finish :=
  repeat match goal with
    | H : _ ∈ _ ++ _ |- _ => apply elem_of_app in H; destruct H as [H|H]
    end;
  try (exfalso;
       match goal with
       | Hl : ?x ∈ ?t, F : FinishCall (call ?x) |- _ =>
           let N := fresh "N" in
           assert (N : Forall (fun l => ~ FinishCall (call l)) t)
             by solve [ eapply LoadRun_not_finish; eassumption
                      | eapply WebrootRun_not_finish; eassumption
                      | eapply MetaRun_not_finish; eassumption
                      | eapply InvalidationRun_not_finish; eassumption ];
           rewrite Forall_forall in N; exact (N x Hl F)
       end).

(** A run has committed exactly when [Work] returns nil.  The user is
    looked up and the event is tracked only after the commit, and then the
    run returns nil whatever these calls answer. *)
Theorem analytics_is_best_effort env d w :
  (ok TxCommit ∈ trace env d w <-> returned env d w = Ret tt)
  /\ forall l,
       l ∈ trace env d w ->
       service (call l) = Analytics \/ (exists id, call l = DBFirstUser id) ->
       returned env d w = Ret tt
       /\ exists pre post, trace env d w = pre ++ ok TxCommit :: post /\ l ∈ post.
Proof.
  split.
  - split.
    + intros Hin. assert (F : FinishCall (call (ok TxCommit))) by exact I.
      revert Hin. run_cases env d w; intros Hin; before_finish.
      match goal with H : FinishRun _ _ _ _ _ _ |- _ => inversion H; subst end;
        try reflexivity; exfalso;
        repeat (apply elem_of_cons in Hin; destruct Hin as [Hin|Hin]; [discriminate Hin|]);
        try (apply elem_of_nil in Hin; contradiction).
      all: apply list_elem_of_singleton in Hin; subst rb;
           match goal with Hrb : call _ = TxRollback |- _ => discriminate Hrb end.
    + run_cases env d w; try discriminate.
      match goal with H : FinishRun _ _ _ _ _ _ |- _ => inversion H; subst end;
        try discriminate.
      intros _. apply elem_of_app. right. apply elem_of_app. left.
      apply (list_elem_of_lookup_2 _ 3). reflexivity.
  - intros l Hin Hl.
    assert (F : FinishCall (call l)).
    { destruct Hl as [Hl|(id & ->)]; [|exact I]. now destruct (call l). }
    revert Hin. run_cases env d w; intros Hin; before_finish.
    match goal with H : FinishRun _ _ _ _ _ _ |- _ => inversion H; subst end.
    1-4: exfalso;
         repeat (apply elem_of_cons in Hin; destruct Hin as [Hin|Hin];
                 [subst l; destruct Hl as [Hl|(id & Hl)];
                  try match goal with Hrb : call _ = TxRollback |- _ => rewrite Hrb in Hl end;
                  simpl in Hl; discriminate Hl|]);
         try (apply elem_of_nil in Hin; contradiction).
    split; [reflexivity|].
    apply elem_of_app in Hin. destruct Hin as [Hin|Hin].
    { exfalso.
      repeat (apply elem_of_cons in Hin; destruct Hin as [Hin|Hin];
              [subst l; destruct Hl as [Hl|(id & Hl)]; simpl in Hl; discriminate Hl|]).
      apply elem_of_nil in Hin; contradiction. }
    exists ((tr1 ++ tr2 ++ tr3 ++ tr4)
            ++ [ok TxBegin; ok (TxUpdateState (deployment.ID depl) StateDeployed);
                ok (TxUpdateProject (project.ID proj) (deployment.ID depl))]), tail.
    split; [|exact Hin]. rewrite <- !app_assoc. reflexivity.
Qed.

(* ---- damaged archives ---- *)

Lemma UploadLoop_damaged env webroot good msg rest w tr r :
  (forall n, faults w n ObjectStore = None) ->
  intact good ->
  UploadLoop env webroot (good ++ TarDamaged msg :: rest) w tr r ->
  r = Err (ErrTarHeader msg)
  /\ tr = map (fun f => ok (webroot_upload env webroot (fst f) (snd f))) (regular_files good).
Proof.
  intros Hup Hin. revert w tr r Hup.
  induction good as [|item good IH]; intros w tr r Hup R; simpl in R.
  - inversion R; subst. split; reflexivity.
  - inversion Hin as [|? ? Hitem Hgood]; subst.
    inversion R; subst; simpl.
    + now destruct (Hitem msg0).
    + match goal with H : hdr_IsDir _ = true |- _ => rewrite H end. simpl. eauto.
    + no_fault.
    + match goal with H : hdr_IsDir _ = false |- _ => rewrite H end. simpl.
      match goal with H : UploadLoop _ _ _ _ _ _ |- _ =>
        apply IH in H; [destruct H as [-> ->]; split; reflexivity|assumption|]
      end.
      intros n. rewrite faults_after. apply Hup.
Qed.

Lemma s3_replay_some tr w region bucket key body contentType acl :
  ok (S3Upload region bucket key body contentType acl) ∈ tr ->
  is_Some (s3 (replay tr w) !! (region, bucket, key)).
Proof.
  induction tr as [|l tr IH] using rev_ind; intros Hin; [now apply elem_of_nil in Hin|].
  rewrite replay_snoc, s3_after.
  apply elem_of_app in Hin. destruct Hin as [Hin|Hin].
  - destruct (stores l) as [[k o]|]; [|auto].
    destruct (decide (k = (region, bucket, key))) as [->|Hne].
    + rewrite lookup_insert_eq. eauto.
    + rewrite lookup_insert_ne by assumption. auto.
  - apply list_elem_of_singleton in Hin. subst l. simpl.
    rewrite lookup_insert_eq. eauto.
Qed.

(** When the archive breaks off while it is read, [Work] returns the
    reader's error after the uploads of the files before the damage:
    these are in the webroot afterwards, and no row, pointer document or
    broadcast has changed. *)
Theorem damaged_archive_leaves_partial_webroot env d w depl proj o good msg rest :
  reliable w ->
  first_deployment (deployments (db w)) (DeploymentID d) = Some depl ->
  first_project (projects (db w)) (deployment.ProjectID depl) = Some proj ->
  State depl = StatePendingBuild \/ State depl = StatePendingDeploy
    \/ State depl = StateFailed ->
  SkipWebrootUpload d = false ->
  bundle_at env d depl w = Some o ->
  obj_body o = GzipTar (good ++ TarDamaged msg :: rest) ->
  intact good ->
  returned env d w = Err (ErrTarHeader msg)
  /\ trace env d w
     = load_calls d depl ++ bundle_calls env d depl ++ webroot_uploads env depl good
  /\ (forall hdr content,
        (hdr, content) ∈ regular_files good ->
        is_Some (s3 (world_after env d w)
                   !! (s3client.BucketRegion env, s3client.BucketName env,
                       webroot_of depl +:+ "/" +:+ path_Clean (hdr_Name hdr))))
  /\ db (world_after env d w) = db w
  /\ mq (world_after env d w) = mq w
  /\ forall domain, pointer_at env (world_after env d w) domain = pointer_at env w domain.
Proof.
  intros Hrel Hd Hp Hst Hskip Hb Ho Hin.
  assert (Hnot : unready depl = false /\ State depl <> StateDeployed).
  { unfold unready. destruct Hst as [-> | [-> | ->] ]; now split. }
  destruct Hnot as [Hnot Hnd].
  assert (Hrun : returned env d w = Err (ErrTarHeader msg)
                 /\ trace env d w
                    = load_calls d depl ++ bundle_calls env d depl
                      ++ webroot_uploads env depl good).
  { pose proof Hrel as Hrel'. unfold reliable in Hrel'. services Hrel'.
    run_cases env d w.
    1: match goal with H : LoadRun _ _ _ _ |- _ => inversion H; subst end;
       try no_fault; congruence.
    all: use_loaded.
    all: assert (depl0 = depl) as -> by congruence.
    all: assert (proj0 = proj) as -> by congruence.
    all: match goal with H : WebrootRun _ _ _ _ _ _ |- _ =>
           inversion H; subst; try congruence; try no_fault end.
    all: unfold bundle_at in *; simpl s3 in *.
    all: try congruence.
    all: try match goal with
           | Hb' : s3 _ !! _ = Some ?o', Hn : forall items, obj_body ?o' <> _ |- _ =>
               assert (o' = o) as -> by congruence; now destruct (Hn _)
           end.
    all: match goal with
         | Hb' : s3 _ !! _ = Some ?o', Ho' : obj_body ?o' = GzipTar ?items',
           Hl : UploadLoop _ _ ?items' _ _ _ |- _ =>
             assert (o' = o) as -> by congruence;
             rewrite Ho in Ho'; injection Ho' as <-;
             apply UploadLoop_damaged in Hl;
             [destruct Hl as [Hr ->]
             |intros n; rewrite faults_replay; apply Hstore|assumption]
         end.
    all: try discriminate Hr.
    injection Hr as ->. split; reflexivity. }
  destruct Hrun as [Hr Htr]. split; [exact Hr|]. split; [exact Htr|].
  split; [|split; [|split] ].
  - intros hdr content Hf. rewrite Work_s3, Htr.
    eapply s3_replay_some. apply elem_of_app. right. apply elem_of_app. right.
    unfold webroot_uploads. apply list_elem_of_fmap.
    exists (hdr, content). split; [reflexivity|exact Hf].
  - destruct (Work_rows env d w) as [(Hok & _)|(_ & Hdb)]; [congruence|exact Hdb].
  - rewrite Work_mq, Htr. apply mq_replay_quiet.
    repeat (apply Forall_app; split); try apply webroot_uploads_quiet;
      repeat first [apply List.Forall_nil | apply List.Forall_cons]; reflexivity.
  - intros domain. unfold pointer_at. rewrite Work_s3, Htr.
    apply s3_replay_untouched.
    repeat (apply Forall_app; split); try apply webroot_uploads_not_pointers;
      repeat first [apply List.Forall_nil | apply List.Forall_cons]; discriminate.
Qed.

Lemma in_order_nil : in_order [].
Proof. intros i j l l' _ H. discriminate H. Qed.

Lemma in_order_app a b b' c tr1 tr2 :
  (b <= b')%nat ->
  in_order tr1 -> in_order tr2 -> between a b tr1 -> between b' c tr2 ->
  in_order (tr1 ++ tr2).
Proof.
  intros Hbb O1 O2 B1 B2 i j l l' Hij Hi Hj.
  unfold between in *. rewrite Forall_forall in B1, B2.
  apply lookup_app_Some in Hi, Hj.
  destruct Hi as [Hi|[Hi1 Hi]], Hj as [Hj|[Hj1 Hj]].
  - eapply O1; eassumption.
  - apply list_elem_of_lookup_2 in Hi, Hj.
    specialize (B1 _ Hi). specialize (B2 _ Hj). lia.
  - apply lookup_lt_Some in Hj. lia.
  - eapply (O2 (i - length tr1)%nat (j - length tr1)%nat); [lia|eassumption..].
Qed.

Lemma between_app a b a' b' lo hi tr1 tr2 :
  (lo <= a)%nat -> (lo <= a')%nat -> (b <= hi)%nat -> (b' <= hi)%nat ->
  between a b tr1 -> between a' b' tr2 -> between lo hi (tr1 ++ tr2).
Proof.
  intros ? ? ? ? B1 B2. apply Forall_app. split.
  - eapply Forall_impl; [exact B1|]. simpl. intros; lia.
  - eapply Forall_impl; [exact B2|]. simpl. intros; lia.
Qed.

Lemma flat_in_order k tr : Forall (fun l => phase (call l) = k) tr -> in_order tr.
Proof.
  intros H i j l l' _ Hi Hj. rewrite Forall_forall in H.
  apply list_elem_of_lookup_2 in Hi, Hj. rewrite (H _ Hi), (H _ Hj). lia.
Qed.

Lemma flat_between k lo hi tr :
  (lo <= k <= hi)%nat -> Forall (fun l => phase (call l) = k) tr -> between lo hi tr.
Proof. intros Hk H. eapply Forall_impl; [exact H|]. simpl. intros; lia. Qed.

Ltac flat :=
  first [ eapply flat_in_order | eapply flat_between; [|] ];
  try lia;
  first [ eassumption
        | repeat first [apply List.Forall_nil | apply List.Forall_cons]; reflexivity ].

Lemma LoadRun_phase d w tr r :
  LoadRun d w tr r -> in_order tr /\ between 0 0 tr.
Proof.
  intros R. inversion R; subst; split;
    first [ eapply (flat_in_order 0) | eapply (flat_between 0); [lia|] ];
    repeat first [apply List.Forall_nil | apply List.Forall_cons]; reflexivity.
Qed.

Lemma UploadLoop_phase env depl items w tr r :
  UploadLoop env (webroot_of depl) items w tr r ->
  Forall (fun l => phase (call l) = 2%nat) tr.
Proof.
  intros R. apply UploadLoop_calls in R.
  eapply Forall_impl; [exact R|]. simpl. intros l (hdr & content & ->). reflexivity.
Qed.

Lemma WebrootRun_phase env d depl w tr r :
  WebrootRun env d depl w tr r -> in_order tr /\ between 1 2 tr.
Proof.
  intros R. inversion R; subst;
    try (split;
         [ eapply (flat_in_order 1) | eapply (flat_between 1); [lia|] ];
         repeat first [apply List.Forall_nil | apply List.Forall_cons]; reflexivity).
  match goal with H : UploadLoop _ _ _ _ _ _ |- _ => apply UploadLoop_phase in H end.
  change (ok (TempFile (tmpFileName depl)) :: ok (download env d depl) :: tr0)
    with ([ok (TempFile (tmpFileName depl)); ok (download env d depl)] ++ tr0).
  assert (Hone : Forall (fun l => phase (call l) = 1%nat)
                 [ok (TempFile (tmpFileName depl)); ok (download env d depl)])
    by (repeat first [apply List.Forall_nil | apply List.Forall_cons]; reflexivity).
  split.
  - eapply (in_order_app 1 1 2 2); [lia| | | |].
    + eapply flat_in_order; exact Hone.
    + eapply flat_in_order; eassumption.
    + eapply flat_between; [|exact Hone]; lia.
    + eapply flat_between; [|eassumption]; lia.
  - eapply (between_app 1 1 2 2); try lia.
    + eapply flat_between; [|exact Hone]; lia.
    + eapply flat_between; [|eassumption]; lia.
Qed.

Lemma PointerLoop_phase env metaJson names w tr r :
  PointerLoop env metaJson names w tr r -> Forall (fun l => phase (call l) = 4%nat) tr.
Proof.
  intros R. apply PointerLoop_calls in R.
  eapply Forall_impl; [exact R|]. simpl. intros l (domain & _ & ->).
  now destruct domain.
Qed.

Lemma MetaRun_phase env depl proj w tr r :
  MetaRun env depl proj w tr r -> in_order tr /\ between 3 4 tr.
Proof.
  intros R. inversion R; subst.
  - split; [ eapply (flat_in_order 3) | eapply (flat_between 3); [lia|] ];
      repeat first [apply List.Forall_nil | apply List.Forall_cons]; reflexivity.
  - match goal with H : PointerLoop _ _ _ _ _ _ |- _ => apply PointerLoop_phase in H end.
    change (ok (DBDomainNames (project.ID proj)) :: tr0)
      with ([ok (DBDomainNames (project.ID proj))] ++ tr0).
    assert (Hthree : Forall (fun l => phase (call l) = 3%nat) [ok (DBDomainNames (project.ID proj))])
      by (repeat first [apply List.Forall_nil | apply List.Forall_cons]; reflexivity).
    split.
    + eapply (in_order_app 3 3 4 4); [lia| | | |].
      * eapply flat_in_order; exact Hthree.
      * eapply flat_in_order; eassumption.
      * eapply flat_between; [|exact Hthree]; lia.
      * eapply flat_between; [|eassumption]; lia.
    + eapply (between_app 3 3 4 4); try lia.
      * eapply flat_between; [|exact Hthree]; lia.
      * eapply flat_between; [|eassumption]; lia.
  - match goal with H : PointerLoop _ _ _ _ _ _ |- _ => apply PointerLoop_phase in H end.
    change (ok (DBDomainNames (project.ID proj)) :: tr0)
      with ([ok (DBDomainNames (project.ID proj))] ++ tr0).
    assert (Hthree : Forall (fun l => phase (call l) = 3%nat) [ok (DBDomainNames (project.ID proj))])
      by (repeat first [apply List.Forall_nil | apply List.Forall_cons]; reflexivity).
    split.
    + eapply (in_order_app 3 3 4 4); [lia| | | |].
      * eapply flat_in_order; exact Hthree.
      * eapply flat_in_order; eassumption.
      * eapply flat_between; [|exact Hthree]; lia.
      * eapply flat_between; [|eassumption]; lia.
    + eapply (between_app 3 3 4 4); try lia.
      * eapply flat_between; [|exact Hthree]; lia.
      * eapply flat_between; [|eassumption]; lia.
Qed.

Lemma InvalidationRun_phase env d names w tr r :
  InvalidationRun env d names w tr r -> in_order tr /\ between 5 5 tr.
Proof.
  intros R. inversion R; subst; split;
    first [ eapply (flat_in_order 5) | eapply (flat_between 5); [lia|] ];
    repeat first [apply List.Forall_nil | apply List.Forall_cons]; reflexivity.
Qed.

Lemma tx_then_rest (tx rest : list Logged) :
  Forall (fun l => phase (call l) = 6%nat) tx ->
  Forall (fun l => phase (call l) = 7%nat) rest ->
  in_order (tx ++ rest) /\ between 6 7 (tx ++ rest).
Proof.
  intros H6 H7. split.
  - eapply (in_order_app 6 6 7 7); [lia| | | |].
    + eapply flat_in_order; exact H6.
    + eapply flat_in_order; exact H7.
    + eapply flat_between; [|exact H6]; lia.
    + eapply flat_between; [|exact H7]; lia.
  - eapply (between_app 6 6 7 7); try lia.
    + eapply flat_between; [|exact H6]; lia.
    + eapply flat_between; [|exact H7]; lia.
Qed.

Lemma FinishRun_phase depl proj w tr committed r :
  FinishRun depl proj w tr committed r -> in_order tr /\ between 6 7 tr.
Proof.
  intros R.
  assert (Hrb : forall rb, call rb = TxRollback ->
                           Forall (fun l => phase (call l) = 7%nat) [rb]).
  { intros rb H. constructor; [now rewrite H|constructor]. }
  inversion R; subst.
  - apply (tx_then_rest [failed TxBegin (ErrService Database msg)] []);
      repeat first [apply List.Forall_nil | apply List.Forall_cons]; reflexivity.
  - apply (tx_then_rest
             [ok TxBegin;
              failed (TxUpdateState (ID depl) StateDeployed) (ErrService Database msg)] [rb]);
      [repeat first [apply List.Forall_nil | apply List.Forall_cons]; reflexivity
      |now apply Hrb].
  - apply (tx_then_rest
             [ok TxBegin; ok (TxUpdateState (ID depl) StateDeployed);
              failed (TxUpdateProject (project.ID proj) (ID depl)) (ErrService Database msg)]
             [rb]);
      [repeat first [apply List.Forall_nil | apply List.Forall_cons]; reflexivity
      |now apply Hrb].
  - apply (tx_then_rest
             [ok TxBegin; ok (TxUpdateState (ID depl) StateDeployed);
              ok (TxUpdateProject (project.ID proj) (ID depl));
              failed TxCommit (ErrService Database msg)]
             [rb]);
      [repeat first [apply List.Forall_nil | apply List.Forall_cons]; reflexivity
      |now apply Hrb].
  - apply tx_then_rest;
      [repeat first [apply List.Forall_nil | apply List.Forall_cons]; reflexivity|].
    eapply Forall_impl; [eassumption|]. simpl.
    intros l. unfold after_commit. now destruct (call l).
Qed.

(** The calls of a run follow the pipeline: loading, fetching the bundle,
    the files of the webroot, the domain names, the pointer documents, the
    broadcast, the transaction, and then the user, the event and the
    deferred rollback.  No call of an earlier phase comes after a call of
    a later one. *)
Theorem calls_follow_the_pipeline env d w i j l l' :
  (i < j)%nat ->
  trace env d w !! i = Some l ->
  trace env d w !! j = Some l' ->
  (phase (call l) <= phase (call l'))%nat.
Proof.
  revert i j l l'. change (in_order (trace env d w)).
  run_cases env d w.
  all: repeat match goal with
         | H : LoadRun _ _ _ _ |- _ => apply LoadRun_phase in H; destruct H
         | H : WebrootRun _ _ _ _ _ _ |- _ => apply WebrootRun_phase in H; destruct H
         | H : MetaRun _ _ _ _ _ _ |- _ => apply MetaRun_phase in H; destruct H
         | H : InvalidationRun _ _ _ _ _ _ |- _ => apply InvalidationRun_phase in H; destruct H
         | H : FinishRun _ _ _ _ _ _ |- _ => apply FinishRun_phase in H; destruct H
         end.
  - assumption.
  - apply (in_order_app 0 0 1 2 tr1 tr2); try lia; assumption.
  - apply (in_order_app 0 0 1 2 tr1 tr2); try lia; assumption.
  - apply (in_order_app 0 0 1 4 tr1 (tr2 ++ tr3)); try lia; try assumption.
    + apply (in_order_app 1 2 3 4 tr2 tr3); try lia; assumption.
    + apply (between_app 1 2 3 4); try lia; assumption.
  - apply (in_order_app 0 0 1 5 tr1 (tr2 ++ tr3 ++ tr4)); try lia; try assumption.
    + apply (in_order_app 1 2 3 5 tr2 (tr3 ++ tr4)); try lia; try assumption.
      * apply (in_order_app 3 4 5 5 tr3 tr4); try lia; assumption.
      * apply (between_app 3 4 5 5); try lia; assumption.
    + apply (between_app 1 2 3 5); try lia; try assumption.
      apply (between_app 3 4 5 5); try lia; assumption.
  - apply (in_order_app 0 5 6 7 (tr1 ++ tr2 ++ tr3 ++ tr4) tr5); try lia; try assumption.
    + apply (in_order_app 0 0 1 5 tr1 (tr2 ++ tr3 ++ tr4)); try lia; try assumption.
      * apply (in_order_app 1 2 3 5 tr2 (tr3 ++ tr4)); try lia; try assumption.
        -- apply (in_order_app 3 4 5 5 tr3 tr4); try lia; assumption.
        -- apply (between_app 3 4 5 5); try lia; assumption.
      * apply (between_app 1 2 3 5); try lia; try assumption.
        apply (between_app 3 4 5 5); try lia; assumption.
    + apply (between_app 0 0 1 5); try lia; try assumption.
      apply (between_app 1 2 3 5); try lia; try assumption.
      apply (between_app 3 4 5 5); try lia; assumption.
Qed.

(* ---- duplicate deliveries ---- *)

(** The run for a deployment that is deployed already, when the webroot
    is not skipped. *)
Lemma deployed_run env d w depl :
  first_deployment (deployments (db w)) (DeploymentID d) = Some depl ->
  State depl = StateDeployed ->
  SkipWebrootUpload d = false ->
  (exists e, returned env d w = Err e)
  /\ (database_up w ->
      is_Some (first_project (projects (db w)) (deployment.ProjectID depl)) ->
      returned env d w = Err errUnexpectedState)
  /\ Forall (fun l => service (call l) = Database) (trace env d w).
Proof.
  intros Hd Hs Hskip. unfold database_up.
  assert (Hnot : unready depl = false) by (unfold unready; now rewrite Hs).
  run_cases env d w; try use_loaded;
    try match goal with H : WebrootRun _ _ _ _ _ _ |- _ =>
      inversion H; subst; congruence end.
  - match goal with H : LoadRun _ _ _ _ |- _ => inversion H; subst end;
      try congruence;
      (split; [eexists; reflexivity|]);
      (split; [intros Hup [proj Hp]; try no_fault; try congruence|]);
      repeat constructor.
  - split; [eexists; reflexivity|].
    match goal with H : WebrootRun _ _ _ _ _ _ |- _ => inversion H; subst; try congruence end.
    split; [reflexivity|]. repeat constructor.
Qed.

Lemma with_state_kept st t r :
  deployment.ID (with_state st t r) = deployment.ID r
  /\ deployment.ProjectID (with_state st t r) = deployment.ProjectID r
  /\ PrefixID (with_state st t r) = PrefixID r.
Proof. repeat split. Qed.

(** A job that has run with success and is delivered again, the webroot
    upload not skipped, is refused: on the rows that the first run left,
    the run returns an error ([errUnexpectedState] when the database
    answers), calls the database only, and changes nothing. *)
Theorem duplicate_delivery_is_refused env d w w1 :
  returned env d w = Ret tt ->
  SkipWebrootUpload d = false ->
  db w1 = db (world_after env d w) ->
  (exists e, returned env d w1 = Err e)
  /\ (database_up w1 -> returned env d w1 = Err errUnexpectedState)
  /\ Forall (fun l => service (call l) = Database) (trace env d w1)
  /\ s3 (world_after env d w1) = s3 w1
  /\ mq (world_after env d w1) = mq w1
  /\ db (world_after env d w1) = db w1.
Proof.
  intros Hr Hskip Hw1.
  destruct (Work_rows env d w) as [(_ & depl & proj & (Hd & _ & Hp) & Hdb)|(Hne & _)];
    [|contradiction].
  pose proof (first_deployment_id _ _ _ Hd) as Hid.
  pose proof (first_project_id _ _ _ Hp) as Hpid.
  rewrite Hdb in Hw1.
  assert (Hd1 : first_deployment (deployments (db w1)) (DeploymentID d)
                = Some (with_state StateDeployed (now w) depl)).
  { rewrite Hw1, <- Hid. apply first_deployment_activated. now rewrite Hid. }
  assert (Hp1 : is_Some (first_project (projects (db w1))
                           (deployment.ProjectID (with_state StateDeployed (now w) depl)))).
  { rewrite Hw1. simpl deployment.ProjectID. rewrite <- Hpid.
    erewrite first_project_activated; [eauto|now rewrite Hpid]. }
  destruct (deployed_run env d w1 _ Hd1 eq_refl Hskip) as (He & Hup & Hcalls).
  split; [exact He|]. split; [intros Hdbup; now apply Hup|]. split; [exact Hcalls|].
  destruct (database_calls_store_nothing _ w1 Hcalls) as [Hs3 Hmq].
  split; [now rewrite Work_s3|]. split; [now rewrite Work_mq|].
  destruct He as [e He].
  destruct (Work_rows env d w1) as [(Hok & _)|(_ & Hdb1)]; [congruence|exact Hdb1].
Qed.

(* ---- the rows of others ---- *)

Lemma activated_deployment_others x depl proj t id :
  id <> deployment.ID depl ->
  first_deployment (deployments (activated x depl proj t)) id
  = first_deployment (deployments x) id.
Proof.
  intros Hne. unfold activated. simpl. rewrite first_deployment_map.
  - destruct (first_deployment (deployments x) id) as [r|] eqn:E; [|reflexivity].
    simpl. apply first_deployment_id in E.
    destruct (N.eqb_spec (deployment.ID r) (deployment.ID depl)); [congruence|reflexivity].
  - intros r. now destruct (N.eqb _ _).
Qed.

Lemma activated_project_others x depl proj t id :
  id <> project.ID proj ->
  first_project (projects (activated x depl proj t)) id
  = first_project (projects x) id.
Proof.
  intros Hne. unfold activated. simpl. rewrite first_project_map.
  - destruct (first_project (projects x) id) as [r|] eqn:E; [|reflexivity].
    simpl. apply first_project_id in E.
    destruct (N.eqb_spec (project.ID r) (project.ID proj)); [congruence|reflexivity].
  - intros r. now destruct (N.eqb _ _).
Qed.

Lemma map_ID_deployments x depl proj t :
  map deployment.ID (deployments (activated x depl proj t)) = map deployment.ID (deployments x).
Proof.
  unfold activated. simpl. rewrite map_map. apply map_ext.
  intros r. now destruct (N.eqb _ _).
Qed.

Lemma map_ID_projects x depl proj t :
  map project.ID (projects (activated x depl proj t)) = map project.ID (projects x).
Proof.
  unfold activated. simpl. rewrite map_map. apply map_ext.
  intros r. now destruct (N.eqb _ _).
Qed.

(** A run adds and removes no row, leaves the domains and the users as
    they are, and changes no deployment but the one of the job and no
    project but the one of that deployment. *)
Theorem other_rows_are_untouched env d w :
  domains (db (world_after env d w)) = domains (db w)
  /\ users (db (world_after env d w)) = users (db w)
  /\ map deployment.ID (deployments (db (world_after env d w)))
     = map deployment.ID (deployments (db w))
  /\ map project.ID (projects (db (world_after env d w)))
     = map project.ID (projects (db w))
  /\ (forall id,
        id <> DeploymentID d ->
        first_deployment (deployments (db (world_after env d w))) id
        = first_deployment (deployments (db w)) id)
  /\ (forall depl id,
        first_deployment (deployments (db w)) (DeploymentID d) = Some depl ->
        id <> deployment.ProjectID depl ->
        first_project (projects (db (world_after env d w))) id
        = first_project (projects (db w)) id).
Proof.
  destruct (Work_rows env d w) as [(_ & depl & proj & (Hd & _ & Hp) & ->)|(_ & ->)].
  2: { repeat split; reflexivity. }
  pose proof (first_deployment_id _ _ _ Hd) as Hid.
  pose proof (first_project_id _ _ _ Hp) as Hpid.
  split; [reflexivity|]. split; [reflexivity|].
  split; [apply map_ID_deployments|]. split; [apply map_ID_projects|].
  split.
  - intros id Hne. apply activated_deployment_others. congruence.
  - intros depl' id Hd' Hne. apply activated_project_others. congruence.
Qed.

(** The run of a job that skips the webroot, on an unlocked project, when
    no collaborator fails. *)
Lemma Work_reliable_skip env d w depl proj :
  reliable w ->
  first_deployment (deployments (db w)) (DeploymentID d) = Some depl ->
  first_project (projects (db w)) (deployment.ProjectID depl) = Some proj ->
  unready depl = false ->
  project.LockedAt proj = None ->
  SkipWebrootUpload d = true ->
  returned env d w = Ret tt
  /\ exists tail,
       Forall after_commit tail
       /\ trace env d w
          = load_calls d depl
            ++ [ok (DBDomainNames (project.ID proj))]
            ++ pointer_uploads env depl proj (bound_domain_names env (db w) proj)
            ++ invalidation_calls env d (bound_domain_names env (db w) proj)
            ++ tx_calls depl proj ++ tail.
Proof.
  intros Hrel Hd Hp Hnot Hlock Hskip.
  pose proof Hrel as Hrel'. unfold reliable in Hrel'. services Hrel'.
  run_cases env d w.
  1: match goal with H : LoadRun _ _ _ _ |- _ => inversion H; subst end;
     try no_fault; congruence.
  all: use_loaded.
  all: assert (depl0 = depl) as -> by congruence.
  all: assert (proj0 = proj) as -> by congruence.
  all: match goal with H : WebrootRun _ _ _ _ _ _ |- _ =>
         inversion H; subst; try congruence end.
  all: try congruence.
  all: match goal with H : MetaRun _ _ _ _ _ _ |- _ =>
         inversion H as [|? ? ? Hloop|? ? Hloop]; subst; try no_fault;
         try (apply PointerLoop_reliable in Hloop;
              [discriminate Hloop|intros n; rewrite !faults_replay; apply Hstore]);
         try (apply PointerLoop_done in Hloop; subst)
       end.
  all: repeat (rewrite db_replay in * || rewrite db_after in * ).
  all: match goal with H : InvalidationRun _ _ _ _ _ _ |- _ =>
         inversion H as [Hsk|? Hsk|Hsk]; subst; try no_fault end.
  all: match goal with H : FinishRun _ _ _ _ _ _ |- _ =>
         inversion H as [| | | |tail Htail]; subst; try no_fault end.
  all: split; [reflexivity|]; exists tail; split; [exact Htail|].
  all: unfold invalidation_calls, pointer_uploads, load_calls, tx_calls;
       rewrite Hsk; rewrite <- ?app_assoc; reflexivity.
Qed.

(** A run that succeeds has uploaded the pointer document of every domain
    bound to the project. *)
Lemma success_uploads_every_pointer env d w depl proj domain :
  returned env d w = Ret tt ->
  loaded d w depl proj ->
  domain ∈ bound_domain_names env (db w) proj ->
  ok (pointer_upload env (pointer_of depl proj) domain) ∈ trace env d w.
Proof.
  intros Hr (Hd & Hu & Hp) Hin. revert Hr.
  run_cases env d w; try discriminate. intros _.
  use_loaded.
  assert (depl0 = depl) as -> by congruence.
  assert (proj0 = proj) as -> by congruence.
  match goal with H : MetaRun _ _ _ _ _ (Ret _) |- _ =>
    inversion H as [| |tr Hf Hloop]; subst; apply PointerLoop_done in Hloop; subst tr
  end.
  rewrite db_replay in *.
  apply elem_of_app. left. apply elem_of_app. right. apply elem_of_app. right.
  apply elem_of_app. left. right. apply list_elem_of_fmap. now exists domain.
Qed.

Lemma success_is_unlocked env d w depl proj :
  returned env d w = Ret tt ->
  loaded d w depl proj ->
  project.LockedAt proj = None.
Proof.
  intros Hr (Hd & Hu & Hp). revert Hr.
  run_cases env d w; try discriminate. intros _. use_loaded. congruence.
Qed.

(** After a run that succeeds, the object store holds the pointer
    document of the deployment for every domain bound to the project. *)
Lemma success_stores_every_pointer env d w depl proj domain :
  returned env d w = Ret tt ->
  loaded d w depl proj ->
  domain ∈ bound_domain_names env (db w) proj ->
  pointer_at env (world_after env d w) domain = Some (pointer_object depl proj).
Proof.
  intros Hr Hl Hin. pose proof Hl as (Hd & Hu & Hp).
  unfold pointer_at. rewrite Work_s3.
  pose proof (Work_calls env d w) as Hcalls. rewrite Forall_forall in Hcalls.
  apply s3_replay_stored.
  - apply Forall_forall. intros l Hl' o' Hs.
    now destruct (pointer_stores env d w depl proj l domain o' Hd Hp (Hcalls l Hl') Hs).
  - apply Exists_exists. exists (ok (pointer_upload env (pointer_of depl proj) domain)).
    split; [now apply success_uploads_every_pointer|reflexivity].
Qed.

Lemma s3_replay_same tr w :
  Forall (fun l => forall k o, stores l = Some (k, o) -> s3 w !! k = Some o) tr ->
  s3 (replay tr w) = s3 w.
Proof.
  revert w. induction tr as [|l tr IH]; intros w H; [reflexivity|].
  inversion H as [|? ? Hl Htr]; subst. simpl.
  assert (Hs : s3 (after w l) = s3 w).
  { rewrite s3_after. destruct (stores l) as [[k o]|] eqn:E; [|reflexivity].
    apply insert_id. now apply Hl. }
  rewrite IH; [exact Hs|].
  eapply Forall_impl; [exact Htr|]. cbv beta. intros l' Hl' k o E. rewrite Hs. now apply Hl'.
Qed.

Lemma bound_domain_names_activated env x depl proj t :
  bound_domain_names env (activated x depl proj t)
    (with_active_deployment (deployment.ID depl) proj)
  = bound_domain_names env x proj.
Proof. reflexivity. Qed.

(** After a run that succeeded, a job for the same deployment that skips
    the webroot upload succeeds when no collaborator fails, and leaves the
    object store as it was: the pointer documents it writes are the ones
    that are there. *)
Theorem republication_changes_no_object env d d' w w1 :
  returned env d w = Ret tt ->
  DeploymentID d' = DeploymentID d ->
  SkipWebrootUpload d' = true ->
  db w1 = db (world_after env d w) ->
  s3 w1 = s3 (world_after env d w) ->
  reliable w1 ->
  returned env d' w1 = Ret tt
  /\ s3 (world_after env d' w1) = s3 w1.
Proof.
  intros Hr Hid' Hskip Hdb1 Hs1 Hrel.
  destruct (Work_rows env d w) as [(_ & depl & proj & Hl & Hdb)|(Hne & _)];
    [|contradiction].
  pose proof Hl as (Hd & Hu & Hp).
  pose proof (first_deployment_id _ _ _ Hd) as Hid.
  pose proof (first_project_id _ _ _ Hp) as Hpid.
  pose proof (success_is_unlocked env d w depl proj Hr Hl) as Hlock.
  rewrite Hdb in Hdb1.
  set (depl1 := with_state StateDeployed (now w) depl).
  set (proj1 := with_active_deployment (deployment.ID depl) proj).
  assert (Hd1 : first_deployment (deployments (db w1)) (DeploymentID d') = Some depl1).
  { rewrite Hdb1, Hid', <- Hid. apply first_deployment_activated. now rewrite Hid. }
  assert (Hp1 : first_project (projects (db w1)) (deployment.ProjectID depl1) = Some proj1).
  { rewrite Hdb1. simpl deployment.ProjectID. rewrite <- Hpid.
    apply first_project_activated. now rewrite Hpid. }
  destruct (Work_reliable_skip env d' w1 depl1 proj1 Hrel Hd1 Hp1 eq_refl Hlock Hskip)
    as (Hr1 & tail & Htail & Htr).
  split; [exact Hr1|].
  rewrite Work_s3, Htr. apply s3_replay_same.
  assert (Hnames : bound_domain_names env (db w1) proj1 = bound_domain_names env (db w) proj)
    by now rewrite Hdb1.
  rewrite Hnames.
  repeat (apply Forall_app; split).
  - repeat first [apply List.Forall_nil | apply List.Forall_cons]; intros k o Hs; discriminate Hs.
  - repeat first [apply List.Forall_nil | apply List.Forall_cons]; intros k o Hs; discriminate Hs.
  - unfold pointer_uploads. apply Forall_forall. intros l Hin k o Hs.
    apply list_elem_of_fmap in Hin. destruct Hin as (domain & -> & Hin).
    injection Hs as <- <-. rewrite Hs1.
    exact (success_stores_every_pointer env d w depl proj domain Hr Hl Hin).
  - unfold invalidation_calls. destruct (SkipInvalidation d');
      repeat first [apply List.Forall_nil | apply List.Forall_cons]; intros k o Hs; discriminate Hs.
  - repeat first [apply List.Forall_nil | apply List.Forall_cons]; intros k o Hs; discriminate Hs.
  - apply Forall_forall. intros l Hl' k o Hs. exfalso.
    pose proof (after_commit_stores tail k Htail) as Hq.
    rewrite Forall_forall in Hq. exact (Hq l Hl' o Hs).
Qed.

Section V0Lemmas.

Context (env : Env).
Context (newMessage : string -> string -> messages.V1InvalidationMessageData -> option Message).

Ltac oracle :=
  match goal with
  | |- context [match faults ?w ?n ?s with _ => _ end] =>
      let F := fresh "F" in destruct (faults w n s) as [msg|] eqn:F; simpl
  end.

Lemma UploadLoop_not_panic webroot items w tr : ~ UploadLoop env webroot items w tr Panic.
Proof. intros R. remember Panic as r eqn:Hr. induction R; congruence. Qed.

Lemma PointerLoop_not_panic metaJson names w tr : ~ PointerLoop env metaJson names w tr Panic.
Proof. intros R. remember Panic as r eqn:Hr. induction R; congruence. Qed.

(** A run of that worker: the calls it makes, and what it returns when
    no collaborator fails and the archive unpacks. *)
Lemma Work_v0_run d w w' r :
  deployer_v0.Work env newMessage (deployer_v0.Decoded d) w = (w', r) ->
  exists tr,
    w' = replay tr w
    /\ Forall (fun l => V0Call env newMessage d (call l)) tr
    /\ (r = Panic -> v0_message env newMessage d = None /\ published tr = [])
    /\ (reliable w ->
        forall o items,
          s3 w !! (s3client.BucketRegion env, s3client.BucketName env, v0_bundle d) = Some o ->
          obj_body o = GzipTar items ->
          intact items ->
          match v0_message env newMessage d with
          | Some m => r = Ret tt /\ tr = v0_uploads env d items ++ [ok (MQPublish m)]
          | None => r = Panic /\ tr = v0_uploads env d items
          end).
Proof.
  unfold deployer_v0.Work, deployer_v0.json_Unmarshal.
  unfold bind at 1, ret at 1. unfold bind at 1, ioutil_TempFile, invoke at 1. simpl.
  oracle.
  { intros [= <- <-]. eexists [failed (TempFile _) _]. split; [reflexivity|].
    split; [repeat first [apply List.Forall_nil | apply List.Forall_cons];
            unfold V0Call; simpl; auto|].
    split; [discriminate|].
    intros Hrel. rewrite Hrel in F. discriminate F. }
  unfold bind at 1, S3_Download, invoke at 1. simpl. oracle.
  { intros [= <- <-]. eexists [ok (TempFile _); failed (S3Download _ _ _) _].
    split; [reflexivity|].
    split; [repeat first [apply List.Forall_nil | apply List.Forall_cons];
            unfold V0Call; simpl; auto|].
    split; [discriminate|].
    intros Hrel. rewrite Hrel in F0. discriminate F0. }
  destruct (s3 w !! _) as [o|] eqn:Hobj; simpl.
  2: { intros [= <- <-]. eexists [ok (TempFile _); failed (S3Download _ _ _) _].
       split; [reflexivity|].
       split; [repeat first [apply List.Forall_nil | apply List.Forall_cons];
               unfold V0Call; simpl; auto|].
       split; [discriminate|].
       intros _ o items Ho. unfold v0_bundle in Ho. congruence. }
  unfold bind at 1.
  destruct (obj_body o) as [content|v|items] eqn:Hbody; simpl.
  1,2: intros [= <- <-]; eexists [ok (TempFile _); ok (S3Download _ _ _)];
       (split; [reflexivity|]);
       (split; [repeat first [apply List.Forall_nil | apply List.Forall_cons];
                unfold V0Call; simpl; auto|]);
       (split; [discriminate|]);
       intros _ o' items Ho Hb; unfold v0_bundle in Ho; congruence.
  unfold bind at 1.
  match goal with |- context [upload_webroot env ?wr items ?w1] =>
    destruct (upload_webroot_run env wr items w1) as (tr2 & E2 & R2);
    destruct (upload_webroot env wr items w1) as [w2 r2] eqn:Hrun2
  end.
  simpl in E2, R2. subst w2.
  pose proof (UploadLoop_calls _ _ _ _ _ _ R2) as C2.
  destruct r2 as [ [] |e|]; [| |now apply UploadLoop_not_panic in R2].
  2: { intros [= <- <-].
       eexists (ok (TempFile _) :: ok (S3Download _ _ _) :: tr2). split; [reflexivity|].
       split; [|split; [discriminate|] ].
       - repeat (apply List.Forall_cons; [unfold V0Call; auto|]).
         eapply Forall_impl; [exact C2|]. simpl. unfold V0Call, v0_webroot. auto.
       - intros Hrel o' items' Ho Hb Hin. exfalso.
         unfold v0_bundle in Ho. assert (o' = o) as -> by congruence.
         assert (items' = items) as -> by congruence.
         apply UploadLoop_reliable in R2; [destruct R2; discriminate| |assumption].
         intros n. simpl. apply Hrel. }
  unfold bind at 1.
  match goal with |- context [upload_meta env ?mj ?names ?w1] =>
    destruct (upload_meta_run env mj names w1) as (tr3 & E3 & R3);
    destruct (upload_meta env mj names w1) as [w3 r3] eqn:Hrun3
  end.
  simpl in E3, R3. subst w3.
  pose proof (PointerLoop_calls _ _ _ _ _ _ R3) as C3.
  assert (Hcalls : Forall (fun l => V0Call env newMessage d (call l))
                     (ok (TempFile (deployer_v0.prefix_of d +:+ "-raw-bundle.tar.gz"))
                      :: ok (S3Download (s3client.BucketRegion env) (s3client.BucketName env)
                               (v0_bundle d)) :: tr2 ++ tr3)).
  { repeat (apply List.Forall_cons; [unfold V0Call; auto|]).
    apply Forall_app. split.
    - eapply Forall_impl; [exact C2|]. simpl. unfold V0Call, v0_webroot. auto.
    - eapply Forall_impl; [exact C3|]. simpl. unfold V0Call, v0_pointer. auto 6. }
  assert (Hquiet : published (ok (TempFile (deployer_v0.prefix_of d +:+ "-raw-bundle.tar.gz"))
                      :: ok (S3Download (s3client.BucketRegion env) (s3client.BucketName env)
                               (v0_bundle d)) :: tr2 ++ tr3) = []).
  { change (published (tr2 ++ tr3) = []). rewrite published_app.
    assert (Hq : forall tr, Forall (fun l => is_upload (call l) = true) tr -> published tr = []).
    { induction 1 as [|l tr Hl _ IH]; [reflexivity|]. simpl. rewrite IH.
      destruct l as [c [e|] ]; destruct c; simpl in *; try discriminate; reflexivity. }
    rewrite (Hq tr2), (Hq tr3); [reflexivity| |].
    - eapply Forall_impl; [exact C3|]. simpl. intros l (domain & _ & ->). reflexivity.
    - eapply Forall_impl; [exact C2|]. simpl. intros l (hdr & content & ->). reflexivity. }
  assert (Hup : reliable w ->
                intact items ->
                r3 = Ret tt ->
                ok (TempFile (deployer_v0.prefix_of d +:+ "-raw-bundle.tar.gz"))
                :: ok (S3Download (s3client.BucketRegion env) (s3client.BucketName env)
                         (v0_bundle d)) :: tr2 ++ tr3
                = v0_uploads env d items).
  { intros Hrel Hin ->.
    apply UploadLoop_reliable in R2; [|intros n; simpl; apply Hrel|assumption].
    destruct R2 as [_ ->]. apply PointerLoop_done in R3. subst tr3. reflexivity. }
  assert (Hsame : forall o' items',
             Some o = Some o' -> obj_body o' = GzipTar items' -> items' = items)
    by (intros o' items' [= <-] Hb; congruence).
  destruct r3 as [ [] |e|]; [| |now apply PointerLoop_not_panic in R3].
  2: { intros [= <- <-].
       eexists (ok (TempFile _) :: ok (S3Download _ _ _) :: tr2 ++ tr3).
       split; [simpl; now rewrite replay_app|].
       split; [exact Hcalls|]. split; [discriminate|].
       intros Hrel o' items' Ho Hb Hin. exfalso.
       apply PointerLoop_reliable in R3; [discriminate|].
       intros n. rewrite faults_replay. simpl. apply Hrel. }
  fold (v0_message env newMessage d).
  destruct (v0_message env newMessage d) as [m|] eqn:Hm.
  2: { unfold panic. intros [= <- <-].
       eexists (ok (TempFile _) :: ok (S3Download _ _ _) :: tr2 ++ tr3).
       split; [simpl; now rewrite replay_app|].
       split; [exact Hcalls|]. split; [intros _; split; [reflexivity|exact Hquiet]|].
       intros Hrel o' items' Ho Hb Hin. split; [reflexivity|].
       rewrite (Hsame o' items' Ho Hb) in *. exact (Hup Hrel Hin eq_refl). }
  unfold Message_Publish, invoke. simpl. oracle.
  - intros [= <- <-].
    eexists ((ok (TempFile _) :: ok (S3Download _ _ _) :: tr2 ++ tr3)
             ++ [failed (MQPublish _) _]).
    split; [rewrite replay_snoc; simpl; now rewrite replay_app|].
    split; [|split; [discriminate|] ].
    + apply Forall_app. split; [exact Hcalls|].
      repeat first [apply List.Forall_nil | apply List.Forall_cons]. unfold V0Call. simpl.
      right. right. right. right. now exists m.
    + intros Hrel. rewrite !faults_replay in F1. simpl in F1. rewrite Hrel in F1.
      discriminate F1.
  - intros [= <- <-].
    eexists ((ok (TempFile _) :: ok (S3Download _ _ _) :: tr2 ++ tr3)
             ++ [ok (MQPublish _)]).
    split; [rewrite replay_snoc; simpl; now rewrite replay_app|].
    split; [|split; [discriminate|] ].
    + apply Forall_app. split; [exact Hcalls|].
      repeat first [apply List.Forall_nil | apply List.Forall_cons]. unfold V0Call. simpl.
      right. right. right. right. now exists m.
    + intros Hrel o' items' Ho Hb Hin. split; [reflexivity|].
      rewrite (Hsame o' items' Ho Hb) in *.
      exact (f_equal (fun t => t ++ [ok (MQPublish m)]) (Hup Hrel Hin eq_refl)).
Qed.

End V0Lemmas.

Lemma stored_app tr1 tr2 : stored (tr1 ++ tr2) = stored tr1 ++ stored tr2.
Proof. unfold stored. apply omap_app. Qed.

Lemma s3_replay_stored_eq tr1 tr2 w :
  stored tr1 = stored tr2 -> s3 (replay tr1 w) = s3 (replay tr2 w).
Proof.
  assert (H : forall tr w,
            s3 (replay tr w)
            = fold_left (fun m ko => <[fst ko := snd ko]> m) (stored tr) (s3 w)).
  { induction tr as [|l tr IH]; intros w0; [reflexivity|].
    simpl. rewrite IH, s3_after. unfold stored. simpl.
    destruct (stores l) as [[k o]|]; reflexivity. }
  intros E. now rewrite !H, E.
Qed.

Lemma after_commit_stored tail : Forall after_commit tail -> stored tail = [].
Proof.
  induction 1 as [|l tail Hl _ IH]; [reflexivity|].
  unfold stored in *. unfold after_commit in Hl.
  destruct l as [c [e|]]; destruct c; simpl in *;
    try contradiction; try discriminate; exact IH.
Qed.

(** The version of [Work] whose job carries the prefix and the domains
    never calls the database and changes no row.  It drops the error of
    [pubsub.NewMessageWithJSON] and publishes what it got: it panics only
    when that call gave no message, with nothing published then, and it
    does panic in that case, after all its uploads, when nothing else
    fails. *)
Theorem plain_worker_reads_no_row env newMessage data w :
  Forall (fun l => service (call l) <> Database)
    (trace_of w (fst (deployer_v0.Work env newMessage data w)))
  /\ db (fst (deployer_v0.Work env newMessage data w)) = db w
  /\ (snd (deployer_v0.Work env newMessage data w) = Panic ->
      exists d,
        data = deployer_v0.Decoded d
        /\ v0_message env newMessage d = None
        /\ mq (fst (deployer_v0.Work env newMessage data w)) = mq w)
  /\ (forall d o items,
        data = deployer_v0.Decoded d ->
        reliable w ->
        s3 w !! (s3client.BucketRegion env, s3client.BucketName env, v0_bundle d) = Some o ->
        obj_body o = GzipTar items ->
        intact items ->
        v0_message env newMessage d = None ->
        snd (deployer_v0.Work env newMessage data w) = Panic
        /\ trace_of w (fst (deployer_v0.Work env newMessage data w)) = v0_uploads env d items).
Proof.
  destruct data as [msg|d].
  { simpl. unfold trace_of. simpl. rewrite drop_all.
    split; [constructor|]. split; [reflexivity|]. split; [discriminate|].
    intros d o items Hd. discriminate Hd. }
  destruct (deployer_v0.Work env newMessage (deployer_v0.Decoded d) w) as [w' r] eqn:Hrun.
  destruct (Work_v0_run env newMessage d w w' r Hrun) as (tr & -> & Hcalls & Hp & Hrel).
  cbn [fst snd]. rewrite trace_of_replay, db_replay.
  split; [|split; [reflexivity|split] ].
  - eapply Forall_impl; [exact Hcalls|]. simpl.
    intros l [->|[->|[(hdr & content & ->)|[(domain & _ & ->)|(m & _ & ->)] ] ] ]; discriminate.
  - intros Hr. destruct (Hp Hr) as [Hm Hq]. exists d. split; [reflexivity|]. split; [exact Hm|].
    now rewrite mq_replay, Hq, app_nil_r.
  - intros d' o items [= <-] Hw Ho Hb Hin Hm.
    specialize (Hrel Hw o items Ho Hb Hin). rewrite Hm in Hrel. exact Hrel.
Qed.

(** For a deployment that is ready to be deployed, of an unlocked project
    without forced HTTPS, with the raw bundle used and nothing skipped,
    and when no collaborator fails and the message is built, both
    versions of [Work] succeed and leave the same object store and the
    same broadcasts, the one for the job with the prefix of the deployment
    and the domains bound to the project. *)
Theorem workers_publish_alike env d w depl proj o items :
  reliable w ->
  first_deployment (deployments (db w)) (DeploymentID d) = Some depl ->
  first_project (projects (db w)) (deployment.ProjectID depl) = Some proj ->
  State depl = StatePendingBuild \/ State depl = StatePendingDeploy
    \/ State depl = StateFailed ->
  project.LockedAt proj = None ->
  project.ForceHTTPS proj = false ->
  SkipWebrootUpload d = false ->
  SkipInvalidation d = false ->
  UseRawBundle d = true ->
  bundle_at env d depl w = Some o ->
  obj_body o = GzipTar items ->
  intact items ->
  returned env d w = Ret tt
  /\ snd (deployer_v0.Work env deployer_v0.message_built
            (deployer_v0.Decoded (job_v0 depl (bound_domain_names env (db w) proj))) w)
     = Ret tt
  /\ s3 (world_after env d w)
     = s3 (fst (deployer_v0.Work env deployer_v0.message_built
                  (deployer_v0.Decoded (job_v0 depl (bound_domain_names env (db w) proj))) w))
  /\ mq (world_after env d w)
     = mq (fst (deployer_v0.Work env deployer_v0.message_built
                  (deployer_v0.Decoded (job_v0 depl (bound_domain_names env (db w) proj))) w)).
Proof.
  intros Hrel Hd Hp Hst Hlock Hforce Hskip Hinv Hraw Hb Ho Hin.
  destruct (Work_reliable env d w depl proj o items Hrel Hd Hp Hst Hlock Hskip Hb Ho Hin)
    as (Hr & tail & Htail & Htr).
  split; [exact Hr|].
  set (d0 := job_v0 depl (bound_domain_names env (db w) proj)).
  destruct (deployer_v0.Work env deployer_v0.message_built (deployer_v0.Decoded d0) w)
    as [w' r] eqn:Hrun.
  destruct (Work_v0_run env deployer_v0.message_built d0 w w' r Hrun)
    as (tr0 & -> & _ & _ & Hrel0).
  assert (Hb0 : s3 w !! (s3client.BucketRegion env, s3client.BucketName env, v0_bundle d0)
                = Some o).
  { unfold bundle_at, bundlePath in Hb. rewrite Hraw in Hb. exact Hb. }
  destruct (Hrel0 Hrel o items Hb0 Ho Hin) as [-> ->]. unfold v0_uploads. rewrite <- !app_assoc.
  cbn [fst snd]. split; [reflexivity|].
  assert (Hptr : v0_pointer d0 = pointer_of depl proj).
  { unfold v0_pointer, pointer_of, meta_json. now rewrite Hforce. }
  rewrite Hptr.
  split.
  - rewrite Work_s3, Htr. apply s3_replay_stored_eq.
    unfold invalidation_calls. rewrite Hinv.
    rewrite !stored_app, (after_commit_stored tail Htail).
    change (stored (load_calls d depl)) with (@nil (string * string * string * Object)).
    change (stored (bundle_calls env d depl)) with (@nil (string * string * string * Object)).
    change (stored (tx_calls depl proj)) with (@nil (string * string * string * Object)).
    change (stored [ok (DBDomainNames (project.ID proj))])
      with (@nil (string * string * string * Object)).
    reflexivity.
  - rewrite Work_mq, Htr, !mq_replay. f_equal.
    unfold invalidation_calls. rewrite Hinv.
    rewrite !published_app, (after_commit_published tail Htail), app_nil_r.
    assert (Hq : forall tr, Forall (fun l => is_publish (call l) = false) tr ->
                            published tr = []).
    { induction 1 as [|l tr Hl _ IH]; [reflexivity|]. simpl. rewrite IH.
      destruct l as [c [e|]]; destruct c; simpl in *; try discriminate; reflexivity. }
    rewrite (Hq (webroot_uploads env depl items)) by apply webroot_uploads_quiet.
    assert (Hq2 : forall names,
               published (pointer_uploads env depl proj names) = []).
    { intros names. apply Hq. unfold pointer_uploads. apply Forall_forall. intros l Hl.
      apply list_elem_of_fmap in Hl. destruct Hl as (x & -> & _). reflexivity. }
    rewrite Hq2.
    assert (Hq3 : forall names,
               published (map (fun domain =>
                                 ok (pointer_upload env (pointer_of depl proj) domain)) names)
               = []) by exact Hq2.
    rewrite Hq3.
    assert (Hq4 : published (map (fun f => ok (webroot_upload env (v0_webroot d0) (fst f) (snd f)))
                               (regular_files items)) = []).
    { apply Hq. apply Forall_forall. intros l Hl.
      apply list_elem_of_fmap in Hl. destruct Hl as (x & -> & _). reflexivity. }
    rewrite Hq4. reflexivity.
Qed.

Lemma append_cons c s t : String c s +:+ t = String c (s +:+ t).
Proof. reflexivity. Qed.

Lemma append_nil_l t : "" +:+ t = t.
Proof. reflexivity. Qed.

Lemma has_slash_append s t : has_slash (s +:+ t) = has_slash s || has_slash t.
Proof.
  induction s as [|c s IH]; [reflexivity|].
  rewrite append_cons. simpl. rewrite IH. now rewrite orb_assoc.
Qed.

Lemma split_slash_nonempty s : split_slash s <> [].
Proof.
  destruct s as [|c s]; simpl; [discriminate|].
  destruct (Ascii.eqb c slash); [discriminate|].
  destruct (split_slash s); discriminate.
Qed.

Lemma split_slash_no_slash s : Forall (fun e => has_slash e = false) (split_slash s).
Proof.
  induction s as [|c s IH]; simpl.
  - repeat constructor.
  - destruct (Ascii.eqb c slash) eqn:E.
    + constructor; [reflexivity|exact IH].
    + destruct (split_slash s) as [|e es]; [repeat constructor; simpl; now rewrite E|].
      inversion IH; subst. constructor; [simpl; now rewrite E|assumption].
Qed.

(** Splitting a path without slash gives the path. *)
Lemma split_slash_plain e : has_slash e = false -> split_slash e = [e].
Proof.
  induction e as [|c e IH]; simpl; [reflexivity|].
  intros H. apply orb_false_iff in H. destruct H as [Hc He].
  rewrite Hc, (IH He). reflexivity.
Qed.

Lemma split_slash_append e s :
  has_slash e = false -> split_slash (e +:+ "/" +:+ s) = e :: split_slash s.
Proof.
  induction e as [|c e IH]; intros H.
  - reflexivity.
  - simpl in H. apply orb_false_iff in H. destruct H as [Hc He].
    rewrite append_cons. simpl. rewrite Hc, (IH He). reflexivity.
Qed.

Lemma split_join es :
  es <> [] -> Forall (fun e => has_slash e = false) es -> split_slash (join_slash es) = es.
Proof.
  induction es as [|e es IH]; intros Hne H; [contradiction|].
  inversion H as [|? ? He Hes]; subst.
  destruct es as [|e' es'].
  - simpl. now apply split_slash_plain.
  - change (join_slash (e :: e' :: es')) with (e +:+ "/" +:+ join_slash (e' :: es')).
    rewrite split_slash_append by assumption. f_equal. apply IH; [discriminate|assumption].
Qed.

Lemma str_eqb_false (a b : string) : a <> b -> String.eqb a b = false.
Proof. intros H. now apply String.eqb_neq. Qed.

Lemma clean_step_scanned rooted out e :
  has_slash e = false -> scanned rooted out -> scanned rooted (clean_step rooted out e).
Proof.
  intros He (names & dots & -> & Hn & Hd & Hr). unfold clean_step.
  destruct (String.eqb_spec e ""); [now exists names, dots|].
  destruct (String.eqb_spec e "."); [now exists names, dots|].
  destruct (String.eqb_spec e "..") as [->|Hne].
  - destruct names as [|top names]; simpl.
    + destruct dots as [|top dots].
      * destruct rooted.
        -- exists [], []. split; [reflexivity|]. split; [constructor|]. split; [constructor|auto].
        -- exists [], [".."]. split; [reflexivity|]. split; [constructor|].
           split; [repeat constructor|discriminate].
      * inversion Hd; subst. simpl.
        exists [], (".." :: ".." :: dots). split; [reflexivity|]. split; [constructor|].
        split; [now constructor|].
        intros Hroot. specialize (Hr Hroot). discriminate Hr.
    + inversion Hn as [|? ? (_ & _ & Htop & _) Hn']; subst.
      rewrite str_eqb_false by assumption.
      now exists names, dots.
  - exists (e :: names), dots. split; [reflexivity|].
    split; [constructor; [now repeat split|assumption]|]. now split.
Qed.

Lemma fold_scanned rooted es out :
  Forall (fun e => has_slash e = false) es ->
  scanned rooted out ->
  scanned rooted (fold_left (clean_step rooted) es out).
Proof.
  revert out. induction es as [|e es IH]; intros out H Hs; [exact Hs|].
  inversion H; subst. simpl. apply IH; [assumption|]. now apply clean_step_scanned.
Qed.

(** Scanning elements that are clean already writes them all. *)
Lemma fold_dots rooted dots out :
  rooted = false ->
  Forall (fun e => e = "..") dots ->
  Forall (fun e => e = "..") out ->
  fold_left (clean_step rooted) dots out = rev dots ++ out.
Proof.
  intros -> Hd. revert out. induction Hd as [|e dots -> _ IH]; intros out Ho; [reflexivity|].
  simpl. rewrite <- app_assoc. simpl.
  assert (clean_step false out ".." = ".." :: out) as ->.
  { unfold clean_step. simpl. destruct Ho as [|top out -> _]; reflexivity. }
  apply IH. now constructor.
Qed.

Lemma fold_plain rooted names out :
  Forall plain names ->
  fold_left (clean_step rooted) names out = rev names ++ out.
Proof.
  intros Hn. revert out. induction Hn as [|e names (H1 & H2 & H3 & _) _ IH]; intros out;
    [reflexivity|].
  simpl. rewrite <- app_assoc. simpl. rewrite <- IH. f_equal.
  unfold clean_step. now rewrite !str_eqb_false by assumption.
Qed.

Lemma plain_no_slash names : Forall plain names -> Forall (fun e => has_slash e = false) names.
Proof. intros H. eapply Forall_impl; [exact H|]. now intros e (_ & _ & _ & He). Qed.

Lemma dots_no_slash dots :
  Forall (fun e => e = "..") dots -> Forall (fun e => has_slash e = false) dots.
Proof. intros H. eapply Forall_impl; [exact H|]. now intros e ->. Qed.

(** The shape of a cleaned path. *)
Lemma path_Clean_render p :
  exists dots names,
    Forall (fun e => e = "..") dots
    /\ Forall plain names
    /\ (is_rooted p = true -> dots = [])
    /\ path_Clean p = render (is_rooted p) (dots ++ names).
Proof.
  destruct p as [|c p]; [exists [], []; repeat split; constructor|].
  unfold path_Clean. simpl is_rooted.
  destruct (fold_scanned (Ascii.eqb c slash) (split_slash (String c p)) [])
    as (names & dots & E & Hn & Hd & Hr).
  { apply split_slash_no_slash. }
  { exists [], []. repeat split; auto. }
  fold (split_slash (String c p)). rewrite E, rev_app_distr.
  exists (rev dots), (rev names). split; [now apply Forall_rev|]. split; [now apply Forall_rev|].
  split; [intros H; now rewrite (Hr H)|]. reflexivity.
Qed.

Lemma join_slash_head e es :
  e <> "" -> exists c s, e = String c s /\ exists t, join_slash (e :: es) = String c t.
Proof.
  intros He. destruct e as [|c s]; [contradiction|]. exists c, s. split; [reflexivity|].
  destruct es; simpl; eauto.
Qed.

Lemma plain_head e : plain e \/ e = ".." -> exists c s, e = String c s /\ Ascii.eqb c slash = false.
Proof.
  intros [(H1 & _ & _ & Hs)| ->].
  - destruct e as [|c s]; [contradiction|]. simpl in Hs. apply orb_false_iff in Hs.
    exists c, s. tauto.
  - exists dot, ".". split; reflexivity.
Qed.

Lemma path_Clean_rooted s :
  path_Clean (String slash s)
  = "/" +:+ join_slash (rev (fold_left (clean_step true) (split_slash s) [])).
Proof. reflexivity. Qed.

Lemma path_Clean_unrooted c s :
  Ascii.eqb c slash = false ->
  path_Clean (String c s)
  = match rev (fold_left (clean_step false) (split_slash (String c s)) []) with
    | [] => "."
    | e :: es => join_slash (e :: es)
    end.
Proof.
  intros H. unfold path_Clean. rewrite H.
  now destruct (rev (fold_left (clean_step false) (split_slash (String c s)) [])).
Qed.

Lemma path_Clean_of_render rooted dots names :
  Forall (fun e => e = "..") dots ->
  Forall plain names ->
  (rooted = true -> dots = []) ->
  path_Clean (render rooted (dots ++ names)) = render rooted (dots ++ names).
Proof.
  intros Hd Hn Hr.
  assert (Hns : Forall (fun e => has_slash e = false) (dots ++ names)).
  { apply Forall_app. split; [now apply dots_no_slash|now apply plain_no_slash]. }
  assert (Hfold : forall r, (r = true -> dots = []) ->
            fold_left (clean_step r) (dots ++ names) [] = rev (dots ++ names)).
  { intros r Hrr. rewrite fold_left_app. destruct r.
    - rewrite (Hrr eq_refl). simpl. rewrite fold_plain by assumption. now rewrite app_nil_r.
    - rewrite (fold_dots false dots []) by first [reflexivity|assumption|constructor].
      rewrite app_nil_r.
      rewrite fold_plain by assumption. now rewrite rev_app_distr. }
  destruct rooted; unfold render.
  - change ("/" +:+ join_slash (dots ++ names)) with (String slash (join_slash (dots ++ names))).
    rewrite path_Clean_rooted.
    destruct (dots ++ names) as [|e es] eqn:E; [reflexivity|].
    rewrite split_join by (assumption || discriminate).
    rewrite (Hfold true) by assumption. now rewrite rev_involutive.
  - destruct (dots ++ names) as [|e es] eqn:E; [reflexivity|].
    assert (He : plain e \/ e = "..").
    { destruct dots as [|d dots']; simpl in E.
      - subst names. inversion Hn; subst. now left.
      - injection E as <- _. inversion Hd; subst. now right. }
    destruct (plain_head e He) as (c & s & -> & Hc).
    assert (exists t, join_slash (String c s :: es) = String c t) as [t Ht]
      by (destruct es; simpl; eauto).
    rewrite Ht, (path_Clean_unrooted c t Hc), <- Ht.
    rewrite split_join by (assumption || discriminate).
    rewrite (Hfold false) by discriminate. now rewrite rev_involutive.
Qed.

Lemma is_rooted_render rooted es :
  Forall (fun e => plain e \/ e = "..") es -> is_rooted (render rooted es) = rooted.
Proof.
  intros H. destruct rooted; [reflexivity|]. unfold render.
  destruct es as [|e es]; [reflexivity|].
  inversion H as [|? ? He _]; subst.
  destruct (plain_head e He) as (c & s & -> & Hc).
  destruct es; simpl; exact Hc.
Qed.

(** The name under which a file is stored is a fixed point of
    [path.Clean]: cleaning a cleaned path changes nothing. *)
Theorem path_Clean_idempotent p : path_Clean (path_Clean p) = path_Clean p.
Proof.
  destruct (path_Clean_render p) as (dots & names & Hd & Hn & Hr & ->).
  now apply path_Clean_of_render.
Qed.

(** A cleaned path is never empty.  It consists of elements that are not
    empty, not "." and not "..", joined by single slashes: after the root
    slash in a rooted path, after the ".." elements that lead out of it in
    a path that is not rooted, which is "." when nothing is left. *)
Theorem path_Clean_shape p :
  path_Clean p <> ""
  /\ exists dots names,
       Forall (fun e => e = "..") dots
       /\ Forall (fun e => e <> "" /\ e <> "." /\ e <> ".." /\ has_slash e = false) names
       /\ (is_rooted p = true -> dots = [])
       /\ path_Clean p
          = if is_rooted p then "/" +:+ join_slash names
            else match dots ++ names with
                 | [] => "."
                 | e :: es => join_slash (e :: es)
                 end.
Proof.
  destruct (path_Clean_render p) as (dots & names & Hd & Hn & Hr & E).
  split.
  - rewrite E. unfold render. destruct (is_rooted p); [discriminate|].
    destruct (dots ++ names) as [|e es] eqn:El; [discriminate|].
    assert (He : plain e \/ e = "..").
    { destruct dots as [|d dots']; simpl in El.
      - subst names. inversion Hn; subst. now left.
      - injection El as <- _. inversion Hd; subst. now right. }
    destruct (plain_head e He) as (c & s & -> & _).
    destruct es; discriminate.
  - exists dots, names. repeat (split; [assumption|]).
    rewrite E. unfold render. destruct (is_rooted p).
    + now rewrite (Hr eq_refl).
    + now destruct (dots ++ names).
Qed.

Lemma filepath_Ext_suffix p : exists base, p = base +:+ filepath_Ext p.
Proof.
  induction p as [|c p (base & IH)]; [now exists ""|].
  simpl. destruct (filepath_Ext p) as [|e es] eqn:E.
  - destruct (Ascii.eqb c dot && negb (has_slash p)).
    + now exists "".
    + exists (String c base). rewrite append_cons. now rewrite <- IH.
  - exists (String c base). rewrite append_cons. now rewrite <- IH.
Qed.

Lemma filepath_Ext_empty p :
  filepath_Ext p = "" <-> has_dot (last_element p) = false.
Proof.
  induction p as [|c p IH]; [split; reflexivity|].
  simpl. destruct (has_slash p) eqn:Hs.
  - rewrite andb_false_r.
    destruct (filepath_Ext p) as [|e es] eqn:E.
    + split; [intros _; now apply IH|reflexivity].
    + split; [discriminate|]. intros H. now apply IH in H.
  - rewrite andb_true_r.
    assert (last_element p = p) as Hl.
    { clear -Hs. destruct p as [|c' p]; [reflexivity|]. simpl in *.
      apply orb_false_iff in Hs. destruct Hs as [Hc Hp]. now rewrite Hp, Hc. }
    rewrite Hl in IH.
    destruct (filepath_Ext p) as [|e es] eqn:E.
    + destruct (Ascii.eqb c dot) eqn:Hc.
      * destruct (Ascii.eqb c slash) eqn:Hsl.
        -- apply Ascii.eqb_eq in Hc, Hsl. subst c. discriminate Hsl.
        -- simpl. rewrite Hc. split; discriminate.
      * destruct (Ascii.eqb c slash) eqn:Hsl.
        -- split; [intros _; now apply IH|reflexivity].
        -- simpl. rewrite Hc. simpl. split; [intros _; now apply IH|reflexivity].
    + destruct (Ascii.eqb c slash) eqn:Hsl.
      * split; [discriminate|]. intros H. now apply IH in H.
      * simpl. split; [discriminate|]. intros H. apply orb_false_iff in H.
        destruct H as [_ H]. now apply IH in H.
Qed.

Lemma filepath_Ext_dot p c s :
  filepath_Ext p = String c s -> c = dot /\ has_dot s = false /\ has_slash s = false.
Proof.
  revert c s. induction p as [|c0 p IH]; intros c s; [discriminate|].
  simpl. destruct (filepath_Ext p) as [|e es] eqn:E.
  - destruct (Ascii.eqb c0 dot) eqn:Hc; [|discriminate].
    destruct (has_slash p) eqn:Hs; [discriminate|]. simpl.
    intros [= -> ->]. apply Ascii.eqb_eq in Hc. split; [exact Hc|].
    split; [|exact Hs].
    apply filepath_Ext_empty in E.
    assert (last_element s = s) as Hl.
    { clear -Hs. destruct s as [|c' p]; [reflexivity|]. simpl in *.
      apply orb_false_iff in Hs. destruct Hs as [Hc Hp]. now rewrite Hp, Hc. }
    now rewrite Hl in E.
  - intros [= -> ->]. now apply IH.
Qed.

(** The extension is a suffix of the path.  It is empty exactly when the
    last element of the path has no dot; otherwise it starts with a dot
    and holds no other dot and no slash. *)
Theorem filepath_Ext_shape p :
  (exists base, p = base +:+ filepath_Ext p)
  /\ (filepath_Ext p = "" <-> has_dot (last_element p) = false)
  /\ (filepath_Ext p <> "" ->
      exists s, filepath_Ext p = String dot s /\ has_dot s = false /\ has_slash s = false).
Proof.
  split; [apply filepath_Ext_suffix|]. split; [apply filepath_Ext_empty|].
  intros Hne. destruct (filepath_Ext p) as [|c s] eqn:E; [contradiction|].
  destruct (filepath_Ext_dot p c s E) as (-> & Hd & Hs). now exists s.
Qed.

Lemma Getenv_Setenv_ne environ key key' value :
  key <> key' -> os.Getenv (os.Setenv environ key value) key' = os.Getenv environ key'.
Proof. intros H. unfold os.Getenv, os.Setenv. now rewrite lookup_insert_ne. Qed.

Lemma Getenv_Setenv environ key value :
  os.Getenv (os.Setenv environ key value) key = value.
Proof. unfold os.Getenv, os.Setenv. now rewrite lookup_insert_eq. Qed.

Ltac eqb_cases :=
  repeat match goal with
    | |- context [String.eqb ?a ?b] => destruct (String.eqb_spec a b)
    | H : context [String.eqb ?a ?b] |- _ => destruct (String.eqb_spec a b)
    end.

Lemma init_Fatal environ :
  (exists msg, init environ = Fatal msg)
  <-> os.Getenv environ "RISE_ENV" <> "test"
      /\ (os.Getenv environ "AWS_ACCESS_KEY_ID" = ""
          \/ os.Getenv environ "AWS_SECRET_ACCESS_KEY" = "").
Proof.
  unfold init.
  destruct (String.eqb_spec (os.Getenv environ "RISE_ENV") "") as [He|He].
  - rewrite !Getenv_Setenv_ne by discriminate. rewrite He.
    eqb_cases; try discriminate; simpl; split;
      first [ intros [msg H]; discriminate H
            | intros (_ & [H|H]); contradiction
            | intros _; eexists; reflexivity
            | intros _; split; [discriminate|auto] ].
  - eqb_cases; simpl; split;
      first [ intros [msg H]; discriminate H
            | intros (Ht & _); contradiction
            | intros (_ & [H|H]); contradiction
            | intros _; eexists; reflexivity
            | intros _; split; [assumption|auto] ].
Qed.

Lemma init_Started environ environ' :
  init environ = Started environ' ->
  environ' = (if String.eqb (os.Getenv environ "RISE_ENV") ""
              then os.Setenv environ "RISE_ENV" "development" else environ)
  /\ (os.Getenv environ' "RISE_ENV" = "test"
      \/ os.Getenv environ' "AWS_ACCESS_KEY_ID" <> ""
         /\ os.Getenv environ' "AWS_SECRET_ACCESS_KEY" <> "").
Proof.
  unfold init.
  destruct (String.eqb_spec (os.Getenv environ "RISE_ENV") "") as [He|He].
  - rewrite !Getenv_Setenv_ne by discriminate. simpl.
    eqb_cases; simpl; try discriminate. intros [= <-]. split; [reflexivity|].
    right. now rewrite !Getenv_Setenv_ne by discriminate.
  - eqb_cases; simpl; try discriminate; intros [= <-]; (split; [reflexivity|]); auto.
Qed.

(** [init] ends the process exactly when RISE_ENV is not "test" and one of
    the two AWS credentials is missing or empty.  Otherwise it leaves
    RISE_ENV set, to "development" when it was empty, changes no other
    variable, and running it again changes nothing. *)
Theorem init_requires_credentials environ :
  ((exists msg, init environ = Fatal msg)
   <-> os.Getenv environ "RISE_ENV" <> "test"
       /\ (os.Getenv environ "AWS_ACCESS_KEY_ID" = ""
           \/ os.Getenv environ "AWS_SECRET_ACCESS_KEY" = ""))
  /\ forall environ',
       init environ = Started environ' ->
       os.Getenv environ' "RISE_ENV" <> ""
       /\ (os.Getenv environ "RISE_ENV" = "" -> os.Getenv environ' "RISE_ENV" = "development")
       /\ (os.Getenv environ "RISE_ENV" <> "" -> environ' = environ)
       /\ (forall key, key <> "RISE_ENV" -> environ' !! key = environ !! key)
       /\ init environ' = Started environ'.
Proof.
  split; [apply init_Fatal|].
  intros environ' H. destruct (init_Started _ _ H) as [E Hc].
  assert (Hne : os.Getenv environ' "RISE_ENV" <> "").
  { rewrite E. destruct (String.eqb_spec (os.Getenv environ "RISE_ENV") "");
      [rewrite Getenv_Setenv; discriminate|assumption]. }
  split; [exact Hne|]. split; [|split; [|split] ].
  - intros He. rewrite E, He. simpl. apply Getenv_Setenv.
  - intros He. rewrite E. now destruct (String.eqb_spec (os.Getenv environ "RISE_ENV") "").
  - intros key Hk. rewrite E.
    destruct (String.eqb (os.Getenv environ "RISE_ENV") ""); [|reflexivity].
    unfold os.Setenv. now rewrite lookup_insert_ne.
  - destruct (init environ') as [msg|environ''] eqn:E'.
    + exfalso. destruct (proj1 (init_Fatal environ') (ex_intro _ msg E')) as (Ht & Hk).
      destruct Hc as [Hc|(Ha & Hs)]; [contradiction|]. destruct Hk; contradiction.
    + f_equal. destruct (init_Started _ _ E') as [-> _].
      now destruct (String.eqb_spec (os.Getenv environ' "RISE_ENV") "").
Qed.

Import regexp.

Lemma append_nil_r s : s +:+ "" = s.
Proof. induction s as [|c s IH]; [reflexivity|]. rewrite append_cons. now rewrite IH. Qed.

Lemma append_eq_nil s t : s +:+ t = "" -> s = "" /\ t = "".
Proof.
  destruct s as [|c s]; [rewrite append_nil_l; now intros ->|rewrite append_cons; discriminate].
Qed.

Lemma append_eq_cons s t c u :
  s +:+ t = String c u ->
  (s = "" /\ t = String c u) \/ exists s', s = String c s' /\ u = s' +:+ t.
Proof.
  destruct s as [|c' s]; [intros H; left; split; [reflexivity|exact H]|].
  rewrite append_cons. intros [= -> <-]. right. now exists s.
Qed.

Lemma lang_concat_inv r1 r2 s :
  lang (Concat r1 r2) s -> exists s1 s2, s = s1 +:+ s2 /\ lang r1 s1 /\ lang r2 s2.
Proof. intros H. inversion H; subst. eauto. Qed.

Lemma lang_plus_inv r s :
  lang (Plus r) s -> exists s1 s2, s = s1 +:+ s2 /\ lang r s1 /\ lang (Star r) s2.
Proof. intros H. inversion H; subst. eauto. Qed.

Lemma lang_alt_inv r1 r2 s : lang (Alternate r1 r2) s -> lang r1 s \/ lang r2 s.
Proof. intros H. inversion H; subst; auto. Qed.

Lemma lang_class_inv class s :
  lang (CharClass class) s -> exists c, s = String c "" /\ class c = true.
Proof. intros H. inversion H; subst. eauto. Qed.

Lemma lang_star_inv r s :
  lang (Star r) s ->
  s = "" \/ exists s1 s2, s = s1 +:+ s2 /\ lang r s1 /\ lang (Star r) s2.
Proof. intros H. inversion H; subst; eauto 6. Qed.

Lemma lang_nomatch_inv s : ~ lang NoMatch s.
Proof. intros H. inversion H. Qed.

Lemma lang_empty_inv s : lang EmptyMatch s -> s = "".
Proof. intros H. now inversion H. Qed.

Lemma nullable_lang r : nullable r = true <-> lang r "".
Proof.
  induction r as [| |class|r1 IH1 r2 IH2|r1 IH1 r2 IH2|r IH|r IH]; simpl.
  - split; [discriminate|]. intros H. inversion H.
  - split; [intros _; constructor|reflexivity].
  - split; [discriminate|]. intros H. inversion H.
  - rewrite andb_true_iff, IH1, IH2. split.
    + intros [H1 H2]. change "" with ("" +:+ ""). now constructor.
    + intros H. apply lang_concat_inv in H. destruct H as (s1 & s2 & E & H1 & H2).
      symmetry in E. apply append_eq_nil in E. destruct E as [-> ->]. now split.
  - rewrite orb_true_iff, IH1, IH2. split.
    + intros [H|H]; [now apply lang_alt_l|now apply lang_alt_r].
    + apply lang_alt_inv.
  - split; [intros _; constructor|reflexivity].
  - rewrite IH. split.
    + intros H. change "" with ("" +:+ ""). constructor; [exact H|constructor].
    + intros H. apply lang_plus_inv in H. destruct H as (s1 & s2 & E & H1 & H2).
      symmetry in E. apply append_eq_nil in E. now destruct E as [-> ->].
Qed.

Lemma star_cons_inv r c s :
  lang (Star r) (String c s) ->
  exists s1 s2, s = s1 +:+ s2 /\ lang r (String c s1) /\ lang (Star r) s2.
Proof.
  intros H. remember (Star r) as r' eqn:Hr. remember (String c s) as t eqn:Ht.
  revert r c s Hr Ht.
  induction H; intros rr a t Hr Ht; try discriminate.
  injection Hr as ->.
  apply append_eq_cons in Ht. destruct Ht as [[-> ->]|(s1' & -> & ->)].
  - now apply IHlang2.
  - eauto.
Qed.

Lemma lang_concat_cons r1 r2 c s1 s2 :
  lang r1 (String c s1) -> lang r2 s2 -> lang (Concat r1 r2) (String c (s1 +:+ s2)).
Proof. intros H1 H2. change (String c (s1 +:+ s2)) with (String c s1 +:+ s2). now constructor. Qed.

Lemma deriv_lang r c s : lang (deriv c r) s <-> lang r (String c s).
Proof.
  revert s. induction r as [| |class|r1 IH1 r2 IH2|r1 IH1 r2 IH2|r IH|r IH]; intros s; simpl.
  - split; intros H; inversion H.
  - split; intros H; inversion H.
  - destruct (class c) eqn:E; split; intros H.
    + apply lang_empty_inv in H. subst. now constructor.
    + apply lang_class_inv in H. destruct H as (c' & [= <- ->] & _). constructor.
    + now apply lang_nomatch_inv in H.
    + apply lang_class_inv in H. destruct H as (c' & [= <- ->] & H). congruence.
  - split.
    + intros H. apply lang_alt_inv in H. destruct H as [H|H].
      * apply lang_concat_inv in H. destruct H as (s1 & s2 & -> & H1 & H2).
        apply IH1 in H1. now apply lang_concat_cons.
      * destruct (nullable r1) eqn:N; [|now apply lang_nomatch_inv in H].
        apply nullable_lang in N. apply IH2 in H.
        change (String c s) with ("" +:+ String c s). now constructor.
    + intros H. apply lang_concat_inv in H. destruct H as (s1 & s2 & E & H1 & H2).
      symmetry in E. apply append_eq_cons in E. destruct E as [[-> ->]|(s1' & -> & ->)].
      * apply lang_alt_r. apply nullable_lang in H1. rewrite H1. now apply IH2.
      * apply lang_alt_l. constructor; [now apply IH1|assumption].
  - split.
    + intros H. apply lang_alt_inv in H.
      destruct H as [H|H]; [apply lang_alt_l; now apply IH1|apply lang_alt_r; now apply IH2].
    + intros H. apply lang_alt_inv in H.
      destruct H as [H|H]; [apply lang_alt_l; now apply IH1|apply lang_alt_r; now apply IH2].
  - split.
    + intros H. apply lang_concat_inv in H. destruct H as (s1 & s2 & -> & H1 & H2).
      apply IH in H1. change (String c (s1 +:+ s2)) with (String c s1 +:+ s2).
      now constructor.
    + intros H. apply star_cons_inv in H. destruct H as (s1 & s2 & -> & H1 & H2).
      constructor; [now apply IH|assumption].
  - split.
    + intros H. apply lang_concat_inv in H. destruct H as (s1 & s2 & -> & H1 & H2).
      apply IH in H1. change (String c (s1 +:+ s2)) with (String c s1 +:+ s2).
      now constructor.
    + intros H. apply lang_plus_inv in H. destruct H as (s1 & s2 & E & H1 & H2).
      symmetry in E. apply append_eq_cons in E. destruct E as [[-> ->]|(s1' & -> & ->)].
      * apply star_cons_inv in H2. destruct H2 as (t1 & t2 & -> & H1' & H2').
        constructor; [now apply IH|assumption].
      * constructor; [now apply IH|assumption].
Qed.

Lemma MatchString_lang r s : MatchString r s = true <-> lang r s.
Proof.
  revert r. induction s as [|c s IH]; intros r; simpl.
  - apply nullable_lang.
  - rewrite IH. apply deriv_lang.
Qed.

Import regexp.

Lemma atoms_append s t : atoms (s +:+ t) = atoms s && atoms t.
Proof.
  induction s as [|c s IH]; [reflexivity|].
  rewrite append_cons. simpl. rewrite IH. now rewrite andb_assoc.
Qed.

Lemma star_atoms s : lang (Star (CharClass not_at_or_space)) s <-> atoms s = true.
Proof.
  split.
  - intros H. remember (Star (CharClass not_at_or_space)) as r eqn:Hr.
    induction H; try discriminate; [reflexivity|].
    injection Hr as ->. apply lang_class_inv in H. destruct H as (c & -> & Hc).
    rewrite append_cons, append_nil_l. simpl. rewrite Hc. now apply IHlang2.
  - induction s as [|c s IH]; simpl; intros H; [constructor|].
    apply andb_true_iff in H. destruct H as [Hc Hs].
    change (String c s) with (String c "" +:+ s).
    constructor; [now constructor|now apply IH].
Qed.

(** [[^@\s]+] *)
Lemma plus_atoms s :
  lang (Plus (CharClass not_at_or_space)) s <-> s <> "" /\ atoms s = true.
Proof.
  split.
  - intros H. apply lang_plus_inv in H. destruct H as (s1 & s2 & -> & H1 & H2).
    apply lang_class_inv in H1. destruct H1 as (c & -> & Hc).
    apply star_atoms in H2. rewrite append_cons, append_nil_l.
    split; [discriminate|]. simpl. now rewrite Hc.
  - intros [Hne H]. destruct s as [|c s]; [contradiction|].
    simpl in H. apply andb_true_iff in H. destruct H as [Hc Hs].
    change (String c s) with (String c "" +:+ s).
    constructor; [now constructor|now apply star_atoms].
Qed.

Lemma atoms_dot : atoms "." = true.
Proof. reflexivity. Qed.

(** [([^@\s]+\.)*]: nothing, or atoms that end in a dot. *)
Lemma star_labels s :
  lang (Star (Concat (Plus (CharClass not_at_or_space)) (CharClass (is_char ".")))) s ->
  s = "" \/ exists z, atoms z = true /\ s = z +:+ ".".
Proof.
  intros H.
  remember (Star (Concat (Plus (CharClass not_at_or_space)) (CharClass (is_char "."))))
    as r eqn:Hr.
  induction H; try discriminate; [now left|].
  injection Hr as ->. right.
  apply lang_concat_inv in H. destruct H as (x & d & -> & Hx & Hd).
  apply plus_atoms in Hx. destruct Hx as [_ Hx].
  apply lang_class_inv in Hd. destruct Hd as (c & -> & Hc).
  apply Ascii.eqb_eq in Hc. subst c.
  destruct (IHlang2 eq_refl) as [->|(z & Hz & ->)].
  - exists x. split; [exact Hx|]. now rewrite append_nil_r.
  - exists (x +:+ "." +:+ z). split.
    + now rewrite !atoms_append, Hx, Hz.
    + now rewrite !append_assoc.
Qed.

Lemma emailRe_address s : lang usermodel.emailRe s <-> address s.
Proof.
  unfold usermodel.emailRe, address. split.
  - intros H.
    apply lang_concat_inv in H. destruct H as (l & s1 & -> & Hl & H).
    apply lang_concat_inv in H. destruct H as (a & s2 & -> & Ha & H).
    apply lang_concat_inv in H. destruct H as (dom & y & -> & Hdom & Hy).
    apply plus_atoms in Hl, Hy. destruct Hl as [Hl1 Hl2], Hy as [Hy1 Hy2].
    apply lang_class_inv in Ha. destruct Ha as (c & -> & Hc).
    apply Ascii.eqb_eq in Hc. subst c.
    apply lang_plus_inv in Hdom. destruct Hdom as (b & rest & -> & Hb & Hrest).
    apply lang_concat_inv in Hb. destruct Hb as (x & d & -> & Hx & Hd).
    apply plus_atoms in Hx. destruct Hx as [Hx1 Hx2].
    apply lang_class_inv in Hd. destruct Hd as (c & -> & Hc).
    apply Ascii.eqb_eq in Hc. subst c.
    apply star_labels in Hrest. destruct Hrest as [->|(z & Hz & ->)].
    + exists l, x, y. rewrite append_nil_r. rewrite !append_assoc.
      repeat split; assumption.
    + exists l, (x +:+ "." +:+ z), y. rewrite !append_assoc.
      split; [reflexivity|]. split; [assumption|].
      split; [destruct x; [contradiction|discriminate]|]. split; [assumption|].
      split; [assumption|]. split; [|assumption].
      now rewrite !atoms_append, Hx2, Hz.
  - intros (l & x & y & -> & Hl & Hx & Hy & Al & Ax & Ay).
    constructor; [now apply plus_atoms|].
    change ("@" +:+ x +:+ "." +:+ y) with (String "@" "" +:+ (x +:+ "." +:+ y)).
    constructor; [now constructor|].
    rewrite <- append_assoc. constructor; [|now apply plus_atoms].
    rewrite <- (append_nil_r (x +:+ ".")).
    constructor; [|constructor].
    constructor; [now apply plus_atoms|now constructor].
Qed.

Lemma address_length s : address s -> (5 <= String.length s)%nat.
Proof.
  intros (l & x & y & -> & Hl & Hx & Hy & _).
  rewrite !append_length.
  destruct l; [contradiction|]. destruct x; [contradiction|]. destruct y; [contradiction|].
  simpl. lia.
Qed.

Import usermodel.

(** The verdict on the address: the length guard refuses nothing that
    the pattern would accept. *)
Lemma email_verdict u :
  validation_errors u !! "email"
  = if String.eqb (Email u) "" then Some "is required"
    else if MatchString emailRe (Email u) then None else Some "is invalid".
Proof.
  unfold validation_errors.
  set (pw := if String.eqb (Password u) "" then _ else _).
  assert (Hpw : pw !! "email" = None).
  { subst pw. destruct (String.eqb (Password u) "");
      [|destruct (String.length (Password u) <? 6)%nat;
        [|destruct (72 <? String.length (Password u))%nat] ];
      rewrite ?lookup_insert_ne by discriminate; apply lookup_empty. }
  destruct (String.eqb (Email u) ""); [apply lookup_insert_eq|].
  destruct (MatchString emailRe (Email u)) eqn:M.
  - apply MatchString_lang, emailRe_address, address_length in M.
    apply Nat.ltb_ge in M. rewrite M. exact Hpw.
  - rewrite orb_true_r. apply lookup_insert_eq.
Qed.

Lemma password_verdict u :
  validation_errors u !! "password"
  = if String.eqb (Password u) "" then Some "is required"
    else if (String.length (Password u) <? 6)%nat
    then Some "is too short (min. 6 characters)"
    else if (72 <? String.length (Password u))%nat
    then Some "is too long (max. 72 characters)"
    else None.
Proof.
  unfold validation_errors.
  destruct (String.eqb (Email u) "");
    [|destruct ((String.length (Email u) <? 5)%nat || negb (MatchString emailRe (Email u)))];
    rewrite ?lookup_insert_ne by discriminate;
    (destruct (String.eqb (Password u) "");
      [|destruct (String.length (Password u) <? 6)%nat;
        [|destruct (72 <? String.length (Password u))%nat] ]);
    rewrite ?lookup_insert_eq; try reflexivity.
Qed.

Lemma validation_errors_fields u key :
  key <> "password" -> key <> "email" -> validation_errors u !! key = None.
Proof.
  intros H1 H2. unfold validation_errors.
  destruct (String.eqb (Email u) "");
    [|destruct ((String.length (Email u) <? 5)%nat || negb (MatchString emailRe (Email u)))];
    rewrite ?lookup_insert_ne by congruence;
    (destruct (String.eqb (Password u) "");
      [|destruct (String.length (Password u) <? 6)%nat;
        [|destruct (72 <? String.length (Password u))%nat] ]);
    rewrite ?lookup_insert_ne by congruence; apply lookup_empty.
Qed.

Lemma Validate_None u : Validate u = None <-> validation_errors u = ∅.
Proof.
  unfold Validate. destruct (Nat.eqb_spec (size (validation_errors u)) 0) as [E|E].
  - apply map_size_empty_iff in E. now rewrite E.
  - split; [discriminate|]. intros H. rewrite H in E. now rewrite map_size_empty in E.
Qed.

(** [Validate] returns nil exactly when the password has 6 to 72 bytes and
    the email is an address: a local part, an at sign and a domain with a
    dot inside, where no part is empty or holds an at sign or white
    space. *)
Theorem Validate_accepts u :
  Validate u = None
  <-> (6 <= String.length (Password u) <= 72)%nat /\ address (Email u).
Proof.
  rewrite Validate_None. split.
  - intros H.
    pose proof (password_verdict u) as Hp. pose proof (email_verdict u) as He.
    rewrite H, lookup_empty in Hp, He. split.
    + destruct (String.eqb (Password u) ""); [discriminate|].
      destruct (Nat.ltb_spec (String.length (Password u)) 6); [discriminate|].
      destruct (Nat.ltb_spec 72 (String.length (Password u))); [discriminate|]. lia.
    + destruct (String.eqb (Email u) ""); [discriminate|].
      destruct (MatchString emailRe (Email u)) eqn:M; [|discriminate].
      now apply emailRe_address, MatchString_lang.
  - intros [Hp He]. apply map_eq. intros key. rewrite lookup_empty.
    destruct (decide (key = "password")) as [->|H1];
      [|destruct (decide (key = "email")) as [->|H2] ].
    + rewrite password_verdict.
      destruct (String.eqb_spec (Password u) "") as [E|_];
        [rewrite E in Hp; simpl in Hp; lia|].
      destruct (Nat.ltb_spec (String.length (Password u)) 6); [lia|].
      destruct (Nat.ltb_spec 72 (String.length (Password u))); [lia|]. reflexivity.
    + rewrite email_verdict.
      destruct (String.eqb_spec (Email u) "") as [E|_].
      { apply address_length in He. rewrite E in He. simpl in He. lia. }
      apply emailRe_address, MatchString_lang in He. now rewrite He.
    + now apply validation_errors_fields.
Qed.

(** The map that [Validate] returns is not empty and has at most the keys
    password and email, each with the message of the first rule that the
    field breaks: is required for an empty field, is invalid for an email
    that is no address, too short and too long for the password; a field
    that breaks no rule has no entry. *)
Theorem Validate_reports u errors :
  Validate u = Some errors ->
  errors <> ∅
  /\ (forall key, is_Some (errors !! key) -> key = "password" \/ key = "email")
  /\ (errors !! "email" = Some "is required" <-> Email u = "")
  /\ (errors !! "email" = Some "is invalid" <-> Email u <> "" /\ ~ address (Email u))
  /\ (errors !! "email" = None <-> address (Email u))
  /\ (errors !! "password" = Some "is required" <-> Password u = "")
  /\ (errors !! "password" = Some "is too short (min. 6 characters)"
      <-> (0 < String.length (Password u) < 6)%nat)
  /\ (errors !! "password" = Some "is too long (max. 72 characters)"
      <-> (72 < String.length (Password u))%nat)
  /\ (errors !! "password" = None <-> (6 <= String.length (Password u) <= 72)%nat).
Proof.
  intros H.
  assert (errors = validation_errors u /\ errors <> ∅) as [-> Hne].
  { unfold Validate in H.
    destruct (Nat.eqb_spec (size (validation_errors u)) 0) as [E|E]; [discriminate|].
    injection H as <-. split; [reflexivity|]. intros E'. rewrite E' in E.
    now rewrite map_size_empty in E. }
  split; [exact Hne|]. split.
  { intros key [v Hv].
    destruct (decide (key = "password")) as [->|H1]; [now left|].
    destruct (decide (key = "email")) as [->|H2]; [now right|].
    rewrite validation_errors_fields in Hv by assumption. discriminate Hv. }
  rewrite email_verdict, password_verdict.
  assert (Hm : MatchString emailRe (Email u) = true <-> address (Email u)).
  { rewrite MatchString_lang. apply emailRe_address. }
  assert (Hlen : Password u = "" <-> String.length (Password u) = 0%nat).
  { destruct (Password u); simpl; split; (discriminate || reflexivity || lia). }
  destruct (String.eqb_spec (Email u) "") as [E|E];
    [|destruct (MatchString emailRe (Email u)) eqn:M];
    (destruct (String.eqb_spec (Password u) "") as [P|P];
      [|destruct (Nat.ltb_spec (String.length (Password u)) 6);
        [|destruct (Nat.ltb_spec 72 (String.length (Password u)))] ]).
  all: repeat split; try discriminate; try congruence; try lia; try tauto.
  all: try (intros Ha; apply address_length in Ha; rewrite E in Ha; simpl in Ha; lia).
  all: try (intros _; now apply Hm).
  all: try (intros (_ & Hn); exfalso; apply Hn; now apply Hm).
  all: try (intros _; split; [assumption|]; intros Ha; apply Hm in Ha; congruence).
  all: try (intros Ha; apply Hm in Ha; congruence).
  all: try (rewrite P; simpl; lia).
  all: try (intros _; apply Hlen in P; lia).
  all: try (intros ?; apply Hlen; lia).
  all: destruct (Password u); [contradiction|simpl; lia].
Qed.

Import base64.

Example EncodeToString_examples :
  map EncodeToString [""; "A"; "AB"; "ABC"; "Hello, world"]
  = [""; "QQ=="; "QUI="; "QUJD"; "SGVsbG8sIHdvcmxk"].
Proof. reflexivity. Qed.

Example Decode_examples :
  map (ReadAll_NewDecoder []) ["QQ=="; "QUI="; "QUJD"; "QR=="; "QUJD
QQ=="; "QQ"; "QQ=Q"; "Q==="; "QQ==QUJD"; "QU*D"]
  = [Some "A"; Some "AB"; Some "ABC"; Some "A"; Some "ABCA"; None; None; None; None; None].
Proof. reflexivity. Qed.

(** Padding inside the text is accepted where it ends a chunk. *)
Example chunk_examples :
  map (fun chunks => ReadAll_NewDecoder chunks "QQ==QUJD") [[]; [0%nat]; [1%nat]; [0%nat; 3%nat]]
  = [None; Some "AABC"; None; Some "AABC"].
Proof. reflexivity. Qed.

(** Bits that do not overlap add up. *)
Lemma lor_disjoint x y k :
  0 <= k -> x mod 2 ^ k = 0 -> 0 <= y < 2 ^ k -> Z.lor x y = x + y.
Proof.
  intros Hk Hx Hy.
  rewrite <- Z.lxor_lor, <- Z.add_nocarry_lxor; try reflexivity.
  all: apply Z.bits_inj'; intros n Hn; rewrite Z.land_spec, Z.bits_0.
  all: destruct (Z.lt_ge_cases n k) as [Hlt|Hge].
  all: try (rewrite (Z.mod_pow2_bits_low x k n) in * by lia).
  - assert (Z.testbit x n = false) as ->; [|reflexivity].
    rewrite <- (Z.mod_pow2_bits_low x k n) by lia. rewrite Hx. apply Z.bits_0.
  - destruct (Z.eq_dec y 0) as [->|Hy0]; [now rewrite Z.bits_0, andb_false_r|].
    rewrite (Z.bits_above_log2 y n); [apply andb_false_r|lia|].
    apply Z.log2_lt_pow2; [lia|]. apply Z.lt_le_trans with (2 ^ k); [lia|].
    apply Z.pow_le_mono_r; lia.
  - assert (Z.testbit x n = false) as ->; [|reflexivity].
    rewrite <- (Z.mod_pow2_bits_low x k n) by lia. rewrite Hx. apply Z.bits_0.
  - destruct (Z.eq_dec y 0) as [->|Hy0]; [now rewrite Z.bits_0, andb_false_r|].
    rewrite (Z.bits_above_log2 y n); [apply andb_false_r|lia|].
    apply Z.log2_lt_pow2; [lia|]. apply Z.lt_le_trans with (2 ^ k); [lia|].
    apply Z.pow_le_mono_r; lia.
Qed.

Lemma uint_range c : 0 <= uint c < 256.
Proof. unfold uint. pose proof (N_ascii_bounded c). lia. Qed.

Lemma byte_uint c : byte (uint c) = c.
Proof.
  unfold byte. change 255 with (Z.ones 8). rewrite Z.land_ones by lia.
  rewrite Z.mod_small by apply uint_range.
  unfold uint. rewrite N2Z.id. apply ascii_N_embedding.
Qed.

Lemma byte_mod v : byte v = byte (v mod 256).
Proof.
  unfold byte. change 255 with (Z.ones 8). rewrite !Z.land_ones by lia.
  now rewrite Z.mod_mod by lia.
Qed.

Lemma decodeMap_encode v : 0 <= v < 64 -> decodeMap (encode v) = Some v.
Proof.
  intros Hv.
  assert (H : forall n, (n < 64)%nat -> decodeMap (encode (Z.of_nat n)) = Some (Z.of_nat n)).
  { intros n Hn. do 64 (destruct n as [|n]; [reflexivity|]). lia. }
  rewrite <- (Z2Nat.id v) by lia. apply H. lia.
Qed.

Lemma encode_not_padding v : 0 <= v < 64 -> Ascii.eqb (encode v) StdPadding = false.
Proof.
  intros Hv.
  assert (H : forall n, (n < 64)%nat -> Ascii.eqb (encode (Z.of_nat n)) StdPadding = false).
  { intros n Hn. do 64 (destruct n as [|n]; [reflexivity|]). lia. }
  rewrite <- (Z2Nat.id v) by lia. apply H. lia.
Qed.

Lemma encode_not_newline v :
  Ascii.eqb (encode v) "013"%char || Ascii.eqb (encode v) "010"%char = false.
Proof.
  unfold encode. generalize (Z.to_nat v). intros n.
  do 65 (destruct n as [|n]; [reflexivity|]). reflexivity.
Qed.

Lemma sextet_range x : 0 <= Z.land x 63 < 64.
Proof. change 63 with (Z.ones 6). rewrite Z.land_ones by lia. apply Z.mod_pos_bound. lia. Qed.

Ltac arith :=
  repeat rewrite Z.shiftl_mul_pow2 by lia;
  repeat rewrite Z.shiftr_div_pow2 by lia;
  change 63 with (Z.ones 6);
  repeat rewrite Z.land_ones by lia;
  change (2 ^ 6) with 64; change (2 ^ 8) with 256; change (2 ^ 12) with 4096;
  change (2 ^ 16) with 65536; change (2 ^ 18) with 262144.

(** The number of a group of three bytes. *)
Lemma val3 a b c :
  Z.lor (Z.lor (Z.shiftl (uint a) 16) (Z.shiftl (uint b) 8)) (uint c)
  = uint a * 65536 + uint b * 256 + uint c.
Proof.
  pose proof (uint_range a). pose proof (uint_range b). pose proof (uint_range c).
  arith.
  rewrite (lor_disjoint (uint a * 65536) (uint b * 256) 16); try lia.
  - rewrite (lor_disjoint _ (uint c) 8); try lia.
    change (2 ^ 8) with 256. Z.div_mod_to_equations. lia.
  - change (2 ^ 16) with 65536. Z.div_mod_to_equations. lia.
Qed.

Lemma val2 a b :
  Z.lor (Z.shiftl (uint a) 16) (Z.shiftl (uint b) 8) = uint a * 65536 + uint b * 256.
Proof.
  pose proof (uint_range a). pose proof (uint_range b).
  arith.
  rewrite (lor_disjoint (uint a * 65536) (uint b * 256) 16); try lia.
  change (2 ^ 16) with 65536. Z.div_mod_to_equations. lia.
Qed.

(** The number of four sextets. *)
Lemma val4 v0 v1 v2 v3 :
  0 <= v0 < 64 -> 0 <= v1 < 64 -> 0 <= v2 < 64 -> 0 <= v3 < 64 ->
  Z.lor (Z.lor (Z.lor (Z.shiftl v0 18) (Z.shiftl v1 12)) (Z.shiftl v2 6)) v3
  = v0 * 262144 + v1 * 4096 + v2 * 64 + v3.
Proof.
  intros H0 H1 H2 H3. arith.
  rewrite (lor_disjoint (v0 * 262144) (v1 * 4096) 18); try lia.
  2: { change (2 ^ 18) with 262144. Z.div_mod_to_equations. lia. }
  rewrite (lor_disjoint _ (v2 * 64) 12); try lia.
  2: { change (2 ^ 12) with 4096. Z.div_mod_to_equations. lia. }
  rewrite (lor_disjoint _ v3 6); try lia.
  change (2 ^ 6) with 64. Z.div_mod_to_equations. lia.
Qed.

Lemma val4_3 v0 v1 v2 :
  0 <= v0 < 64 -> 0 <= v1 < 64 -> 0 <= v2 < 64 ->
  Z.lor (Z.lor (Z.shiftl v0 18) (Z.shiftl v1 12)) (Z.shiftl v2 6)
  = v0 * 262144 + v1 * 4096 + v2 * 64.
Proof.
  intros H0 H1 H2. arith.
  rewrite (lor_disjoint (v0 * 262144) (v1 * 4096) 18); try lia.
  2: { change (2 ^ 18) with 262144. Z.div_mod_to_equations. lia. }
  rewrite (lor_disjoint _ (v2 * 64) 12); try lia.
  change (2 ^ 12) with 4096. Z.div_mod_to_equations. lia.
Qed.

Lemma val4_2 v0 v1 :
  0 <= v0 < 64 -> 0 <= v1 < 64 ->
  Z.lor (Z.shiftl v0 18) (Z.shiftl v1 12) = v0 * 262144 + v1 * 4096.
Proof.
  intros H0 H1. arith.
  rewrite (lor_disjoint (v0 * 262144) (v1 * 4096) 18); try lia.
  change (2 ^ 18) with 262144. Z.div_mod_to_equations. lia.
Qed.

Lemma byte_of x c : x mod 256 = uint c -> byte x = c.
Proof. intros H. rewrite byte_mod, H. apply byte_uint. Qed.

Lemma quantum_encode a b c :
  let val := Z.lor (Z.lor (Z.shiftl (uint a) 16) (Z.shiftl (uint b) 8)) (uint c) in
  quantum (encode (Z.land (Z.shiftr val 18) 63)) (encode (Z.land (Z.shiftr val 12) 63))
    (encode (Z.land (Z.shiftr val 6) 63)) (encode (Z.land val 63))
  = Some (String a (String b (String c ""))).
Proof.
  intros val. unfold quantum. rewrite !decodeMap_encode by apply sextet_range.
  rewrite val4 by apply sextet_range.
  subst val. rewrite val3.
  pose proof (uint_range a). pose proof (uint_range b). pose proof (uint_range c).
  arith. f_equal. f_equal; [|f_equal; [|f_equal] ]; apply byte_of;
    Z.div_mod_to_equations; lia.
Qed.

Lemma last_quantum_encode2 a b :
  let val := Z.lor (Z.shiftl (uint a) 16) (Z.shiftl (uint b) 8) in
  last_quantum (encode (Z.land (Z.shiftr val 18) 63)) (encode (Z.land (Z.shiftr val 12) 63))
    (encode (Z.land (Z.shiftr val 6) 63)) StdPadding
  = Some (String a (String b "")).
Proof.
  intros val. unfold last_quantum. change (Ascii.eqb StdPadding StdPadding) with true.
  cbv iota. rewrite encode_not_padding by apply sextet_range.
  rewrite !decodeMap_encode by apply sextet_range.
  rewrite val4_3 by apply sextet_range.
  subst val. rewrite val2.
  pose proof (uint_range a). pose proof (uint_range b).
  arith. f_equal. f_equal; [|f_equal]; apply byte_of; Z.div_mod_to_equations; lia.
Qed.

Lemma last_quantum_encode1 a :
  let val := Z.shiftl (uint a) 16 in
  last_quantum (encode (Z.land (Z.shiftr val 18) 63)) (encode (Z.land (Z.shiftr val 12) 63))
    StdPadding StdPadding
  = Some (String a "").
Proof.
  intros val. unfold last_quantum. change (Ascii.eqb StdPadding StdPadding) with true.
  cbv iota. rewrite !decodeMap_encode by apply sextet_range.
  rewrite val4_2 by apply sextet_range.
  subst val. pose proof (uint_range a).
  arith. f_equal. f_equal. apply byte_of; Z.div_mod_to_equations; lia.
Qed.

Lemma EncodeToString_nil src : EncodeToString src = "" -> src = "".
Proof. destruct src as [|a [|b [|c rest]]]; simpl; [reflexivity|discriminate..]. Qed.

(** Three bytes at a time. *)
Lemma by_threes (P : string -> Prop) :
  P "" ->
  (forall a, P (String a "")) ->
  (forall a b, P (String a (String b ""))) ->
  (forall a b c rest, P rest -> P (String a (String b (String c rest)))) ->
  forall s, P s.
Proof.
  intros H0 H1 H2 H3.
  assert (H : forall n s, (String.length s <= n)%nat -> P s).
  { induction n as [|n IH]; intros s Hs.
    - destruct s; [exact H0|simpl in Hs; lia].
    - destruct s as [|a [|b [|c rest]]]; auto.
      apply H3. apply IH. simpl in Hs. lia. }
  intros s. now apply (H (String.length s)).
Qed.

Lemma Decode_EncodeToString src : Decode (EncodeToString src) = Some src.
Proof.
  induction src as [|a|a b|a b c rest IH] using by_threes.
  - reflexivity.
  - apply last_quantum_encode1.
  - apply last_quantum_encode2.
  - cbn [EncodeToString Decode]. cbv zeta.
    destruct (EncodeToString rest) as [|e es] eqn:E.
    + apply EncodeToString_nil in E. subst rest.
      unfold last_quantum. rewrite encode_not_padding by apply sextet_range.
      apply quantum_encode.
    + rewrite quantum_encode. rewrite IH. reflexivity.
Qed.

Lemma newlineFilter_EncodeToString src :
  newlineFilter (EncodeToString src) = EncodeToString src.
Proof.
  induction src as [|a|a b|a b c rest IH] using by_threes.
  - reflexivity.
  - cbn [EncodeToString newlineFilter]. cbv zeta. now rewrite !encode_not_newline.
  - cbn [EncodeToString newlineFilter]. cbv zeta. now rewrite !encode_not_newline.
  - cbn [EncodeToString newlineFilter]. cbv zeta. rewrite !encode_not_newline. now rewrite IH.
Qed.

Lemma split_quanta_nil n : split_quanta n "" = ("", "").
Proof. now destruct n. Qed.

(** A chunk of an encoded text and what follows it are encoded texts. *)
Lemma split_quanta_EncodeToString n src :
  exists a b,
    src = a +:+ b
    /\ split_quanta n (EncodeToString src) = (EncodeToString a, EncodeToString b).
Proof.
  revert src. induction n as [|n IH]; intros src.
  { exists "", src. split; reflexivity. }
  destruct src as [|x [|y [|z rest] ] ].
  - exists "", "". split; reflexivity.
  - exists (String x ""), "". split; [reflexivity|].
    cbn [EncodeToString split_quanta]. cbv zeta. now rewrite split_quanta_nil.
  - exists (String x (String y "")), "". split; [reflexivity|].
    cbn [EncodeToString split_quanta]. cbv zeta. now rewrite split_quanta_nil.
  - destruct (IH rest) as (a & b & Hab & Hs).
    exists (String x (String y (String z a))), b. split.
    + rewrite !append_cons. now rewrite <- Hab.
    + cbn [EncodeToString split_quanta]. cbv zeta. rewrite Hs.
      destruct a as [|? [|? [|? ?] ] ]; reflexivity.
Qed.

Lemma decode_chunks_EncodeToString chunks src :
  decode_chunks chunks (EncodeToString src) = Some src.
Proof.
  revert src. induction chunks as [|n chunks IH]; intros src.
  { apply Decode_EncodeToString. }
  cbn [decode_chunks].
  destruct (split_quanta_EncodeToString (S n) src) as (a & b & -> & Hs).
  rewrite Hs.
  destruct (EncodeToString b) as [|c rest] eqn:Hb; [apply Decode_EncodeToString|].
  rewrite Decode_EncodeToString, <- Hb, IH. reflexivity.
Qed.

Lemma ReadAll_EncodeToString chunks src :
  ReadAll_NewDecoder chunks (EncodeToString src) = Some src.
Proof.
  unfold ReadAll_NewDecoder. rewrite newlineFilter_EncodeToString.
  apply decode_chunks_EncodeToString.
Qed.

Import acmecert.

Section AcmeCertFacts.

Context {E K Store Rand : Type}.
Context (Encrypt : Rand -> string -> string -> Rand * (E + string)).
Context (Decrypt : string -> string -> E + string).
Context (chunks : string -> list nat).
Context (GenerateKey : Rand -> Rand * (E + K)).
Context (EncodeToMemory : K -> string).
Context (ParseRawPrivateKey : string -> E + ParsedKey K).
Context (Update_cert : Store -> N -> string -> Store * option E).

Lemma decryptBase64_EncodeToString cipherText aesKey :
  decryptBase64 Decrypt chunks (base64.EncodeToString cipherText) aesKey
  = match Decrypt cipherText aesKey with
    | inl err => inl (Cause err)
    | inr decrypted => inr decrypted
    end.
Proof. unfold decryptBase64. now rewrite ReadAll_EncodeToString. Qed.

Lemma encryptBase64_inr rand data aesKey rand' s :
  encryptBase64 Encrypt rand data aesKey = (rand', inr s) ->
  exists cipherText,
    Encrypt rand data aesKey = (rand', inr cipherText)
    /\ s = base64.EncodeToString cipherText.
Proof.
  unfold encryptBase64.
  destruct (Encrypt rand data aesKey) as [r [err|cipherText]]; [discriminate|].
  intros [= <- <-]. now exists cipherText.
Qed.

(** What [encryptBase64] returns is the base64 text of what the cipher
    returned, from which the decoder of [decryptBase64] reads the cipher
    text back in whatever chunks it gets the text: [decryptBase64] on it
    answers as the cipher's decryption of
    that text does, and gives the data back when the cipher does. *)
Theorem base64_layer_is_transparent rand data aesKey rand' s :
  encryptBase64 Encrypt rand data aesKey = (rand', inr s) ->
  exists cipherText,
    Encrypt rand data aesKey = (rand', inr cipherText)
    /\ s = base64.EncodeToString cipherText
    /\ (forall sizes, base64.ReadAll_NewDecoder sizes s = Some cipherText)
    /\ decryptBase64 Decrypt chunks s aesKey
       = match Decrypt cipherText aesKey with
         | inl err => inl (Cause err)
         | inr decrypted => inr decrypted
         end
    /\ (Decrypt cipherText aesKey = inr data -> decryptBase64 Decrypt chunks s aesKey = inr data).
Proof.
  intros H. destruct (encryptBase64_inr _ _ _ _ _ H) as (cipherText & Hc & ->).
  exists cipherText. split; [exact Hc|]. split; [reflexivity|].
  split; [intros sizes; apply ReadAll_EncodeToString|].
  rewrite decryptBase64_EncodeToString. split; [reflexivity|]. now intros ->.
Qed.

Lemma decryptPrivateKey_encryptPrivateKey rand k aesKey rand' s :
  (forall r data r' cipherText,
     Encrypt r data aesKey = (r', inr cipherText) -> Decrypt cipherText aesKey = inr data) ->
  (forall k, ParseRawPrivateKey (EncodeToMemory k) = inr (RSAKey k)) ->
  encryptPrivateKey Encrypt EncodeToMemory rand k aesKey = (rand', inr s) ->
  decryptPrivateKey Decrypt chunks ParseRawPrivateKey s aesKey = inr k.
Proof.
  intros Haes Hpem H. unfold encryptPrivateKey in H.
  destruct (encryptBase64_inr _ _ _ _ _ H) as (cipherText & Hc & ->).
  unfold decryptPrivateKey. rewrite decryptBase64_EncodeToString, (Haes _ _ _ _ Hc), Hpem.
  reflexivity.
Qed.

(** When the cipher decrypts what it encrypts under the key and the parser
    reads the PEM form of a key back, a certificate that [New] returns
    holds the domain, no certificate chain yet (so it is not valid), and
    the two keys that were generated, in this order: the account key and
    the private key decrypt to them. *)
Theorem new_certificate_keeps_its_keys rand domainID aesKey rand' crt :
  (forall r data r' cipherText,
     Encrypt r data aesKey = (r', inr cipherText) -> Decrypt cipherText aesKey = inr data) ->
  (forall k, ParseRawPrivateKey (EncodeToMemory k) = inr (RSAKey k)) ->
  New Encrypt GenerateKey EncodeToMemory rand domainID aesKey = (rand', inr crt) ->
  DomainID crt = domainID
  /\ Cert crt = ""
  /\ IsValid crt = false
  /\ exists r1 leKey r2 r3 privKey,
       GenerateKey rand = (r1, inr leKey)
       /\ fst (Encrypt r1 (EncodeToMemory leKey) aesKey) = r2
       /\ GenerateKey r2 = (r3, inr privKey)
       /\ fst (Encrypt r3 (EncodeToMemory privKey) aesKey) = rand'
       /\ DecryptedLetsencryptKey Decrypt chunks ParseRawPrivateKey crt aesKey = inr leKey
       /\ DecryptedPrivateKey Decrypt chunks ParseRawPrivateKey crt aesKey = inr privKey.
Proof.
  intros Haes Hpem. unfold New.
  destruct (GenerateKey rand) as [r1 [e|leKey] ]; [discriminate|].
  destruct (encryptPrivateKey Encrypt EncodeToMemory r1 leKey aesKey) as [r2 [e|s1] ] eqn:E1;
    [discriminate|].
  destruct (GenerateKey r2) as [r3 [e|privKey] ] eqn:G2; [discriminate|].
  destruct (encryptPrivateKey Encrypt EncodeToMemory r3 privKey aesKey) as [r4 [e|s2] ] eqn:E2;
    [discriminate|].
  intros [= <- <-]. split; [reflexivity|]. split; [reflexivity|].
  split; [unfold IsValid; simpl; now rewrite andb_false_r|].
  exists r1, leKey, r2, r3, privKey. split; [reflexivity|].
  pose proof E1 as E1'. pose proof E2 as E2'.
  unfold encryptPrivateKey in E1', E2'.
  destruct (encryptBase64_inr _ _ _ _ _ E1') as (c1 & Hc1 & _).
  destruct (encryptBase64_inr _ _ _ _ _ E2') as (c2 & Hc2 & _).
  split; [now rewrite Hc1|]. split; [exact G2|]. split; [now rewrite Hc2|].
  unfold DecryptedLetsencryptKey, DecryptedPrivateKey. simpl.
  split; eapply decryptPrivateKey_encryptPrivateKey; eassumption.
Qed.

Lemma EncodeToString_empty src : base64.EncodeToString src = "" <-> src = "".
Proof. split; [apply EncodeToString_nil|now intros ->]. Qed.

(** [SaveCert] either fails to encrypt, and then changes neither the
    struct nor the store, or sets the certificate of the struct to a text
    that decrypts to the bundle and asks the store to save that text for
    the identifier; the struct keeps it also when the store fails.  The
    struct is valid afterwards exactly when its domain and both keys were
    set and the cipher text is not empty. *)
Theorem SaveCert_keeps_the_certificate_in_memory
    c rand db certBundlePEM aesKey c' rand' db' err :
  (forall r data r' cipherText,
     Encrypt r data aesKey = (r', inr cipherText) -> Decrypt cipherText aesKey = inr data) ->
  SaveCert Encrypt Update_cert c rand db certBundlePEM aesKey = (c', rand', db', err) ->
  (exists e, Encrypt rand certBundlePEM aesKey = (rand', inl e)
             /\ err = Some (EncryptingData e) /\ c' = c /\ db' = db)
  \/ (exists cipherText,
        Encrypt rand certBundlePEM aesKey = (rand', inr cipherText)
        /\ c' = with_Cert (base64.EncodeToString cipherText) c
        /\ decryptBase64 Decrypt chunks (Cert c') aesKey = inr certBundlePEM
        /\ db' = fst (Update_cert db (ID c) (Cert c'))
        /\ err = option_map Cause (snd (Update_cert db (ID c) (Cert c')))
        /\ (IsValid c' = true
            <-> DomainID c <> 0%N /\ LetsencryptKey c <> "" /\ PrivateKey c <> ""
                /\ cipherText <> "")).
Proof using Encrypt Decrypt Update_cert.
  intros Haes. unfold SaveCert, encryptBase64.
  destruct (Encrypt rand certBundlePEM aesKey) as [r [e|cipherText] ] eqn:Henc.
  - intros [= <- <- <- <-]. left. now exists e.
  - simpl ID.
    destruct (Update_cert db (ID c) (base64.EncodeToString cipherText)) as [db1 err1] eqn:Hup.
    intros [= <- <- <- <-]. right. exists cipherText. split; [reflexivity|].
    split; [reflexivity|]. simpl Cert. rewrite Hup.
    split; [rewrite decryptBase64_EncodeToString; now rewrite (Haes _ _ _ _ Henc)|].
    split; [reflexivity|]. split; [reflexivity|].
    unfold IsValid. simpl. rewrite !andb_true_iff, !negb_true_iff.
    rewrite N.eqb_neq, !String.eqb_neq, EncodeToString_empty.
    split; [intros [ [ [? ?] ?] ?]|intros (? & ? & ? & ?)]; repeat split; assumption.
Qed.

End AcmeCertFacts.

Lemma least_None {A} (id : A -> N) rows : gorm.least id rows = None <-> rows = [].
Proof.
  destruct rows as [|r rest]; simpl; [tauto|].
  split; [|discriminate].
  destruct (gorm.least id rest) as [r'|]; [destruct (N.leb _ _)|]; discriminate.
Qed.

Lemma least_Some {A} (id : A -> N) rows r :
  gorm.least id rows = Some r ->
  r ∈ rows /\ forall r', r' ∈ rows -> (id r <= id r')%N.
Proof.
  revert r. induction rows as [|r0 rest IH]; intros r; simpl; [discriminate|].
  destruct (gorm.least id rest) as [r1|] eqn:E.
  - destruct (IH r1 eq_refl) as [Hin Hle].
    destruct (N.leb_spec (id r0) (id r1)); intros [= <-].
    + split; [left|]. intros r' Hr'. apply elem_of_cons in Hr'.
      destruct Hr' as [->|Hr']; [lia|]. specialize (Hle _ Hr'). lia.
    + split; [now right|]. intros r' Hr'. apply elem_of_cons in Hr'.
      destruct Hr' as [->|Hr']; [lia|auto].
  - intros [= <-]. apply least_None in E. subst rest.
    split; [left|]. intros r' Hr'. apply list_elem_of_singleton in Hr'. subst. lia.
Qed.

Lemma elem_of_List_filter {A} (f : A -> bool) l x :
  x ∈ List.filter f l <-> f x = true /\ x ∈ l.
Proof. rewrite !list_elem_of_In, filter_In. tauto. Qed.

(* ---------- theorems ---------- *)

Import oauthclient.

(** [Authenticate] returns a client only with a nil error, and then the
    client of the table with the given identifier and the given secret
    that has the least primary key; it returns nil and nil exactly when
    the query succeeds and no client has both; the error of a failed query
    is passed on. *)
Theorem Authenticate_needs_both_credentials {E} (db : E + list OauthClient)
    clientID clientSecret :
  match Authenticate db clientID clientSecret with
  | (Some c, err) =>
      err = None
      /\ ClientID c = clientID /\ ClientSecret c = clientSecret
      /\ exists rows,
           db = inr rows /\ c ∈ rows
           /\ forall c', c' ∈ rows -> ClientID c' = clientID ->
                         ClientSecret c' = clientSecret -> (ID c <= ID c')%N
  | (None, None) =>
      exists rows,
        db = inr rows
        /\ forall c, c ∈ rows -> ClientID c <> clientID \/ ClientSecret c <> clientSecret
  | (None, Some err) => db = inl err
  end.
Proof.
  unfold Authenticate, gorm.Where_First. destruct db as [err|rows]; [reflexivity|].
  destruct (gorm.least ID _) as [c|] eqn:L.
  - apply least_Some in L. destruct L as [Hin Hle].
    apply elem_of_List_filter in Hin. destruct Hin as [Hc Hin].
    apply andb_true_iff in Hc. destruct Hc as [H1 H2].
    apply String.eqb_eq in H1, H2.
    split; [reflexivity|]. split; [exact H1|]. split; [exact H2|].
    exists rows. split; [reflexivity|]. split; [exact Hin|].
    intros c' Hin' H1' H2'. apply Hle. apply elem_of_List_filter. split; [|exact Hin'].
    apply andb_true_iff. split; now apply String.eqb_eq.
  - apply least_None in L. exists rows. split; [reflexivity|].
    intros c Hin.
    destruct (String.eqb_spec (ClientID c) clientID) as [H1|H1]; [|now left].
    destruct (String.eqb_spec (ClientSecret c) clientSecret) as [H2|H2]; [|now right].
    exfalso. assert (Hf : c ∈ List.filter
                        (fun c => String.eqb (ClientID c) clientID
                                  && String.eqb (ClientSecret c) clientSecret) rows).
    { apply elem_of_List_filter. split; [|exact Hin].
      apply andb_true_iff. split; now apply String.eqb_eq. }
    rewrite L in Hf. now apply elem_of_nil in Hf.
Qed.

Section RequireProjectFacts.

Context {E V Store : Type}.
Context (CurrentUser : gin.Context V -> option user.User).
Context (InternalServerError : gin.Context V -> option E -> gin.Context V).
Context (CurrentProjectKey : string).
Context (project_value : project.Project -> V).
Context (DB : E + Store).
Context (FindByName : Store -> string -> E + option project.Project).

(** The middleware hands the request to the rest of the chain only for a
    project of the given name that belongs to the current user, and then
    with that project set under the key of the current project.
    Otherwise the rest of the chain is not run and the chain is aborted;
    a project of another user is answered exactly as a missing one, with
    the 404 [not_found]. *)
Theorem RequireProject_passes_the_owner_only (c : gin.Context V) :
  (forall proj,
     owns CurrentUser DB FindByName c proj ->
     forall next,
       middleware.RequireProject CurrentUser InternalServerError CurrentProjectKey
         project_value DB FindByName next c
       = next (gin.Set_ c CurrentProjectKey (project_value proj)))
  /\ ((forall proj, ~ owns CurrentUser DB FindByName c proj) ->
      forall next next',
        middleware.RequireProject CurrentUser InternalServerError CurrentProjectKey
          project_value DB FindByName next c
        = middleware.RequireProject CurrentUser InternalServerError CurrentProjectKey
            project_value DB FindByName next' c
        /\ gin.Aborted
             (middleware.RequireProject CurrentUser InternalServerError CurrentProjectKey
                project_value DB FindByName next c) = true)
  /\ (forall u db,
        CurrentUser c = Some u -> DB = inr db ->
        FindByName db (gin.Param c "project_name") = inr None
        \/ (exists other,
              FindByName db (gin.Param c "project_name") = inr (Some other)
              /\ project.UserID other <> user.ID u) ->
        forall next,
          middleware.RequireProject CurrentUser InternalServerError CurrentProjectKey
            project_value DB FindByName next c
          = middleware.not_found c).
Proof.
  unfold middleware.RequireProject, owns. split; [|split].
  - intros proj (u & db & -> & -> & -> & Hu) next.
    rewrite Hu, N.eqb_refl. reflexivity.
  - intros Hno next next'.
    destruct (CurrentUser c) as [u|]; [|split; reflexivity].
    destruct DB as [err|db]; [split; reflexivity|].
    destruct (FindByName db (gin.Param c "project_name")) as [err|[proj|]] eqn:F;
      [split; reflexivity| |split; reflexivity].
    destruct (N.eqb_spec (project.UserID proj) (user.ID u)) as [Hu|Hu]; [|split; reflexivity].
    exfalso. apply (Hno proj). now exists u, db.
  - intros u db -> -> [->|(other & -> & Hu)] next; [reflexivity|].
    apply N.eqb_neq in Hu. now rewrite Hu.
Qed.

End RequireProjectFacts.

Lemma unloadable_job_is_refused_witness :
  unloadable (Decoded job_unknown) (scenarioA local_env)
  /\ snd (Work local_env (Decoded job_unknown) (scenarioA local_env)) = Err RecordNotFound
  /\ s3 (fst (Work local_env (Decoded job_unknown) (scenarioA local_env)))
     = s3 (scenarioA local_env).
Proof.
  assert (Hun : unloadable (Decoded job_unknown) (scenarioA local_env))
    by (left; reflexivity).
  destruct (unloadable_job_is_refused local_env (Decoded job_unknown) (scenarioA local_env) Hun)
    as (_ & Hup & _ & Hs3 & _).
  split; [exact Hun|]. split; [|exact Hs3].
  apply Hup. intros n. reflexivity.
Defined.

Lemma uploaded_files_come_from_the_bundle_witness :
  ok (webroot_upload local_env (webroot_of (deployment42 StatePendingDeploy))
        {| hdr_Name := "index.html"; hdr_IsDir := false |} "<html></html>")
    ∈ trace local_env jobA (scenarioA local_env)
  /\ s3client.BucketRegion local_env <> ""
  /\ exists depl proj, loaded jobA (scenarioA local_env) depl proj.
Proof.
  assert (Hin : ok (webroot_upload local_env (webroot_of (deployment42 StatePendingDeploy))
                      {| hdr_Name := "index.html"; hdr_IsDir := false |} "<html></html>")
                ∈ trace local_env jobA (scenarioA local_env)).
  { apply (list_elem_of_lookup_2 _ 5). vm_compute. reflexivity. }
  destruct (uploaded_files_come_from_the_bundle local_env jobA (scenarioA local_env) _
              Hin eq_refl)
    as (Hregion & _ & depl & proj & Hl & _).
  split; [exact Hin|]. split; [exact Hregion|]. exists depl, proj. exact Hl.
Defined.

Lemma bundles_and_other_objects_are_kept_witness :
  s3 (world_after local_env jobA (scenarioA local_env))
    !! (s3client.BucketRegion local_env, s3client.BucketName local_env,
        "deployments/ab12-42/raw-bundle.tar.gz")
  = Some raw_bundle.
Proof.
  destruct (bundles_and_other_objects_are_kept local_env jobA (scenarioA local_env)
              (deployment42 StatePendingDeploy) eq_refl) as [_ H].
  specialize (H "raw-bundle.tar.gz" (or_introl eq_refl)).
  etransitivity; [exact H|]. reflexivity.
Defined.

Lemma content_type_has_no_parameters_witness :
  mime_TypeByExtension local_env ".html" = "text/html; charset=utf-8"
  /\ has_semicolon "text/html" = false.
Proof.
  assert (Hin : ok (webroot_upload local_env (webroot_of (deployment42 StatePendingDeploy))
                      {| hdr_Name := "index.html"; hdr_IsDir := false |} "<html></html>")
                ∈ trace local_env jobA (scenarioA local_env)).
  { apply (list_elem_of_lookup_2 _ 5). vm_compute. reflexivity. }
  destruct (content_type_has_no_parameters local_env jobA (scenarioA local_env) _
              (s3client.BucketRegion local_env) (s3client.BucketName local_env)
              "deployments/ab12-42/webroot/index.html" (Bytes "<html></html>")
              "text/html" "public-read" Hin eq_refl) as [H _].
  split; [reflexivity|exact H].
Defined.

Lemma analytics_is_best_effort_witness :
  returned local_env jobA (scenarioA local_env) = Ret tt
  /\ ok TxCommit ∈ trace local_env jobA (scenarioA local_env).
Proof.
  destruct (analytics_is_best_effort local_env jobA (scenarioA local_env)) as [Hiff H].
  assert (Hin : ok (DBFirstUser 1) ∈ trace local_env jobA (scenarioA local_env)).
  { apply (list_elem_of_lookup_2 _ 13). vm_compute. reflexivity. }
  destruct (H _ Hin (or_intror (ex_intro _ 1%N eq_refl))) as [Hr _].
  split; [exact Hr|]. apply Hiff. exact Hr.
Defined.

Lemma damaged_archive_leaves_partial_webroot_witness :
  returned local_env jobA scenario_damaged = Err (ErrTarHeader "unexpected EOF")
  /\ is_Some (s3 (world_after local_env jobA scenario_damaged)
                !! (s3client.BucketRegion local_env, s3client.BucketName local_env,
                    "deployments/ab12-42/webroot/index.html"))
  /\ db (world_after local_env jobA scenario_damaged) = db scenario_damaged.
Proof.
  assert (Hrel : reliable scenario_damaged) by (intros n s; reflexivity).
  assert (Hin : intact [index_html]) by (repeat constructor; discriminate).
  destruct (damaged_archive_leaves_partial_webroot local_env jobA scenario_damaged
              (deployment42 StatePendingDeploy) (project_foo None) damaged_bundle
              [index_html] "unexpected EOF" [] Hrel eq_refl eq_refl
              (or_intror (or_introl eq_refl)) eq_refl eq_refl eq_refl Hin)
    as (Hr & _ & Hfiles & Hdb & _).
  split; [exact Hr|]. split; [|exact Hdb].
  apply (Hfiles {| hdr_Name := "index.html"; hdr_IsDir := false |} "<html></html>").
  apply (list_elem_of_lookup_2 _ 0). reflexivity.
Defined.

Lemma duplicate_delivery_is_refused_witness :
  returned local_env jobA (scenarioA local_env) = Ret tt
  /\ returned local_env jobA (world_after local_env jobA (scenarioA local_env))
     = Err errUnexpectedState.
Proof.
  assert (Hr : returned local_env jobA (scenarioA local_env) = Ret tt)
    by (vm_compute; reflexivity).
  destruct (duplicate_delivery_is_refused local_env jobA (scenarioA local_env)
              (world_after local_env jobA (scenarioA local_env)) Hr eq_refl eq_refl)
    as (_ & Hup & _).
  split; [exact Hr|]. apply Hup. intros n. vm_compute. reflexivity.
Defined.

Lemma calls_follow_the_pipeline_witness :
  (phase (webroot_upload local_env (webroot_of (deployment42 StatePendingDeploy))
            {| hdr_Name := "index.html"; hdr_IsDir := false |} "<html></html>")
   <= phase (pointer_upload local_env
               (pointer_of (deployment42 StatePendingDeploy) (project_foo None))
               "foo.rise.cloud"))%nat.
Proof.
  apply (calls_follow_the_pipeline local_env jobA (scenarioA local_env) 5 7
           (ok (webroot_upload local_env (webroot_of (deployment42 StatePendingDeploy))
                  {| hdr_Name := "index.html"; hdr_IsDir := false |} "<html></html>"))
           (ok (pointer_upload local_env
                  (pointer_of (deployment42 StatePendingDeploy) (project_foo None))
                  "foo.rise.cloud"))).
  - lia.
  - vm_compute. reflexivity.
  - vm_compute. reflexivity.
Defined.

Lemma other_rows_are_untouched_witness :
  first_project (projects (db (world_after local_env jobA scenario_domains))) 8
  = first_project (projects (db scenario_domains)) 8
  /\ domains (db (world_after local_env jobA scenario_domains)) = two_domains.
Proof.
  destruct (other_rows_are_untouched local_env jobA scenario_domains)
    as (Hdom & _ & _ & _ & _ & Hproj).
  split; [|exact Hdom].
  apply (Hproj (deployment42 StatePendingDeploy) 8%N eq_refl). discriminate.
Defined.

Lemma republication_changes_no_object_witness :
  returned local_env job_skipping (world_after local_env jobA (scenarioA local_env)) = Ret tt
  /\ s3 (world_after local_env job_skipping (world_after local_env jobA (scenarioA local_env)))
     = s3 (world_after local_env jobA (scenarioA local_env)).
Proof.
  assert (Hr : returned local_env jobA (scenarioA local_env) = Ret tt)
    by (vm_compute; reflexivity).
  assert (Hrel : reliable (world_after local_env jobA (scenarioA local_env)))
    by (intros n s; vm_compute; reflexivity).
  exact (republication_changes_no_object local_env jobA job_skipping (scenarioA local_env)
           (world_after local_env jobA (scenarioA local_env))
           Hr eq_refl eq_refl eq_refl eq_refl Hrel).
Defined.

Lemma plain_worker_reads_no_row_witness :
  snd (deployer_v0.Work local_env (fun _ _ _ => None)
         (deployer_v0.Decoded (job_v0 (deployment42 StatePendingDeploy) ["foo.rise.cloud"]))
         (scenarioA local_env)) = Panic
  /\ is_Some (s3 (fst (deployer_v0.Work local_env (fun _ _ _ => None)
                         (deployer_v0.Decoded
                            (job_v0 (deployment42 StatePendingDeploy) ["foo.rise.cloud"]))
                         (scenarioA local_env)))
                !! (s3client.BucketRegion local_env, s3client.BucketName local_env,
                    "domains/foo.rise.cloud/meta.json")).
Proof.
  assert (Hrel : reliable (scenarioA local_env)) by (intros n s; reflexivity).
  assert (Hin : intact [index_html]) by (repeat constructor; discriminate).
  destruct (plain_worker_reads_no_row local_env (fun _ _ _ => None)
              (deployer_v0.Decoded (job_v0 (deployment42 StatePendingDeploy) ["foo.rise.cloud"]))
              (scenarioA local_env)) as (_ & _ & _ & H).
  destruct (H _ raw_bundle [index_html] eq_refl Hrel eq_refl eq_refl Hin eq_refl) as [Hp _].
  split; [exact Hp|]. vm_compute. eexists. reflexivity.
Defined.

Lemma workers_publish_alike_witness :
  snd (deployer_v0.Work local_env deployer_v0.message_built
         (deployer_v0.Decoded
            (job_v0 (deployment42 StatePendingDeploy) ["foo.rise.cloud"]))
         (scenarioA local_env)) = Ret tt
  /\ s3 (world_after local_env jobA (scenarioA local_env))
     = s3 (fst (deployer_v0.Work local_env deployer_v0.message_built
                  (deployer_v0.Decoded
                     (job_v0 (deployment42 StatePendingDeploy) ["foo.rise.cloud"]))
                  (scenarioA local_env))).
Proof.
  assert (Hrel : reliable (scenarioA local_env)) by (intros n s; reflexivity).
  assert (Hin : intact [index_html]) by (repeat constructor; discriminate).
  destruct (workers_publish_alike local_env jobA (scenarioA local_env)
              (deployment42 StatePendingDeploy) (project_foo None) raw_bundle [index_html]
              Hrel eq_refl eq_refl (or_intror (or_introl eq_refl))
              eq_refl eq_refl eq_refl eq_refl eq_refl eq_refl eq_refl Hin)
    as (_ & Hv0 & Hs3 & _).
  split; [exact Hv0|exact Hs3].
Defined.

Lemma init_requires_credentials_witness :
  init production_environ = Started production_environ
  /\ exists msg, init (delete "AWS_SECRET_ACCESS_KEY" production_environ) = Fatal msg.
Proof.
  destruct (init_requires_credentials production_environ) as [_ H].
  destruct (H production_environ) as (_ & _ & _ & _ & Hagain);
    [vm_compute; reflexivity|].
  split; [exact Hagain|].
  apply (init_requires_credentials (delete "AWS_SECRET_ACCESS_KEY" production_environ)).
  split; [vm_compute; discriminate|]. right. vm_compute. reflexivity.
Defined.

Lemma Validate_reports_witness :
  usermodel.validation_errors user_incomplete !! "password" = Some "is required"
  /\ usermodel.validation_errors user_incomplete !! "email" = Some "is invalid"
  /\ ~ address "dev@example".
Proof.
  assert (Hv : usermodel.Validate user_incomplete
               = Some (usermodel.validation_errors user_incomplete))
    by (vm_compute; reflexivity).
  destruct (Validate_reports user_incomplete _ Hv)
    as (_ & _ & _ & Hinvalid & _ & Hreq & _).
  assert (He : usermodel.validation_errors user_incomplete !! "email" = Some "is invalid")
    by (vm_compute; reflexivity).
  split; [apply Hreq; reflexivity|]. split; [exact He|].
  apply Hinvalid. exact He.
Defined.

Lemma base64_layer_is_transparent_witness :
  acmecert.encryptBase64 toy_Encrypt 65%nat "hello" "k" = (66%nat, inr "QWhlbGxv")
  /\ acmecert.decryptBase64 toy_Decrypt toy_chunks "QWhlbGxv" "k" = inr "hello".
Proof.
  assert (He : acmecert.encryptBase64 toy_Encrypt 65%nat "hello" "k" = (66%nat, inr "QWhlbGxv"))
    by (vm_compute; reflexivity).
  destruct (base64_layer_is_transparent toy_Encrypt toy_Decrypt toy_chunks 65%nat "hello" "k" _ _ He)
    as (cipherText & Hc & _ & _ & _ & Hback).
  split; [exact He|]. apply Hback.
  injection Hc as <-. reflexivity.
Defined.

Lemma new_certificate_keeps_its_keys_witness :
  exists rand' crt,
    acmecert.New toy_Encrypt toy_GenerateKey (fun k => k) 0%nat 7 "k" = (rand', inr crt)
    /\ acmecert.DecryptedLetsencryptKey toy_Decrypt toy_chunks toy_Parse crt "k" = inr "key0"
    /\ acmecert.DecryptedPrivateKey toy_Decrypt toy_chunks toy_Parse crt "k" = inr "key2"
    /\ acmecert.IsValid crt = false.
Proof.
  destruct (acmecert.New toy_Encrypt toy_GenerateKey (fun k => k) 0%nat 7 "k")
    as [rand' [e|crt] ] eqn:Hnew; [vm_compute in Hnew; discriminate Hnew|].
  exists rand', crt. split; [reflexivity|].
  destruct (new_certificate_keeps_its_keys toy_Encrypt toy_Decrypt toy_chunks toy_GenerateKey
              (fun k => k) toy_Parse 0%nat 7%N "k" rand' crt)
    as (_ & _ & Hvalid & r1 & leKey & r2 & r3 & privKey & G1 & E1 & G2 & _ & Hle & Hpriv).
  - intros r data r' cipherText. unfold toy_Encrypt. simpl. intros [= <- <-]. reflexivity.
  - reflexivity.
  - exact Hnew.
  - injection G1 as <- <-. simpl in E1. subst r2. injection G2 as <- <-.
    split; [exact Hle|]. split; [exact Hpriv|exact Hvalid].
Defined.

Lemma SaveCert_keeps_the_certificate_in_memory_witness :
  exists c' rand' db' err,
    acmecert.SaveCert toy_Encrypt toy_Update_cert
      {| acmecert.ID := 3; acmecert.DomainID := 7;
         acmecert.LetsencryptKey := "a"; acmecert.PrivateKey := "b";
         acmecert.Cert := ""; acmecert.CertURI := "";
         acmecert.HTTPChallengePath := ""; acmecert.HTTPChallengeResource := "" |}
      65%nat [] "hello" "k" = (c', rand', db', err)
    /\ acmecert.decryptBase64 toy_Decrypt toy_chunks (acmecert.Cert c') "k" = inr "hello"
    /\ acmecert.IsValid c' = true.
Proof.
  destruct (acmecert.SaveCert toy_Encrypt toy_Update_cert
              {| acmecert.ID := 3; acmecert.DomainID := 7;
                 acmecert.LetsencryptKey := "a"; acmecert.PrivateKey := "b";
                 acmecert.Cert := ""; acmecert.CertURI := "";
                 acmecert.HTTPChallengePath := ""; acmecert.HTTPChallengeResource := "" |}
              65%nat [] "hello" "k") as [ [ [c' rand'] db'] err] eqn:Hsave.
  exists c', rand', db', err. split; [reflexivity|].
  assert (Haes : forall (r : nat) data (r' : nat) cipherText,
             toy_Encrypt r data "k" = (r', inr cipherText) ->
             toy_Decrypt cipherText "k" = inr data).
  { intros r data r' cipherText. unfold toy_Encrypt. simpl. intros [= <- <-]. reflexivity. }
  destruct (SaveCert_keeps_the_certificate_in_memory toy_Encrypt toy_Decrypt toy_chunks toy_Update_cert
              _ _ _ _ _ _ _ _ _ Haes Hsave)
    as [(e & He & _)|(cipherText & Hc & _ & Hback & _ & _ & Hvalid)].
  - vm_compute in He. discriminate He.
  - split; [exact Hback|]. apply Hvalid. injection Hc as _ <-.
    repeat split; discriminate.
Defined.

Lemma RequireProject_passes_the_owner_only_witness :
  middleware.RequireProject toy_CurrentUser toy_InternalServerError "current_project"
    (fun p => p) (inr [project_foo None] : string + list project.Project) toy_FindByName
    (fun c => c) request_foo
  = gin.Set_ request_foo "current_project" (project_foo None).
Proof.
  destruct (RequireProject_passes_the_owner_only toy_CurrentUser toy_InternalServerError
              "current_project" (fun p => p)
              (inr [project_foo None] : string + list project.Project)
              toy_FindByName request_foo) as [H _].
  apply (H (project_foo None)).
  eexists _, [project_foo None]. repeat split.
Defined.
